(** * angular_todo: the to-do server handlers and the client's derived views

    A shallow embedding of

    - [server/storage.js]  (the two storage backends),
    - [server/index.js]    (the handlers of the todo and account endpoints),
    - the [App] component  (the client's list state and its derived views),
    - [AuthService], [authInterceptor] and the [Login] component (the
      client's session and its sign-in form),

    followed by the properties of the specification that concern them.

    Conventions of the embedding.
    - A JSON document is a value of [Json]; a JavaScript object is a finite
      map from property names to values ([gmap string Json]).  Property
      order is not observable by the handlers and is not modelled.
    - JavaScript numbers are modelled by [Z]: every number the handlers
      compute with is an id, that is a [Date.now()] reading.
    - A JavaScript string is a [string] of one-byte code units.
    - An awaited call that may reject is a value of [Fallible]. *)

From stdpp Require Import gmap strings list fin_maps sorting.
From Stdlib Require Import ZArith Lia Ascii.

Set Warnings "-register-all".
Set Default Proof Using "Type".

Open Scope Z_scope.

(** Linear arithmetic with division and remainder by constants. *)
Ltac div_lia := Z.div_mod_to_equations; lia.

(** A handler's branch that does not get to the write, and the branch
    that ends in it. *)
Ltac no_write :=
  cbn; split_and!;
    [split; [try (by intros [=]); try lia|by intros [_ [? [=]]]]
    |done
    |by intros [? [=]]].
Ltac at_write wr :=
  destruct wr; cbn; split_and!;
    try done; try (by intros [? [=]]);
    try (split; [done|by (split; [|eexists])]);
    try (split; [by intros [=]|by intros [[=] _]]).

(** ** JSON values and JavaScript primitives *)

Inductive Json : Type :=
  | JNull
  | JBool (b : bool)
  | JNum (n : Z)
  | JStr (s : string)
  | JArr (l : list Json)
  | JObj (o : gmap string Json).

Abbreviation JsObject := (gmap string Json).

(** The outcome of awaiting a promise: a value, or a rejection. *)
Inductive Fallible (A : Type) : Type :=
  | Returns (a : A)
  | Throws.
Arguments Returns {A} a.
Arguments Throws {A}.

(** [String.prototype.trim] over one-byte code units: tab, line feed,
    vertical tab, form feed, carriage return, space and no-break space. *)
Definition is_white (c : ascii) : bool :=
  let n := nat_of_ascii c in
  ((9 <=? n)%nat && (n <=? 13)%nat) || (n =? 32)%nat || (n =? 160)%nat.

Fixpoint drop_white (l : list ascii) : list ascii :=
  match l with
  | c :: l' => if is_white c then drop_white l' else l
  | [] => []
  end.

Definition trim (s : string) : string :=
  String.string_of_list_ascii
    (rev (drop_white (rev (drop_white (String.list_ascii_of_string s))))).

(** [\d] of a regular expression without the unicode flag. *)
Definition is_digit (c : ascii) : bool :=
  let n := nat_of_ascii c in (48 <=? n)%nat && (n <=? 57)%nat.

Definition is_dash (c : ascii) : bool := (nat_of_ascii c =? 45)%nat.

(** [Array.prototype.findIndex]: the first index whose element passes. *)
Fixpoint findIndex {A} (p : A → bool) (l : list A) : option nat :=
  match l with
  | [] => None
  | x :: l' => if p x then Some 0%nat else S <$> findIndex p l'
  end.

(** ** The storage backends ([server/storage.js]) *)

Module Storage.

(** What the local file system answers for one path: [fs.existsSync] is
    false; the file exists and [fs.readFileSync] returns its text; or the
    path exists and reading it throws. *)
Inductive File : Type :=
  | FileAbsent
  | FileText (raw : string)
  | FileUnreadable.

(** What [await store.get(key, { type: 'text' })] answers: [null] for a
    missing key, the text of the blob, or a rejection (the blob service
    cannot be reached or refuses the request, or [getStore] finds no
    configuration and throws before the lookup). *)
Inductive Blob : Type :=
  | BlobAbsent
  | BlobText (raw : string)
  | BlobFails.

Section Backends.

(** [JSON.parse] is the runtime's; [None] stands for a [SyntaxError]. *)
Variable JSON_parse : string → option Json.

(** [try { return JSON.parse(fs.readFileSync(file, 'utf8')); }
     catch { return []; }] after the [existsSync] guard. *)
Definition readLocal (f : File) : Fallible Json :=
  match f with
  | FileAbsent => Returns (JArr [])
  | FileText raw =>
      match JSON_parse raw with
      | Some v => Returns v
      | None => Returns (JArr [])
      end
  | FileUnreadable => Returns (JArr [])
  end.

(** [const raw = await store.get(...)] stands outside the [try]; the
    empty string is falsy, so it is not parsed. *)
Definition readBlob (b : Blob) : Fallible Json :=
  match b with
  | BlobFails => Throws
  | BlobAbsent => Returns (JArr [])
  | BlobText raw =>
      if bool_decide (raw = "") then Returns (JArr [])
      else match JSON_parse raw with
           | Some v => Returns v
           | None => Returns (JArr [])
           end
  end.

(** [safeName]: every character outside [[a-zA-Z0-9_-]] is removed. *)
Definition is_name_char (c : ascii) : bool :=
  let n := nat_of_ascii c in
  ((97 <=? n)%nat && (n <=? 122)%nat) || ((65 <=? n)%nat && (n <=? 90)%nat)
  || ((48 <=? n)%nat && (n <=? 57)%nat) || (n =? 95)%nat || (n =? 45)%nat.

Definition safeName (username : string) : string :=
  String.string_of_list_ascii (filter (λ c, is_name_char c) (String.list_ascii_of_string username)).

(** The local backend keeps [users.json] and one [todos/<name>.json] per
    user; the blob backend keeps the key [users] in the store [app-data]
    and one key per user in the store [todos]. *)
Record LocalFs : Type := {
  users_file : File;
  todos_dir : string → File;     (* by file name, without the directory *)
}.

Record BlobStores : Type := {
  app_data : string → Blob;
  todos_store : string → Blob;
}.

(** A file that is missing, or whose text is not JSON; a blob likewise. *)
Definition file_unusable (f : File) : Prop :=
  f = FileAbsent ∨ ∃ raw, f = FileText raw ∧ JSON_parse raw = None.

Definition blob_unusable (b : Blob) : Prop :=
  b = BlobAbsent ∨ ∃ raw, b = BlobText raw ∧ JSON_parse raw = None.

Definition readUsersLocal (fs : LocalFs) : Fallible Json :=
  readLocal (users_file fs).

Definition readTodosLocal (fs : LocalFs) (username : string) : Fallible Json :=
  readLocal (todos_dir fs (safeName username +:+ ".json")).

Definition readUsersNetlify (st : BlobStores) : Fallible Json :=
  readBlob (app_data st "users").

Definition readTodosNetlify (st : BlobStores) (username : string) : Fallible Json :=
  readBlob (todos_store st username).

(** *** Writes *)

(** [JSON.stringify(v)] and [JSON.stringify(v, null, 2)] are the
    runtime's. *)
Variable JSON_stringify : Json → string.
Variable JSON_stringify_pretty : Json → string.

(** [fs.writeFileSync(file, text)]: [ok] tells whether the call returns;
    when it throws, so does the write function. *)
Definition writeUsersLocal (ok : bool) (fs : LocalFs) (users : Json) : Fallible LocalFs :=
  if ok then
    Returns {| users_file := FileText (JSON_stringify_pretty users);
               todos_dir := todos_dir fs |}
  else Throws.

Definition writeTodosLocal (ok : bool) (fs : LocalFs) (username : string) (todos : Json)
  : Fallible LocalFs :=
  if ok then
    Returns {| users_file := users_file fs;
               todos_dir name :=
                 if bool_decide (name = safeName username +:+ ".json")
                 then FileText (JSON_stringify_pretty todos)
                 else todos_dir fs name |}
  else Throws.

(** [await store.set(key, text)]. *)
Definition writeUsersNetlify (ok : bool) (st : BlobStores) (users : Json)
  : Fallible BlobStores :=
  if ok then
    Returns {| app_data key :=
                 if bool_decide (key = "users") then BlobText (JSON_stringify users)
                 else app_data st key;
               todos_store := todos_store st |}
  else Throws.

Definition writeTodosNetlify (ok : bool) (st : BlobStores) (username : string) (todos : Json)
  : Fallible BlobStores :=
  if ok then
    Returns {| app_data := app_data st;
               todos_store key :=
                 if bool_decide (key = username) then BlobText (JSON_stringify todos)
                 else todos_store st key |}
  else Throws.

End Backends.

End Storage.

(** ** The todo handlers ([server/index.js]) *)

Module Server.

Definition VALID_PRIORITIES : list string := ["low"; "medium"; "high"].
Definition MAX_TEXT_LENGTH : nat := 500.
Definition ALLOWED_UPDATE_FIELDS : list string :=
  ["text"; "completed"; "completedAt"; "priority"; "dueDate"].

(** [DATE_REGEX.test(s)] for [/^\d{4}-\d{2}-\d{2}$/]. *)
Definition DATE_REGEX_test (s : string) : bool :=
  match String.list_ascii_of_string s with
  | [y1; y2; y3; y4; s1; m1; m2; s2; d1; d2] =>
      is_digit y1 && is_digit y2 && is_digit y3 && is_digit y4 && is_dash s1
      && is_digit m1 && is_digit m2 && is_dash s2 && is_digit d1 && is_digit d2
  | _ => false
  end.

(** [VALID_PRIORITIES.includes(v)]. *)
Definition valid_priority (v : Json) : bool :=
  match v with
  | JStr s => bool_decide (s ∈ VALID_PRIORITIES)
  | _ => false
  end.

(** [dueDate !== null && (typeof dueDate !== 'string' || !DATE_REGEX.test(dueDate))]. *)
Definition bad_dueDate (v : Json) : bool :=
  match v with
  | JNull => false
  | JStr s => negb (DATE_REGEX_test s)
  | _ => true
  end.

(** What a handler sends: [res.status(s).json(body)] or [res.status(s).end()]. *)
Inductive Reply : Type :=
  | SendJson (status : Z) (body : Json)
  | SendEnd (status : Z).

Definition status_of (r : Reply) : Z :=
  match r with SendJson s _ => s | SendEnd s => s end.

Definition error (status : Z) (msg : string) : Reply :=
  SendJson status (JObj {[ "error" := JStr msg ]}).

(** A handler's effect: its reply and, when [writeTodos] was called and
    returned, the list it was called with.  [written] is [None] both
    when the handler does not get to the call and when the call throws;
    what a call that throws leaves in the document is the backend's
    matter ([fs.writeFileSync] may have truncated the file) and is not
    said here. *)
Record Outcome : Type := {
  reply : Reply;
  written : option (list JsObject);
}.

Definition respond (r : Reply) : Outcome := {| reply := r; written := None |}.

(** [await writeTodos(req.username, l); <then>], inside the handler's
    [try]: when the write throws, the [catch] replies [fail]. *)
Definition write_then (wr : bool) (l : list JsObject) (ok fail : Reply) : Outcome :=
  if wr then {| reply := ok; written := Some l |} else respond fail.

(** The user's list after a request whose write, if it made one,
    returned: the list written, or the list as it was when the handler
    made no call.  (After a call that throws the document is whatever
    the backend left.) *)
Definition store_after (before : list JsObject) (o : Outcome) : list JsObject :=
  default before (written o).

Section Handlers.

(** [rd] is what [await readTodos(req.username)] gives, [wr] whether
    [writeTodos] returns. *)
Variable rd : Fallible (list JsObject).
Variable wr : bool.

(** *** [POST /api/todos] *)

(** [{ id: Date.now(), text: text.trim(), completed: false, priority,
       dueDate, completedAt: null }]. *)
Definition new_todo (now : Z) (text : string) (priority dueDate : Json) : JsObject :=
  {[ "id" := JNum now; "text" := JStr (trim text);
     "completed" := JBool false; "priority" := priority;
     "dueDate" := dueDate; "completedAt" := JNull ]}.

Definition post_todos (now : Z) (body : JsObject) : Outcome :=
  let text := body !! "text" in
  let priority := default (JStr "medium") (body !! "priority") in
  let dueDate := default JNull (body !! "dueDate") in
  match text with
  | Some (JStr text) =>
      if bool_decide (trim text = "") then respond (error 400 "text is required")
      else if (MAX_TEXT_LENGTH <? String.length (trim text))%nat then
        respond (error 400 "text must be 500 characters or less")
      else if negb (valid_priority priority) then
        respond (error 400 "priority must be low, medium, or high")
      else if bad_dueDate dueDate then
        respond (error 400 "dueDate must be in YYYY-MM-DD format")
      else
        match rd with
        | Returns todos =>
            let todo := new_todo now text priority dueDate in
            write_then wr (todos ++ [todo]) (SendJson 201 (JObj todo))
                       (error 500 "Failed to save todo")
        | Throws => respond (error 500 "Failed to save todo")
        end
  | _ => respond (error 400 "text is required")
  end.

(** *** [PATCH /api/todos/reorder] *)

(** [Array.isArray(ids) && ids.every((id) => typeof id === 'number')]. *)
Definition number_array (v : option Json) : option (list Z) :=
  match v with
  | Some (JArr l) => mapM (λ x, match x with JNum n => Some n | _ => None end) l
  | _ => None
  end.

(** [new Map(todos.map((t) => [t.id, t]))], restricted to the keys a
    number can hit: a later entry replaces an earlier one of the same id. *)
Definition todoMap (todos : list JsObject) : gmap Z JsObject :=
  foldl (λ m t, match t !! "id" with
                | Some (JNum n) => <[n := t]> m
                | _ => m
                end) ∅ todos.

(** [ids.map((id) => todoMap.get(id)).filter(Boolean)]. *)
Definition reordered (todos : list JsObject) (ids : list Z) : list JsObject :=
  omap (λ id, todoMap todos !! id) ids.

Definition patch_reorder (body : JsObject) : Outcome :=
  match number_array (body !! "ids") with
  | None => respond (error 400 "ids must be an array of numbers")
  | Some ids =>
      match rd with
      | Returns todos =>
          let r := reordered todos ids in
          if bool_decide (length r ≠ length todos) then
            respond (error 400 "ids do not match stored todos")
          else
            write_then wr r (SendJson 200 (JArr (JObj <$> r)))
                       (error 500 "Failed to reorder todos")
      | Throws => respond (error 500 "Failed to reorder todos")
      end
  end.

(** *** [PUT /api/todos/:id] *)

(** The field checks that precede the read; [None] when they all pass. *)
Definition check_text (body : JsObject) : option Reply :=
  match body !! "text" with
  | None => None
  | Some (JStr text) =>
      if bool_decide (trim text = "") then
        Some (error 400 "text must be a non-empty string")
      else if (MAX_TEXT_LENGTH <? String.length (trim text))%nat then
        Some (error 400 "text must be 500 characters or less")
      else None
  | Some _ => Some (error 400 "text must be a non-empty string")
  end.

Definition check_priority (body : JsObject) : option Reply :=
  match body !! "priority" with
  | None => None
  | Some v =>
      if valid_priority v then None
      else Some (error 400 "priority must be low, medium, or high")
  end.

Definition check_dueDate (body : JsObject) : option Reply :=
  match body !! "dueDate" with
  | None => None
  | Some v =>
      if bad_dueDate v then
        Some (error 400 "dueDate must be in YYYY-MM-DD format or null")
      else None
  end.

Definition check_update (body : JsObject) : option Reply :=
  match check_text body with
  | Some r => Some r
  | None =>
      match check_priority body with
      | Some r => Some r
      | None => check_dueDate body
      end
  end.

(** [for (const field of ALLOWED_UPDATE_FIELDS)
       if (field in req.body) update[field] = req.body[field];] *)
Definition build_update (body : JsObject) : JsObject :=
  foldl (λ update field,
           match body !! field with
           | Some v => <[field := v]> update
           | None => update
           end) ∅ ALLOWED_UPDATE_FIELDS.

(** [t.id === id] for a number [id]. *)
Definition has_id (id : Z) (t : JsObject) : bool :=
  match t !! "id" with
  | Some (JNum n) => bool_decide (n = id)
  | _ => false
  end.

(** [{ ...old, ...update, id }]: the later spread wins, [id] last. *)
Definition merge_update (old update : JsObject) (id : Z) : JsObject :=
  <["id" := JNum id]> (update ∪ old).

(** [id] is [Number(req.params.id)], [None] when it is not finite. *)
Definition put_todo (id : option Z) (body : JsObject) : Outcome :=
  match id with
  | None => respond (error 400 "Invalid id")
  | Some id =>
      match check_update body with
      | Some r => respond r
      | None =>
          match rd with
          | Returns todos =>
              match findIndex (has_id id) todos with
              | None => respond (error 404 "Todo not found")
              | Some idx =>
                  let old := default ∅ (todos !! idx) in
                  let new := merge_update old (build_update body) id in
                  write_then wr (<[idx := new]> todos) (SendJson 200 (JObj new))
                             (error 500 "Failed to update todo")
              end
          | Throws => respond (error 500 "Failed to update todo")
          end
      end
  end.

(** *** [DELETE /api/todos/:id] and [GET /api/todos] *)

Definition delete_todo (id : option Z) : Outcome :=
  match id with
  | None => respond (error 400 "Invalid id")
  | Some id =>
      match rd with
      | Returns todos =>
          let filtered := filter (λ t, negb (has_id id t)) todos in
          if bool_decide (length filtered = length todos) then
            respond (error 404 "Todo not found")
          else write_then wr filtered (SendEnd 204) (error 500 "Failed to delete todo")
      | Throws => respond (error 500 "Failed to delete todo")
      end
  end.

Definition get_todos : Outcome :=
  match rd with
  | Returns todos => respond (SendJson 200 (JArr (JObj <$> todos)))
  | Throws => respond (error 500 "Failed to read todos")
  end.

End Handlers.

(** The ids of a stored list, an entry without a numeric [id] giving none. *)
Definition id_of (t : JsObject) : option Z :=
  match t !! "id" with
  | Some (JNum n) => Some n
  | _ => None
  end.

(** A run of create requests against a store that reads and writes
    without failure: each request comes with the clock reading of its
    [Date.now()]; the replies are collected in order. *)
Fixpoint creates (reqs : list (Z * JsObject)) (store : list JsObject)
  : list Reply * list JsObject :=
  match reqs with
  | [] => ([], store)
  | (now, body) :: reqs' =>
      let o := post_todos (Returns store) true now body in
      let '(rs, final) := creates reqs' (store_after store o) in
      (reply o :: rs, final)
  end.

(** The clock readings of a run are all later than the ids already
    stored, and each is later than the one before. *)
Definition clock_ahead (store : list JsObject) (clocks : list Z) : Prop :=
  Forall (λ c, Forall (λ i, i < c) (omap id_of store)) clocks
  ∧ StronglySorted Z.lt clocks.

(** *** Accounts: [requireAuth], [POST /api/auth/login], [POST /api/auth/register] *)

(** [USERNAME_REGEX.test(s)] for [/^[a-zA-Z0-9_-]{3,32}$/]. *)
Definition USERNAME_REGEX_test (s : string) : bool :=
  let l := String.list_ascii_of_string s in
  forallb Storage.is_name_char l && (3 <=? length l)%nat && (length l <=? 32)%nat.

(** An entry of the accounts document. *)
Record User : Type := {
  username : string;
  passwordHash : string;
}.

(** An account handler's effect: its reply and, when [writeUsers] was
    called, the list it was called with. *)
Record UserOutcome : Type := {
  user_reply : Reply;
  written_users : option (list User);
}.

Definition respond_user (r : Reply) : UserOutcome :=
  {| user_reply := r; written_users := None |}.

Section Accounts.

(** The libraries: [await bcrypt.hash(password, 12)],
    [await bcrypt.compare(password, hash)], the hexadecimal SHA-256 digest,
    [jwt.sign({ username }, JWT_SECRET, ...)], and [jwt.verify], which gives
    the user name of the payload or fails ([None]). *)
Variable bcrypt_hash : string → string.
Variable bcrypt_compare : string → string → bool.
Variable sha256_hex : string → string.
Variable createSession : string → string.
Variable getSession : string → option string.

(** [rdu] is what [await readUsers()] gives, [wru] whether [writeUsers]
    returns. *)
Variable rdu : Fallible (list User).
Variable wru : bool.

Definition verifyPassword (password hash : string) : bool :=
  if String.prefix "$2" hash then bcrypt_compare password hash
  else bool_decide (sha256_hex password = hash).

(** [users.find((u) => u.username === name)]. *)
Definition find_user (name : string) (users : list User) : option User :=
  List.find (λ u, bool_decide (username u = name)) users.

(** [requireAuth]: the reply that ends the request, or the user name put
    on the request for the handler that follows. *)
Definition requireAuth (header : option string) : Reply + string :=
  match header with
  | Some h =>
      if String.prefix "Bearer " h then
        match getSession (String.substring 7 (String.length h - 7) h) with
        | Some name => inr name
        | None => inl (error 401 "Unauthorized")
        end
      else inl (error 401 "Unauthorized")
  | None => inl (error 401 "Unauthorized")
  end.

Definition session_reply (status : Z) (name : string) : Reply :=
  SendJson status (JObj {[ "token" := JStr (createSession name); "username" := JStr name ]}).

(** The handler of [POST /api/auth/login], which the route runs behind
    [authLimiter] (see [login_route]). *)
Definition login (body : JsObject) : Reply :=
  match body !! "username", body !! "password" with
  | Some (JStr name), Some (JStr password) =>
      if bool_decide (name = "") || bool_decide (password = "") then
        error 400 "Username and password are required"
      else
        match rdu with
        | Returns users =>
            match find_user (trim name) users with
            | Some user =>
                if verifyPassword password (passwordHash user) then
                  session_reply 200 (username user)
                else error 401 "Invalid credentials"
            | None => error 401 "Invalid credentials"
            end
        | Throws => error 500 "Login failed"
        end
  | _, _ => error 400 "Username and password are required"
  end.

(** [upgradeHashIfLegacy(user, password)], started by [login] after a
    successful check and not awaited: the list it writes, if it writes.
    Its own read of the accounts is [rdu]; a failure is logged and
    nothing is written. *)
Definition upgradeHashIfLegacy (user : User) (password : string) : option (list User) :=
  if String.prefix "$2" (passwordHash user) then None
  else
    match rdu with
    | Returns users =>
        match findIndex (λ u, bool_decide (username u = username user)) users with
        | Some idx =>
            if wru then
              Some (alter (λ u, {| username := username u;
                                   passwordHash := bcrypt_hash password |}) idx users)
            else None
        | None => None
        end
    | Throws => None
    end.

(** The handler of [POST /api/auth/register], likewise behind
    [authLimiter] (see [register_route]). *)
Definition register (body : JsObject) : UserOutcome :=
  match body !! "username" with
  | Some (JStr name) =>
      if negb (USERNAME_REGEX_test (trim name)) then
        respond_user (error 400 "Username must be 3–32 characters (letters, digits, _ -)")
      else
        match body !! "password" with
        | Some (JStr password) =>
            if (String.length password <? 6)%nat then
              respond_user (error 400 "Password must be at least 6 characters")
            else
              let clean := trim name in
              match rdu with
              | Returns users =>
                  match find_user clean users with
                  | Some _ => respond_user (error 409 "Username already taken")
                  | None =>
                      if wru then
                        {| user_reply := session_reply 201 clean;
                           written_users :=
                             Some (users ++ [{| username := clean;
                                                passwordHash := bcrypt_hash password |}]) |}
                      else respond_user (error 500 "Failed to register")
                  end
              | Throws => respond_user (error 500 "Failed to register")
              end
        | _ => respond_user (error 400 "Password must be at least 6 characters")
        end
  | _ => respond_user (error 400 "Username must be 3–32 characters (letters, digits, _ -)")
  end.

(** [authLimiter], the [rateLimit({ windowMs: 15 * 60 * 1000, max: 10,
    message: { error: ... } })] that stands in front of both account
    routes.  The library is not part of the repository: [hits] is the
    number of requests it has counted for the client in the current
    window of 15 minutes, this request included, and a request beyond
    [max] is answered 429 with the configured message without reaching
    the handler. *)
Definition authLimiter (hits : nat) : option Reply :=
  if (10 <? hits)%nat then Some (error 429 "Too many requests, please try again later")
  else None.

(** The two routes: [app.post(path, authLimiter, handler)]. *)
Definition login_route (hits : nat) (body : JsObject) : Reply :=
  match authLimiter hits with
  | Some r => r
  | None => login body
  end.

Definition register_route (hits : nat) (body : JsObject) : UserOutcome :=
  match authLimiter hits with
  | Some r => respond_user r
  | None => register body
  end.

End Accounts.

(** *** Vocabulary for the handlers' properties *)

(** The list a handler passes to [writeTodos], if it gets to the call.
    The call is made before its result is known, so the list is read off
    the handler run with a write that returns. *)
Definition passed_to_write (h : bool → Outcome) : option (list JsObject) :=
  written (h true).

(** What a handler does about the write, for a handler [h] given as a
    function of whether [writeTodos] returns, with success status [ok]:
    it answers [ok] exactly when it calls [writeTodos] and the call
    returns; when it does not get to the call, its outcome is the same
    whatever a write would have done; when the call throws, it answers
    500. *)
Definition write_discipline (h : bool → Outcome) (ok : Z) : Prop :=
  ∀ wr,
    (status_of (reply (h wr)) = ok ↔ wr = true ∧ is_Some (passed_to_write h))
    ∧ (passed_to_write h = None → h wr = h true)
    ∧ (is_Some (passed_to_write h) → wr = false → status_of (reply (h wr)) = 500).

(** A record whose [text], [priority] and [dueDate] would pass the field
    checks of the handlers. *)
Definition checked_record (j : JsObject) : Prop :=
  (∃ s, j !! "text" = Some (JStr s) ∧ trim s ≠ ""
        ∧ (String.length (trim s) ≤ MAX_TEXT_LENGTH)%nat)
  ∧ (∃ v, j !! "priority" = Some v ∧ valid_priority v = true)
  ∧ (∃ v, j !! "dueDate" = Some v ∧ bad_dueDate v = false).

Definition checked_store (l : list JsObject) : Prop := Forall checked_record l.

(** The accounts document names every user once, by a name of the
    required form. *)
Definition accounts_ok (users : list User) : Prop :=
  NoDup (username <$> users)
  ∧ Forall (λ u, USERNAME_REGEX_test (username u) = true) users.

End Server.

(** ** The [Date] arithmetic the client relies on (ECMAScript, clause 21.4.1)

    A time value is a number of milliseconds since the epoch, or [NaN]
    ([None]).  The local time zone is a constant offset [tza] from UTC, in
    milliseconds; daylight-saving transitions are outside the model. *)

Module JsDate.

Definition msPerDay : Z := 86400000.

Definition Day (t : Z) : Z := t `div` msPerDay.

Definition DayFromYear (y : Z) : Z :=
  365 * (y - 1970) + (y - 1969) `div` 4 - (y - 1901) `div` 100 + (y - 1601) `div` 400.

Definition InLeapYear (y : Z) : bool :=
  if bool_decide (y `mod` 4 ≠ 0) then false
  else if bool_decide (y `mod` 100 ≠ 0) then true
  else if bool_decide (y `mod` 400 ≠ 0) then false
  else true.

(** Days of the year that precede month [m] (0 = January). *)
Definition DaysBeforeMonth (leap : bool) (m : Z) : Z :=
  let l := if leap then 1 else 0 in
  match m with
  | 0 => 0 | 1 => 31 | 2 => 59 + l | 3 => 90 + l | 4 => 120 + l
  | 5 => 151 + l | 6 => 181 + l | 7 => 212 + l | 8 => 243 + l
  | 9 => 273 + l | 10 => 304 + l | _ => 334 + l
  end.

(** [MakeDay(year, month, date)]: the month is carried into the year, the
    day of the month is added unchanged, whatever its size. *)
Definition MakeDay (year month date : Z) : Z :=
  let ym := year + month `div` 12 in
  let mn := month `mod` 12 in
  DayFromYear ym + DaysBeforeMonth (InLeapYear ym) mn + date - 1.

Definition MakeTime (hour min sec ms : Z) : Z :=
  hour * 3600000 + min * 60000 + sec * 1000 + ms.

Definition MakeDate (day time : Z) : Z := day * msPerDay + time.

Definition TimeClip (t : Z) : option Z :=
  if bool_decide (8640000000000000 < Z.abs t) then None else Some t.

(** [MakeFullYear]: a year from 0 to 99 means 1900 to 1999. *)
Definition MakeFullYear (y : Z) : Z :=
  if bool_decide (0 ≤ y ≤ 99) then 1900 + y else y.

Section Zone.

Variable tza : Z.

Definition LocalTime (t : Z) : Z := t + tza.
Definition UTC (t : Z) : Z := t - tza.

(** [new Date(y, m, d)] with numeric arguments, [None] standing for a
    [NaN] argument (so also for [undefined]); the result is the time
    value of the new object. *)
Definition construct (y m d : option Z) : option Z :=
  match y, m, d with
  | Some y, Some m, Some d =>
      TimeClip (UTC (MakeDate (MakeDay (MakeFullYear y) m d) (MakeTime 0 0 0 0)))
  | _, _, _ => None
  end.

(** [date.setHours(0, 0, 0, 0)] on an object of time value [t]. *)
Definition setHours0 (t : option Z) : option Z :=
  match t with
  | Some t => TimeClip (UTC (MakeDate (Day (LocalTime t)) (MakeTime 0 0 0 0)))
  | None => None
  end.

End Zone.

(** [a < b] on two [Date] objects: the time values are compared, and a
    comparison with [NaN] is false. *)
Definition lt (a b : option Z) : bool :=
  match a, b with
  | Some a, Some b => bool_decide (a < b)
  | _, _ => false
  end.

(** [new Date()] at clock reading [now]. *)
Definition current (now : Z) : option Z := Some now.

End JsDate.

(** [s.split('-')]. *)
Fixpoint split_dash_go (cur : list ascii) (l : list ascii) : list string :=
  match l with
  | [] => [String.string_of_list_ascii (rev cur)]
  | c :: l' =>
      if is_dash c then String.string_of_list_ascii (rev cur) :: split_dash_go [] l'
      else split_dash_go (c :: cur) l'
  end.

Definition split_dash (s : string) : list string :=
  split_dash_go [] (String.list_ascii_of_string s).

(** [Number(s)] on a string of decimal digits (the empty string gives 0),
    which is what the pieces of a date string [YYYY-MM-DD] are.  Strings of
    another shape (signs, blanks, fractions, exponents, other radices) are
    outside the model: they are mapped to [NaN] here, and the properties
    of due dates below are stated for strings in the stored format. *)
Definition digit_value (c : ascii) : Z := Z.of_nat (nat_of_ascii c) - 48.

Definition Number_of_digits (s : string) : option Z :=
  let l := String.list_ascii_of_string s in
  if forallb is_digit l then Some (foldl (λ acc c, 10 * acc + digit_value c) 0 l)
  else None.

(** [Array.prototype.sort(cmp)]: the sort is stable (ECMAScript 2019);
    it is modelled by insertion from the right, which keeps an element
    before those that follow it unless the comparator puts it after. *)
Fixpoint sort_insert {A} (cmp : A → A → Z) (x : A) (l : list A) : list A :=
  match l with
  | [] => [x]
  | y :: l' => if bool_decide (0 < cmp x y) then y :: sort_insert cmp x l' else x :: l
  end.

Definition sort_by {A} (cmp : A → A → Z) (l : list A) : list A :=
  foldr (sort_insert cmp) [] l.

(** ** The client's list state and derived views (the [App] component) *)

Module Client.

Inductive Priority : Type := low | medium | high.

Inductive Filter : Type := all | active | completed_only.

(** [Priority | 'all']. *)
Inductive PriorityFilter : Type := any_priority | only (p : Priority).

Record Todo : Type := {
  id : Z;
  text : string;
  completed : bool;
  priority : Priority;
  dueDate : option string;        (* [None]: null or absent *)
  completedAt : option Z;         (* [None]: null or absent *)
}.

#[export] Instance Priority_eq_dec : EqDecision Priority.
Proof. solve_decision. Defined.

#[export] Instance Todo_eq_dec : EqDecision Todo.
Proof. solve_decision. Defined.

Definition ARCHIVE_THRESHOLD_MS : Z := 5 * 24 * 60 * 60 * 1000.

(** [!!t.dueDate] and [!!t.completedAt]: null, the empty string and zero
    are falsy. *)
Definition truthy_string (s : option string) : bool :=
  match s with
  | Some s => negb (bool_decide (s = ""))
  | None => false
  end.

Definition truthy_number (n : option Z) : bool :=
  match n with
  | Some n => negb (bool_decide (n = 0))
  | None => false
  end.

(** [const [y, m, d] = s.split('-').map(Number); new Date(y, m - 1, d)]:
    a missing piece is [undefined], which the constructor reads as [NaN]. *)
Definition date_parts (s : string) : option Z * option Z * option Z :=
  let parts := Number_of_digits <$> split_dash s in
  (mjoin (parts !! 0%nat), mjoin (parts !! 1%nat), mjoin (parts !! 2%nat)).

Definition due_date (tza : Z) (s : string) : option Z :=
  let '(y, m, d) := date_parts s in
  JsDate.construct tza y ((λ m, m - 1) <$> m) d.

(** [today = new Date(); today.setHours(0, 0, 0, 0)]. *)
Definition today (tza now : Z) : option Z :=
  JsDate.setHours0 tza (JsDate.current now).

(** The two predicates given to [filter] in [overdueIds]; in the second
    one [t.dueDate!] is not null, the first having passed. *)
Definition has_due_date (t : Todo) : bool :=
  negb (completed t) && truthy_string (dueDate t).

Definition past_due (tza now : Z) (t : Todo) : bool :=
  match dueDate t with
  | Some s => JsDate.lt (due_date tza s) (today tza now)
  | None => false
  end.

Definition overdueIds (tza now : Z) (todos : list Todo) : gset Z :=
  list_to_set
    (id <$> filter (λ t, past_due tza now t) (filter (λ t, has_due_date t) todos)).

(** [isOverdue(todo)]. *)
Definition isOverdue (tza now : Z) (todos : list Todo) (todo : Todo) : bool :=
  bool_decide (id todo ∈ overdueIds tza now todos).

(** A todo that passes both filters. *)
Definition overdue (tza now : Z) (t : Todo) : bool :=
  has_due_date t && past_due tza now t.

Definition is_archived (now : Z) (t : Todo) : bool :=
  completed t && truthy_number (completedAt t)
  && match completedAt t with
     | Some at_ => bool_decide (ARCHIVE_THRESHOLD_MS < now - at_)
     | None => false
     end.

Definition archivedIds (now : Z) (todos : list Todo) : gset Z :=
  list_to_set (id <$> filter (λ t, is_archived now t) todos).

Definition archivedTodos (now : Z) (todos : list Todo) : list Todo :=
  filter (λ t, id t ∈ archivedIds now todos) todos.

(** The filter settings: the signals [filter], [priorityFilter] and
    [showCompleted]. *)
Record Settings : Type := {
  filter_ : Filter;
  priorityFilter : PriorityFilter;
  showCompleted : bool;
}.

Definition statusOk (f : Filter) (t : Todo) : bool :=
  match f with
  | all => true
  | active => negb (completed t)
  | completed_only => completed t
  end.

Definition priorityOk (p : PriorityFilter) (t : Todo) : bool :=
  match p with
  | any_priority => true
  | only p => bool_decide (priority t = p)
  end.

(** The predicate given to [filter] in [filteredTodos]. *)
Definition visible (archived : gset Z) (st : Settings) (t : Todo) : bool :=
  if bool_decide (id t ∈ archived) then false
  else if negb (showCompleted st) && completed t then false
  else statusOk (filter_ st) t && priorityOk (priorityFilter st) t.

(** The comparator given to [sort] in [filteredTodos]. *)
Definition by_completion (a b : Todo) : Z :=
  if bool_decide (completed a ≠ completed b) then (if completed a then 1 else -1)
  else 0.

Definition filteredTodos (now : Z) (st : Settings) (todos : list Todo) : list Todo :=
  sort_by by_completion (filter (λ t, visible (archivedIds now todos) st t) todos).

Definition activeCount (now : Z) (todos : list Todo) : nat :=
  length (filter (λ t, negb (completed t) && negb (bool_decide (id t ∈ archivedIds now todos))) todos).

Definition completedCount (now : Z) (todos : list Todo) : nat :=
  length (filter (λ t, completed t && negb (bool_decide (id t ∈ archivedIds now todos))) todos).

(** *** Toggling *)

(** The body of the update request: [{ completed, completedAt }]. *)
Record TogglePayload : Type := {
  p_completed : bool;
  p_completedAt : option Z;
}.

Definition toggle_payload (now : Z) (todo : Todo) : TogglePayload :=
  if completed todo then {| p_completed := false; p_completedAt := None |}
  else {| p_completed := true; p_completedAt := Some now |}.

(** [{ ...t, ...payload }]. *)
Definition apply_payload (p : TogglePayload) (t : Todo) : Todo :=
  {| id := id t; text := text t; completed := p_completed p;
     priority := priority t; dueDate := dueDate t;
     completedAt := p_completedAt p |}.

(** [list.map((t) => (t.id === id ? r t : t))]. *)
Definition map_id (i : Z) (r : Todo → Todo) (l : list Todo) : list Todo :=
  (λ t, if bool_decide (id t = i) then r t else t) <$> l.

(** [toggleTodo(id)] up to the request: the payload sent and the list
    after the optimistic update; [None] when no todo has this id and the
    method returns at once. *)
Definition toggleTodo (now : Z) (i : Z) (todos : list Todo)
  : option (TogglePayload * list Todo) :=
  match List.find (λ t, bool_decide (id t = i)) todos with
  | None => None
  | Some todo =>
      let payload := toggle_payload now todo in
      Some (payload, map_id i (apply_payload payload) todos)
  end.

(** The [next] and [error] callbacks of the request. *)
Definition toggle_next (i : Z) (updated : Todo) (todos : list Todo) : list Todo :=
  map_id i (λ _, updated) todos.

Definition toggle_error (i : Z) (todo : Todo) (todos : list Todo) : list Todo :=
  map_id i (λ _, todo) todos.

(** The list after [toggleTodo(id)] (unchanged when the id is unknown). *)
Definition toggled (now : Z) (i : Z) (todos : list Todo) : list Todo :=
  match toggleTodo now i todos with
  | Some (_, todos') => todos'
  | None => todos
  end.

(** *** Adding *)

(** The [next] callback of [addTodo]: [[todo, ...list]]. *)
Definition addTodo_next (todo : Todo) (l : list Todo) : list Todo :=
  todo :: l.

(** *** Labels *)




(** What [formatCompletedDate] returns. *)
Inductive CompletedLabel : Type :=
  | CompletedToday
  | CompletedYesterday
  | CompletedAgo (n : Z)
  | CompletedOn (ts : Z).

Definition formatCompletedDate (now ts : Z) : CompletedLabel :=
  let days := (now - ts) `div` 86400000 in
  if bool_decide (days < 1) then CompletedToday
  else if bool_decide (days = 1) then CompletedYesterday
  else if bool_decide (days < 7) then CompletedAgo days
  else CompletedOn ts.

(** *** Deleting *)

(** [next.splice(idx, 0, todo)]: an index past the end inserts at the end. *)
Definition splice_in {A} (idx : nat) (x : A) (l : list A) : list A :=
  take idx l ++ x :: drop idx l.

(** [deleteTodo(id)] up to the request: the index and the todo kept for
    the rollback and the list after the optimistic removal; [None] when no
    todo has this id. *)
Definition deleteTodo (i : Z) (todos : list Todo) : option (nat * Todo * list Todo) :=
  match findIndex (λ t, bool_decide (id t = i)) todos with
  | None => None
  | Some idx =>
      match todos !! idx with
      | Some todo => Some (idx, todo, filter (λ t, id t ≠ i) todos)
      | None => None
      end
  end.

(** The [error] callback of the request. *)
Definition delete_error (idx : nat) (todo : Todo) (l : list Todo) : list Todo :=
  splice_in idx todo l.

(** *** Priority cycling *)

Definition PRIORITY_CYCLE : list Priority := [low; medium; high].

(** [PRIORITY_CYCLE.indexOf(p)]. *)
Definition indexOf (p : Priority) (l : list Priority) : Z :=
  match findIndex (λ q, bool_decide (q = p)) l with
  | Some i => Z.of_nat i
  | None => -1
  end.

(** [PRIORITY_CYCLE[(PRIORITY_CYCLE.indexOf(p) + 1) % PRIORITY_CYCLE.length]],
    [None] standing for [undefined]. *)
Definition next_priority (p : Priority) : option Priority :=
  let k := Z.rem (indexOf p PRIORITY_CYCLE + 1) (Z.of_nat (length PRIORITY_CYCLE)) in
  if bool_decide (0 ≤ k) then PRIORITY_CYCLE !! Z.to_nat k else None.

(** [{ ...t, priority: next }]. *)
Definition set_priority (next : Priority) (t : Todo) : Todo :=
  {| id := id t; text := text t; completed := completed t;
     priority := next; dueDate := dueDate t; completedAt := completedAt t |}.

(** [cyclePriority(id)] up to the request: the priority sent and the list
    after the optimistic update. *)
Definition cyclePriority (i : Z) (todos : list Todo) : option (Priority * list Todo) :=
  match List.find (λ t, bool_decide (id t = i)) todos with
  | None => None
  | Some todo =>
      match next_priority (priority todo) with
      | Some next => Some (next, map_id i (set_priority next) todos)
      | None => None
      end
  end.

(** The [next] and [error] callbacks of the request:
    [list.map((t) => (t.id === id ? updated : t))], and the same with the
    todo found before the change. *)
Definition cyclePriority_next (i : Z) (updated : Todo) (todos : list Todo) : list Todo :=
  map_id i (λ _, updated) todos.

Definition cyclePriority_error (i : Z) (todo : Todo) (todos : list Todo) : list Todo :=
  map_id i (λ _, todo) todos.

(** *** Inline editing *)

(** The signals [editingId] and [editingText]. *)
Record Editing : Type := {
  editingId : option Z;
  editingText : string;
}.

Definition startEdit (i : Z) (s : string) : Editing :=
  {| editingId := Some i; editingText := s |}.

Definition cancelEdit : Editing := {| editingId := None; editingText := "" |}.

(** [{ ...t, text }]. *)
Definition set_text (s : string) (t : Todo) : Todo :=
  {| id := id t; text := s; completed := completed t;
     priority := priority t; dueDate := dueDate t; completedAt := completedAt t |}.

(** [commitEdit()] up to the request: the editing signals afterwards, the
    id and text of the update request when one is sent, and the list. *)
Definition commitEdit (e : Editing) (todos : list Todo)
  : Editing * option (Z * string) * list Todo :=
  match editingId e with
  | None => (e, None, todos)
  | Some i =>
      let s := trim (editingText e) in
      match List.find (λ t, bool_decide (id t = i)) todos with
      | Some original =>
          if bool_decide (s = "") then (cancelEdit, None, todos)
          else if bool_decide (s = text original) then (cancelEdit, None, todos)
          else (cancelEdit, Some (i, s), map_id i (set_text s) todos)
      | None => (cancelEdit, None, todos)
      end
  end.

(** The [next] and [error] callbacks of the request. *)
Definition commitEdit_next (i : Z) (updated : Todo) (todos : list Todo) : list Todo :=
  map_id i (λ _, updated) todos.

Definition commitEdit_error (i : Z) (original : Todo) (todos : list Todo) : list Todo :=
  map_id i (λ _, original) todos.

(** *** Drag and drop *)

(** [reorderTodo(draggedId, targetId)] up to the request: the list set,
    whose ids are sent; [None] when either id is not found and nothing
    happens. *)
Definition reorderTodo (draggedId targetId : Z) (todos : list Todo) : option (list Todo) :=
  match findIndex (λ t, bool_decide (id t = draggedId)) todos with
  | None => None
  | Some fromIdx =>
      match todos !! fromIdx with
      | Some item =>
          let rest := delete fromIdx todos in
          match findIndex (λ t, bool_decide (id t = targetId)) rest with
          | None => None
          | Some toIdx => Some (splice_in toIdx item rest)
          end
      | None => None
      end
  end.

(** [onDrop(targetId)] with the signal [draggedId]: the list afterwards. *)
Definition onDrop (draggedId : option Z) (targetId : Z) (todos : list Todo) : list Todo :=
  match draggedId with
  | Some d =>
      if bool_decide (d ≠ targetId) then default todos (reorderTodo d targetId todos)
      else todos
  | None => todos
  end.

End Client.

(** ** Records on the wire

    The HTTP client hands the parsed response to the component under the
    interface [Todo]; [view] is the record a JSON object denotes under
    that interface, and there is none when a property has another type
    than the interface declares. *)

Module Wire.

Import Client.

Definition priority_name (p : Priority) : string :=
  match p with low => "low" | medium => "medium" | high => "high" end.

Definition priority_named (s : string) : option Priority :=
  if bool_decide (s = "low") then Some low
  else if bool_decide (s = "medium") then Some medium
  else if bool_decide (s = "high") then Some high
  else None.

(** [string | null | undefined] and [number | null | undefined]. *)
Definition opt_string (v : option Json) : option (option string) :=
  match v with
  | None | Some JNull => Some None
  | Some (JStr s) => Some (Some s)
  | Some _ => None
  end.

Definition opt_number (v : option Json) : option (option Z) :=
  match v with
  | None | Some JNull => Some None
  | Some (JNum n) => Some (Some n)
  | Some _ => None
  end.

Definition view (j : JsObject) : option Todo :=
  match j !! "id", j !! "text", j !! "completed", j !! "priority" with
  | Some (JNum i), Some (JStr s), Some (JBool c), Some (JStr p) =>
      p ← priority_named p;
      d ← opt_string (j !! "dueDate");
      a ← opt_number (j !! "completedAt");
      Some {| id := i; text := s; completed := c; priority := p;
              dueDate := d; completedAt := a |}
  | _, _, _, _ => None
  end.

(** The client's cache shows the stored list. *)
Definition in_sync (stored : list JsObject) (cache : list Todo) : Prop :=
  Forall2 (λ j t, view j = Some t) stored cache.

(** The body [toggleTodo] sends with its [PUT]. *)
Definition toggle_body (p : TogglePayload) : JsObject :=
  {[ "completed" := JBool (p_completed p);
     "completedAt" := from_option JNum JNull (p_completedAt p) ]}.

(** The body [addTodo] sends with its [POST], from the input signals
    [newTodoText], [newTodoPriority] and [newTodoDueDate]; [None] when the
    trimmed text is empty and nothing is sent. *)
Definition addTodo_body (newTodoText : string) (newTodoPriority : Priority)
    (newTodoDueDate : string) : option JsObject :=
  let text := trim newTodoText in
  if bool_decide (text = "") then None
  else Some {[ "text" := JStr text; "completed" := JBool false;
               "priority" := JStr (priority_name newTodoPriority);
               "dueDate" := if bool_decide (newTodoDueDate = "") then JNull
                            else JStr newTodoDueDate ]}.

(** The bodies [cyclePriority], [commitEdit] and [reorderTodo] send. *)
Definition priority_body (p : Priority) : JsObject :=
  {[ "priority" := JStr (priority_name p) ]}.

Definition edit_body (s : string) : JsObject := {[ "text" := JStr s ]}.

Definition reorder_body (l : list Todo) : JsObject :=
  {[ "ids" := JArr ((λ t, JNum (id t)) <$> l) ]}.

(** Every stored record is a todo under the client's interface. *)
Definition typed_store (l : list JsObject) : Prop :=
  Forall (λ j, is_Some (view j)) l.

(** A body whose [completed] and [completedAt], when it has them, are of
    the types the interface declares. *)
Definition typed_completion (body : JsObject) : Prop :=
  (∀ v, body !! "completed" = Some v → ∃ b, v = JBool b)
  ∧ (∀ v, body !! "completedAt" = Some v → v = JNull ∨ ∃ n, v = JNum n).

(** No two todos of the cache share an id. *)
Definition distinct_ids (l : list Todo) : Prop := NoDup (id <$> l).

End Wire.

(** ** The client's session ([AuthService] and [authInterceptor]) *)

Module AuthService.

Record Session : Type := {
  token : string;
  username : string;
}.

(** The signals [_session] and [sessionExpired], and the item the service
    keeps in [sessionStorage]. *)
Record State : Type := {
  session : option Session;
  sessionExpired : bool;
  stored : option string;
}.

Section Service.

(** [JSON.stringify(session)] is the runtime's. *)
Variable JSON_stringify : Session → string.

Definition isLoggedIn (st : State) : bool :=
  match session st with Some _ => true | None => false end.

Definition loginWithToken (tok name : string) (st : State) : State :=
  let s := {| token := tok; username := name |} in
  {| session := Some s; sessionExpired := false; stored := Some (JSON_stringify s) |}.

Definition logout (expired : bool) (st : State) : State :=
  {| session := None;
     sessionExpired := if expired && isLoggedIn st then true else sessionExpired st;
     stored := None |}.

Definition getAuthHeader (st : State) : option string :=
  match session st with
  | Some s => Some ("Bearer " +:+ token s)
  | None => None
  end.

(** [authInterceptor], on the error of a response: a 401 logs out. *)
Definition on_error (status : Z) (st : State) : State :=
  if bool_decide (status = 401) then logout true st else st.

(** What happens to the service: a login or a registration went through
    ([Login] calls [loginWithToken]), the user logs out ([App.logout]
    calls [logout()]), or a request failed with a status. *)
Inductive Event : Type :=
  | LoggedIn (tok name : string)
  | LoggedOut
  | Failed (status : Z).

Definition step (st : State) (e : Event) : State :=
  match e with
  | LoggedIn tok name => loginWithToken tok name st
  | LoggedOut => logout false st
  | Failed status => on_error status st
  end.

Definition run (st : State) (events : list Event) : State := foldl step st events.

End Service.

End AuthService.

(** ** The sign-in form (the [Login] component) *)

Module Login.

(** The signals [username], [password] and [confirmPassword]. *)
Record Form : Type := {
  username : string;
  password : string;
  confirmPassword : string;
}.

(** The body both requests carry: [{ username: u, password: p }]. *)
Definition credentials (u p : string) : JsObject :=
  {[ "username" := JStr u; "password" := JStr p ]}.

(** [_login()] and [_register()] up to the request: the message put in
    the [error] signal, or the body posted. *)
Definition _login (f : Form) : string + JsObject :=
  let u := trim (username f) in
  let p := password f in
  if bool_decide (u = "") || bool_decide (p = "") then
    inl "Please enter username and password"
  else inr (credentials u p).

Definition _register (f : Form) : string + JsObject :=
  let u := trim (username f) in
  let p := password f in
  let cp := confirmPassword f in
  if bool_decide (u = "") || bool_decide (p = "") then inl "Please fill in all fields"
  else if bool_decide (p ≠ cp) then inl "Passwords do not match"
  else if (String.length p <? 6)%nat then inl "Password must be at least 6 characters"
  else inr (credentials u p).

End Login.

(** ** Calendar dates

    The vocabulary in which the specification speaks of due dates: a
    calendar date is a year, a month (1 for January) and a day of the
    month. *)

Module Calendar.

Import JsDate.

Definition DaysInYear (y : Z) : Z := if InLeapYear y then 366 else 365.

Definition DaysInMonth (leap : bool) (m : Z) : Z :=
  match m with
  | 2 => if leap then 29 else 28
  | 4 | 6 | 9 | 11 => 30
  | _ => 31
  end.

(** A date of the (proleptic Gregorian) calendar. *)
Definition real_date (y m d : Z) : Prop :=
  1 ≤ m ≤ 12 ∧ 1 ≤ d ≤ DaysInMonth (InLeapYear y) m.

(** One calendar date strictly before another. *)
Definition before (a b : Z * Z * Z) : Prop :=
  let '(y1, m1, d1) := a in
  let '(y2, m2, d2) := b in
  y1 < y2 ∨ (y1 = y2 ∧ (m1 < m2 ∨ (m1 = m2 ∧ d1 < d2))).

(** The number of the day, counted from 1 January 1970. *)
Definition day_number (y m d : Z) : Z := MakeDay y (m - 1) d.

(** The local day on which the clock reads [now]. *)
Definition today_day (tza now : Z) : Z := Day (LocalTime tza now).

(** The local calendar date at clock reading [now] is [y]-[m]-[d]. *)
Definition today_is (tza now : Z) (y m d : Z) : Prop :=
  real_date y m d ∧ day_number y m d = today_day tza now.

(** A date as the stored format writes it: the four digits of the year,
    the two of the month and the two of the day, with dashes between. *)
Definition digit_char (n : Z) : ascii := ascii_of_nat (48 + Z.to_nat n).

Definition date_string (y m d : Z) : string :=
  String.string_of_list_ascii
    [digit_char (y `div` 1000); digit_char ((y `div` 100) `mod` 10);
     digit_char ((y `div` 10) `mod` 10); digit_char (y `mod` 10); "-"%char;
     digit_char (m `div` 10); digit_char (m `mod` 10); "-"%char;
     digit_char (d `div` 10); digit_char (d `mod` 10)].

(** A date of the calendar with a year of four digits, from 100 on. *)
Definition calendar_date (y m d : Z) : Prop := 100 ≤ y ≤ 9999 ∧ real_date y m d.

(** Every due date of the list is such a date, written in the stored
    format. *)
Definition due_dates_written (todos : list Client.Todo) : Prop :=
  ∀ t s, t ∈ todos → Client.dueDate t = Some s →
         ∃ y m d, s = date_string y m d ∧ calendar_date y m d.

(** The day the [Date] built from a due-date string falls on. *)
Definition due_day (s : string) : option Z :=
  match Client.date_parts s with
  | (Some y, Some m, Some d) => Some (day_number (MakeFullYear y) m d)
  | _ => None
  end.

(** A zone offset is less than a day; a clock reading is a time value
    whose local midnight is a time value too. *)
Definition zone_offset (tza : Z) : Prop := - msPerDay < tza < msPerDay.

Definition clock_reading (now : Z) : Prop :=
  - 8640000000000000 + msPerDay ≤ now ≤ 8640000000000000.

End Calendar.

(** A stand-in for [JSON.parse] in examples: it reads the text of the
    empty array and rejects every other text. *)
Definition parse_empty_array (raw : string) : option Json :=
  if bool_decide (raw = "[]") then Some (JArr []) else None.

(** ** Sample data for the examples *)

(** A file system and a blob service for examples: the user [ann] has a
    todo file and a blob that are not JSON, nobody else has any, and the
    accounts are missing. *)
Definition sample_fs : Storage.LocalFs :=
  {| Storage.users_file := Storage.FileAbsent;
     Storage.todos_dir name :=
       if bool_decide (name = "ann.json") then Storage.FileText "[{"
       else Storage.FileAbsent |}.

Definition sample_blobs : Storage.BlobStores :=
  {| Storage.app_data _ := Storage.BlobAbsent;
     Storage.todos_store key :=
       if bool_decide (key = "ann") then Storage.BlobText "[{"
       else Storage.BlobAbsent |}.

(** A blob service that cannot be reached. *)
Definition unreachable_blobs : Storage.BlobStores :=
  {| Storage.app_data _ := Storage.BlobFails;
     Storage.todos_store _ := Storage.BlobFails |}.

(** Stored records and request bodies. *)
Definition sample_todo (i : Z) (s : string) : JsObject :=
  Server.new_todo i s (JStr "medium") JNull.

Definition ids_body (ids : list Z) : JsObject :=
  {[ "ids" := JArr (JNum <$> ids) ]}.

Definition text_body (s : string) : JsObject := {[ "text" := JStr s ]}.

Definition sample_list : list JsObject := [sample_todo 1 "a"; sample_todo 2 "b"].

(** A body with no allow-listed property. *)
Definition unknown_body : JsObject := {[ "id" := JNum 99; "owner" := JStr "eve" ]}.

(** Records of the client's list. *)
Definition sample_done (i : Z) (completedAt : option Z) : Client.Todo :=
  {| Client.id := i; Client.text := "done"; Client.completed := true;
     Client.priority := Client.medium; Client.dueDate := None;
     Client.completedAt := completedAt |}.

Definition sample_open (i : Z) (dueDate : option string) : Client.Todo :=
  {| Client.id := i; Client.text := "open"; Client.completed := false;
     Client.priority := Client.medium; Client.dueDate := dueDate;
     Client.completedAt := None |}.

(** The client's view of [sample_todo i s], for a text without blanks at
    its ends. *)
Definition sample_view (i : Z) (s : string) : Client.Todo :=
  {| Client.id := i; Client.text := s; Client.completed := false;
     Client.priority := Client.medium; Client.dueDate := None;
     Client.completedAt := None |}.

(** Filter settings that hide nothing by status or priority and show
    the completed todos. *)
Definition show_everything : Client.Settings :=
  {| Client.filter_ := Client.all; Client.priorityFilter := Client.any_priority;
     Client.showCompleted := true |}.

(** Stand-ins for the libraries in examples: a [JSON.stringify] that
    prints the text of the empty array, a hash that marks the password
    with the bcrypt prefix, a digest that is the password itself, and a
    token that is the user name behind a tag. *)
Definition stringify_empty_array (v : Json) : string := "[]".

Definition toy_hash (password : string) : string := "$2" +:+ password.

Definition toy_compare (password hash : string) : bool :=
  bool_decide (hash = "$2" +:+ password).

Definition toy_digest (password : string) : string := password.

Definition toy_sign (name : string) : string := "jwt." +:+ name.

Definition toy_verify (tok : string) : option string :=
  if String.prefix "jwt." tok then Some (String.substring 4 (String.length tok - 4) tok)
  else None.

(** Stand-ins for [JSON.stringify] and [JSON.parse] in examples that
    tell two values apart: the array of the number 1 and every other
    value, printed as the empty array. *)
Definition stringify_one (v : Json) : string :=
  match v with
  | JArr [JNum 1] => "[1]"
  | _ => "[]"
  end.

Definition parse_one (raw : string) : option Json :=
  if bool_decide (raw = "[1]") then Some (JArr [JNum 1])
  else if bool_decide (raw = "[]") then Some (JArr [])
  else None.

(** Accounts: one with a bcrypt hash, one with a legacy digest. *)
Definition sample_users : list Server.User :=
  [ {| Server.username := "ann"; Server.passwordHash := "$2secret" |};
    {| Server.username := "bob"; Server.passwordHash := "hunter22" |} ].

(** * Properties *)

(** ** Store reads *)

Section StoreReads.

Import Storage.

Variable JSON_parse : string → option Json.

Lemma readLocal_total f : ∃ v, readLocal JSON_parse f = Returns v.
Proof.
  destruct f as [|raw|]; simpl; eauto.
  destruct (JSON_parse raw); eauto.
Qed.

Lemma readLocal_unusable f :
  file_unusable JSON_parse f → readLocal JSON_parse f = Returns (JArr []).
Proof.
  intros [->|(raw & -> & Hraw)]; simpl; [done|]. by rewrite Hraw.
Qed.

Lemma readBlob_answered b :
  b ≠ BlobFails → ∃ v, readBlob JSON_parse b = Returns v.
Proof.
  destruct b as [|raw|]; simpl; intros Hb; [eauto| |done].
  case_bool_decide; [eauto|]. destruct (JSON_parse raw); eauto.
Qed.

Lemma readBlob_unusable b :
  blob_unusable JSON_parse b → readBlob JSON_parse b = Returns (JArr []).
Proof.
  intros [->|(raw & -> & Hraw)]; simpl; [done|].
  case_bool_decide; [done|]. by rewrite Hraw.
Qed.

Lemma readBlob_fails b : b = BlobFails → readBlob JSON_parse b = Throws.
Proof. by intros ->. Qed.

End StoreReads.

(** C10, as the code has it.  In the local backend every read returns,
    whatever the state of the file, and returns the empty list when the
    file is missing or its text is not JSON.  In the blob backend a read
    returns the empty list when the blob is missing or its text is not
    JSON, and returns whenever the lookup of the blob is answered; when
    the lookup itself rejects, so does the read. *)
Theorem store_reads_return
    (JSON_parse : string → option Json)
    (fs : Storage.LocalFs) (st : Storage.BlobStores) (username : string) :
  let users := Storage.users_file fs in
  let todos := Storage.todos_dir fs (Storage.safeName username +:+ ".json") in
  let ublob := Storage.app_data st "users" in
  let tblob := Storage.todos_store st username in
  (∃ v, Storage.readUsersLocal JSON_parse fs = Returns v)
  ∧ (∃ v, Storage.readTodosLocal JSON_parse fs username = Returns v)
  ∧ (Storage.file_unusable JSON_parse users →
       Storage.readUsersLocal JSON_parse fs = Returns (JArr []))
  ∧ (Storage.file_unusable JSON_parse todos →
       Storage.readTodosLocal JSON_parse fs username = Returns (JArr []))
  ∧ (Storage.blob_unusable JSON_parse ublob →
       Storage.readUsersNetlify JSON_parse st = Returns (JArr []))
  ∧ (Storage.blob_unusable JSON_parse tblob →
       Storage.readTodosNetlify JSON_parse st username = Returns (JArr []))
  ∧ (ublob ≠ Storage.BlobFails →
       ∃ v, Storage.readUsersNetlify JSON_parse st = Returns v)
  ∧ (tblob ≠ Storage.BlobFails →
       ∃ v, Storage.readTodosNetlify JSON_parse st username = Returns v)
  ∧ (ublob = Storage.BlobFails →
       Storage.readUsersNetlify JSON_parse st = Throws)
  ∧ (tblob = Storage.BlobFails →
       Storage.readTodosNetlify JSON_parse st username = Throws).
Proof.
  cbv zeta.
  unfold Storage.readUsersLocal, Storage.readTodosLocal,
    Storage.readUsersNetlify, Storage.readTodosNetlify.
  repeat split;
    eauto using readLocal_total, readLocal_unusable, readBlob_answered,
      readBlob_unusable, readBlob_fails.
Qed.

Lemma store_reads_return_witness :
  Storage.readUsersLocal parse_empty_array sample_fs = Returns (JArr [])
  ∧ Storage.readTodosLocal parse_empty_array sample_fs "ann" = Returns (JArr [])
  ∧ Storage.readUsersNetlify parse_empty_array sample_blobs = Returns (JArr [])
  ∧ Storage.readTodosNetlify parse_empty_array sample_blobs "ann" = Returns (JArr []).
Proof.
  pose proof (store_reads_return parse_empty_array sample_fs sample_blobs "ann")
    as (_ & _ & Hu & Ht & Hub & Htb & _).
  split; [|split; [|split]].
  - apply Hu. by left.
  - apply Ht. right. exists "[{". split; reflexivity.
  - apply Hub. by left.
  - apply Htb. right. exists "[{". split; reflexivity.
Defined.

(** C10, as stated, fails in the blob backend: the lookup of the blob is
    awaited outside the [try], so a blob service that rejects makes
    [readTodos] (and [readUsers]) reject to the caller. *)
Lemma store_read_raises :
  Storage.readTodosNetlify parse_empty_array unreachable_blobs "ann" = Throws
  ∧ Storage.readUsersNetlify parse_empty_array unreachable_blobs = Throws.
Proof. split; reflexivity. Qed.

(** ** The reorder handler *)

Section Reorder.

Import Server.

Lemma todoMap_snoc (l : list JsObject) (t : JsObject) :
  todoMap (l ++ [t]) =
    match id_of t with
    | Some n => <[n := t]> (todoMap l)
    | None => todoMap l
    end.
Proof.
  unfold todoMap, id_of. rewrite foldl_app. simpl.
  destruct (t !! "id") as [[]|]; reflexivity.
Qed.

(** Whatever the map holds under a number is a stored record of that id. *)
Lemma todoMap_lookup_Some (l : list JsObject) (n : Z) (t : JsObject) :
  todoMap l !! n = Some t → t ∈ l ∧ id_of t = Some n.
Proof.
  induction l as [|x l IH] using rev_ind; [done|].
  rewrite todoMap_snoc. destruct (id_of x) as [m|] eqn:Hx.
  - destruct (decide (m = n)) as [->|Hne].
    + rewrite lookup_insert_eq. intros [= ->]. split; [|done].
      apply elem_of_app. right. by apply list_elem_of_singleton.
    + rewrite lookup_insert_ne by done. intros H%IH.
      split; [|tauto]. apply elem_of_app. tauto.
  - intros H%IH. split; [|tauto]. apply elem_of_app. tauto.
Qed.

(** With distinct ids, the map finds every stored record under its id. *)
Lemma todoMap_lookup_elem (l : list JsObject) (n : Z) (t : JsObject) :
  NoDup (omap id_of l) → t ∈ l → id_of t = Some n → todoMap l !! n = Some t.
Proof.
  induction l as [|x l IH] using rev_ind; [by intros _ ?%elem_of_nil|].
  rewrite omap_app, todoMap_snoc. simpl.
  intros Hnd [Hin|Hin%list_elem_of_singleton]%elem_of_app Ht; [|subst x].
  - apply NoDup_app in Hnd as (Hl & Hdis & _).
    destruct (id_of x) as [m|] eqn:Hx; [|by apply IH].
    rewrite lookup_insert_ne; [by apply IH|].
    intros ->. apply (Hdis n); [|by apply list_elem_of_singleton].
    apply list_elem_of_omap. eauto.
  - rewrite Ht. apply lookup_insert_eq.
Qed.

Lemma reordered_stored_ids (l sub : list JsObject) :
  NoDup (omap id_of l) → Forall (λ t, is_Some (id_of t)) sub → sub ⊆ l →
  reordered l (omap id_of sub) = sub.
Proof.
  intros Hnd. unfold reordered.
  induction sub as [|t sub IH]; intros Hids Hsub; [done|].
  apply Forall_cons in Hids as [[n Hn] Hids]. simpl. rewrite Hn. simpl.
  rewrite (todoMap_lookup_elem l n t Hnd); [|set_solver|done].
  f_equal. apply IH; [done|set_solver].
Qed.

(** The part of the reorder contract the handler keeps: when the stored
    ids are numbers without repetition, a permutation of them is accepted
    and the stored records are written in the order of the ids. *)
Lemma reorder_permutation (todos : list JsObject) (ids : list Z) :
  Forall (λ t, is_Some (id_of t)) todos →
  NoDup (omap id_of todos) →
  ids ≡ₚ omap id_of todos →
  let r := reordered todos ids in
  patch_reorder (Returns todos) true (ids_body ids)
    = {| reply := SendJson 200 (JArr (JObj <$> r)); written := Some r |}
  ∧ r ≡ₚ todos
  ∧ id_of <$> r = Some <$> ids.
Proof.
  intros Hids Hnd Hperm r.
  assert (Hr : r ≡ₚ todos).
  { unfold r. rewrite <- (reordered_stored_ids todos todos Hnd Hids) at 2 by done.
    unfold reordered. by rewrite Hperm. }
  split; [|split; [done|]].
  - unfold patch_reorder, ids_body. rewrite lookup_singleton_eq. simpl.
    assert (Hnum : mapM (λ x, match x with JNum n => Some n | _ => None end)
                     (JNum <$> ids) = Some ids).
    { apply mapM_Some. apply Forall2_fmap_l. by apply Forall_Forall2_diag, Forall_true. }
    rewrite Hnum. fold r.
    rewrite bool_decide_eq_false_2; [done|].
    intros Hlen. apply Hlen. by rewrite Hr.
  - unfold r, reordered. clear r Hr.
    assert (Hsub : ∀ n, n ∈ ids → ∃ t, todoMap todos !! n = Some t ∧ id_of t = Some n).
    { intros n Hn. rewrite Hperm in Hn.
      apply list_elem_of_omap in Hn as (t & Ht & Hidt).
      exists t. split; [by apply todoMap_lookup_elem|done]. }
    clear Hperm. induction ids as [|n ids IH]; [done|].
    simpl. destruct (Hsub n) as (t & Hlook & Hidt); [set_solver|].
    rewrite Hlook. simpl. rewrite Hidt. f_equal. apply IH.
    intros m Hm. apply Hsub. set_solver.
Qed.

(** A rejected reorder writes nothing. *)
Lemma reorder_rejected_untouched rd wr body :
  status_of (reply (patch_reorder rd wr body)) = 400 →
  written (patch_reorder rd wr body) = None.
Proof.
  unfold patch_reorder.
  destruct (number_array _); [|done].
  destruct rd as [todos|]; [|done].
  case_bool_decide; [done|]. destruct wr; simpl; [lia|done].
Qed.

End Reorder.

(** C1 at a failing input.  The stored list holds the records 1 and 2 and
    the request names the id 1 twice: the handler counts two hits for two
    stored records, answers 200 and writes record 1 twice, so record 2 is
    gone.  A request that names 1, 2 and an id that is not stored is
    accepted as well, the unknown id being dropped. *)
Theorem reorder_accepts_repeated_id :
  let t1 := sample_todo 1 "a" in
  let t2 := sample_todo 2 "b" in
  Server.patch_reorder (Returns [t1; t2]) true (ids_body [1; 1])
    = {| Server.reply := Server.SendJson 200 (JArr [JObj t1; JObj t1]);
         Server.written := Some [t1; t1] |}
  ∧ Server.patch_reorder (Returns [t1; t2]) true (ids_body [1; 2; 99])
    = {| Server.reply := Server.SendJson 200 (JArr [JObj t1; JObj t2]);
         Server.written := Some [t1; t2] |}
  ∧ ¬ [1; 1] ≡ₚ [1; 2]
  ∧ ¬ [1; 2; 99] ≡ₚ [1; 2].
Proof.
  cbv zeta. split; [|split; [|split]].
  - vm_compute; reflexivity.
  - vm_compute; reflexivity.
  - intros H. assert (Hin : (2:Z) ∈ [1; 1]).
    { rewrite H. right. left. }
    rewrite !elem_of_cons, elem_of_nil in Hin. lia.
  - intros H%Permutation_length. done.
Qed.

(** ** The create handler *)

Section Create.

Import Server.

Lemma id_of_new_todo now text priority dueDate :
  id_of (new_todo now text priority dueDate) = Some now.
Proof. unfold id_of, new_todo. by rewrite lookup_insert_eq. Qed.

(** A create that answers 201 has read the list, appended one record
    whose id is the clock reading, written the result and sent the record. *)
Lemma post_todos_created rd wr now body :
  status_of (reply (post_todos rd wr now body)) = 201 →
  ∃ todos todo,
    rd = Returns todos
    ∧ id_of todo = Some now
    ∧ post_todos rd wr now body
      = {| reply := SendJson 201 (JObj todo); written := Some (todos ++ [todo]) |}.
Proof.
  unfold post_todos.
  destruct (body !! "text") as [[| | |text| |]|]; try (simpl; lia).
  repeat (case_match; try (simpl; lia)).
  destruct wr; [|simpl; lia]. intros _.
  eexists _, _. split; [done|]. split; [|done]. apply id_of_new_todo.
Qed.

Lemma clock_ahead_cons store c clocks todo :
  id_of todo = Some c →
  clock_ahead store (c :: clocks) → clock_ahead (store ++ [todo]) clocks.
Proof.
  intros Hid [Hstore Hsorted].
  apply Forall_cons in Hstore as [Hc Hstore].
  apply StronglySorted_inv in Hsorted as [Hsorted Hlt].
  split; [|done].
  apply Forall_forall. intros c' Hc'.
  rewrite omap_app. apply Forall_app. split.
  - by eapply Forall_forall in Hstore.
  - simpl. rewrite Hid. simpl. apply Forall_singleton.
    by eapply Forall_forall in Hlt.
Qed.

Lemma creates_cons now body reqs store :
  creates ((now, body) :: reqs) store =
    let o := post_todos (Returns store) true now body in
    (reply o :: (creates reqs (store_after store o)).1,
     (creates reqs (store_after store o)).2).
Proof. simpl. by destruct (creates reqs _). Qed.

End Create.

(** C2, as the code has it.  The id of a created record is the clock
    reading of its request.  In a run of accepted create requests whose
    clock readings are later than every stored id and strictly increase,
    each new id is absent from the ids stored before it, the new ids
    strictly increase in creation order, and the records are appended to
    the stored list in creation order. *)
Theorem creates_fresh_increasing
    (reqs : list (Z * JsObject)) (store : list JsObject) :
  Server.clock_ahead store reqs.*1 →
  Forall (λ r, Server.status_of r = 201) (Server.creates reqs store).1 →
  ∃ created : list JsObject,
    (Server.creates reqs store).1 = (λ t, Server.SendJson 201 (JObj t)) <$> created
    ∧ (Server.creates reqs store).2 = store ++ created
    ∧ Server.id_of <$> created = Some <$> reqs.*1
    ∧ StronglySorted Z.lt (omap Server.id_of created)
    ∧ ∀ k todo i, created !! k = Some todo → Server.id_of todo = Some i →
        i ∉ omap Server.id_of (store ++ take k created).
Proof.
  revert store. induction reqs as [|[now body] reqs IH]; intros store Hclock Hok.
  { exists []. simpl. rewrite app_nil_r.
    split; [done|]. split; [done|]. split; [done|]. split; [constructor|].
    intros k todo i Hk. by rewrite lookup_nil in Hk. }
  rewrite creates_cons in *. cbv zeta in *. csimpl in *.
  apply Forall_cons in Hok as [Hfirst Hrest].
  destruct (post_todos_created _ _ _ _ Hfirst) as (todos & todo & [= <-] & Hid & Hpost).
  rewrite Hpost in *. unfold Server.store_after in *. csimpl in *.
  pose proof (clock_ahead_cons _ _ _ _ Hid Hclock) as Hclock'.
  destruct (IH _ Hclock' Hrest) as (created & Hrs & Hfinal & Hids & Hsorted & Hfresh).
  assert (Homap : omap Server.id_of created = reqs.*1).
  { clear -Hids. revert Hids. generalize (reqs.*1).
    induction created as [|t created IHc]; intros [|c cs]; csimpl; try done.
    intros [= Ht Hcs]. rewrite Ht. csimpl. f_equal. by apply IHc. }
  exists (todo :: created). csimpl.
  rewrite Hrs, Hfinal, Hid, Hids, <- app_assoc. csimpl.
  split; [done|]. split; [done|]. split; [done|]. split.
  - rewrite Homap. by destruct Hclock as [_ Hs].
  - intros [|k] t i Hk Hi; csimpl in *.
    + injection Hk as <-. rewrite Hid in Hi. injection Hi as <-.
      rewrite app_nil_r. destruct Hclock as [Hc _].
      apply Forall_cons in Hc as [Hc _]. intros Hin.
      eapply Forall_forall in Hc; [|done]. lia.
    + specialize (Hfresh k t i Hk Hi).
      by rewrite <- app_assoc in Hfresh.
Qed.

Lemma creates_fresh_increasing_witness :
  ∃ created : list JsObject,
    (Server.creates [(5, text_body "a"); (7, text_body "b")] [sample_todo 1 "z"]).2
      = [sample_todo 1 "z"] ++ created
    ∧ Server.id_of <$> created = [Some 5; Some 7].
Proof.
  destruct (creates_fresh_increasing
              [(5, text_body "a"); (7, text_body "b")] [sample_todo 1 "z"])
    as (created & _ & Hfinal & Hids & _).
  - split.
    + repeat constructor.
    + repeat constructor.
  - vm_compute. repeat constructor.
  - by exists created.
Defined.

(** C2, as stated, fails: two accepted create requests served at the same
    clock reading get the same id, so the second id is neither new among
    the stored ids nor greater than the first. *)
Lemma creates_same_clock_same_id :
  Server.creates [(5, text_body "a"); (5, text_body "b")] []
    = ([Server.SendJson 201 (JObj (sample_todo 5 "a"));
        Server.SendJson 201 (JObj (sample_todo 5 "b"))],
       [sample_todo 5 "a"; sample_todo 5 "b"])
  ∧ Server.id_of (sample_todo 5 "a") = Some 5
  ∧ Server.id_of (sample_todo 5 "b") = Some 5.
Proof. split; [|split]; vm_compute; reflexivity. Qed.

(** ** The update handler *)

Section Update.

Import Server.

Lemma findIndex_Some {A} (p : A → bool) (l : list A) (i : nat) :
  findIndex p l = Some i →
  ∃ x, l !! i = Some x ∧ p x = true ∧ ∀ j y, l !! j = Some y → (j < i)%nat → p y = false.
Proof.
  revert i. induction l as [|x l IH]; intros i; simpl; [done|].
  destruct (p x) eqn:Hpx.
  - intros [= <-]. exists x. repeat split; [done|]. intros j y _ Hj. lia.
  - destruct (findIndex p l) as [k|]; [|done]. simpl. intros [= <-].
    destruct (IH k eq_refl) as (y & Hy & Hpy & Hbefore).
    exists y. repeat split; [done..|].
    intros [|j] z Hz Hj; simpl in Hz.
    + by injection Hz as <-.
    + apply (Hbefore j); [done|lia].
Qed.

Lemma has_id_lookup id t : has_id id t = true → t !! "id" = Some (JNum id).
Proof.
  unfold has_id. destruct (t !! "id") as [[]|]; try done.
  by intros ->%bool_decide_eq_true.
Qed.

(** The loop over the allow-list copies exactly the allow-listed
    properties the body has. *)
Lemma collect_lookup (body : JsObject) (fields : list string) (acc : JsObject) f :
  foldl (λ update field,
           match body !! field with
           | Some v => <[field := v]> update
           | None => update
           end) acc fields !! f
  = if decide (f ∈ fields) then from_option Some (acc !! f) (body !! f) else acc !! f.
Proof.
  revert acc. induction fields as [|g fields IH]; intros acc.
  { case_decide as Hf; [by apply elem_of_nil in Hf|done]. }
  cbn [foldl]. rewrite IH. destruct (decide (f ∈ fields)) as [Hin|Hnin].
  - rewrite (decide_True (P := f ∈ g :: fields)) by by right.
    destruct (body !! f) eqn:Hf; [done|]. cbn.
    destruct (body !! g) eqn:Hg; [|done].
    rewrite lookup_insert_ne; [done|]. intros ->. by rewrite Hg in Hf.
  - destruct (decide (f = g)) as [->|Hne].
    + rewrite (decide_True (P := g ∈ g :: fields)) by by left.
      destruct (body !! g); cbn; [by rewrite lookup_insert_eq|done].
    + rewrite (decide_False (P := f ∈ g :: fields)) by (rewrite elem_of_cons; tauto).
      destruct (body !! g); [by rewrite lookup_insert_ne|done].
Qed.

Lemma build_update_lookup body f :
  build_update body !! f
  = if decide (f ∈ ALLOWED_UPDATE_FIELDS) then body !! f else None.
Proof.
  unfold build_update. rewrite collect_lookup, lookup_empty.
  case_decide; [|done]. by destruct (body !! f).
Qed.

Lemma merge_update_lookup old update id f :
  merge_update old update id !! f
  = if decide (f = "id") then Some (JNum id)
    else from_option Some (old !! f) (update !! f).
Proof.
  unfold merge_update. case_decide as Hf.
  - subst f. by rewrite lookup_insert_eq.
  - rewrite lookup_insert_ne by done. rewrite lookup_union.
    by destruct (update !! f), (old !! f).
Qed.

Lemma id_not_allowed : "id" ∉ ALLOWED_UPDATE_FIELDS.
Proof.
  unfold ALLOWED_UPDATE_FIELDS. rewrite !elem_of_cons, elem_of_nil.
  by intros [|[|[|[|[|]]]]].
Qed.

(** A property of the updated record is the body's when the body has it
    and it is allow-listed, and the old record's otherwise. *)
Lemma updated_lookup old body id f :
  old !! "id" = Some (JNum id) →
  merge_update old (build_update body) id !! f
  = if decide (f ∈ ALLOWED_UPDATE_FIELDS) then from_option Some (old !! f) (body !! f)
    else old !! f.
Proof.
  intros Hid. rewrite merge_update_lookup, build_update_lookup.
  destruct (decide (f = "id")) as [->|Hne].
  - by rewrite decide_False by apply id_not_allowed.
  - by case_decide.
Qed.

Lemma check_update_no_allowed_field body :
  (∀ f, f ∈ ALLOWED_UPDATE_FIELDS → body !! f = None) → check_update body = None.
Proof.
  intros Hnone. unfold check_update, check_text, check_priority, check_dueDate.
  rewrite !Hnone; [done|unfold ALLOWED_UPDATE_FIELDS; rewrite !elem_of_cons; tauto..].
Qed.

Lemma check_update_completion body v w :
  check_update (<["completed" := v]> (<["completedAt" := w]> body)) = check_update body.
Proof.
  unfold check_update, check_text, check_priority, check_dueDate.
  by rewrite !lookup_insert_ne by done.
Qed.

(** The handler on an existing record, once the field checks pass. *)
Lemma put_todo_found todos id body idx old :
  findIndex (has_id id) todos = Some idx →
  todos !! idx = Some old →
  put_todo (Returns todos) true (Some id) body
  = match check_update body with
    | Some r => respond r
    | None =>
        let new := merge_update old (build_update body) id in
        {| reply := SendJson 200 (JObj new); written := Some (<[idx := new]> todos) |}
    end.
Proof.
  intros Hidx Hold. unfold put_todo.
  destruct (check_update body); [done|]. by rewrite Hidx, Hold.
Qed.

End Update.

(** C3.  On an existing record the update handler either rejects the body
    at a field check and writes nothing, or answers 200 with a record
    that differs from the stored one at most at the allow-listed
    properties the body has: [id] keeps its value, every property outside
    the allow-list keeps its value whether or not the body names it, and
    an allow-listed property the body lacks keeps its value.  A body
    without any allow-listed property passes the checks and leaves the
    record, and the whole stored list, as it was. *)
Theorem put_changes_allowed_fields_only
    (todos : list JsObject) (id : Z) (body : JsObject) (idx : nat) (old : JsObject) :
  findIndex (Server.has_id id) todos = Some idx →
  todos !! idx = Some old →
  let new := Server.merge_update old (Server.build_update body) id in
  Server.put_todo (Returns todos) true (Some id) body
    = match Server.check_update body with
      | Some r => Server.respond r
      | None => {| Server.reply := Server.SendJson 200 (JObj new);
                   Server.written := Some (<[idx := new]> todos) |}
      end
  ∧ new !! "id" = old !! "id"
  ∧ (∀ f, f ∉ Server.ALLOWED_UPDATE_FIELDS → new !! f = old !! f)
  ∧ (∀ f, body !! f = None → new !! f = old !! f)
  ∧ (∀ f v, f ∈ Server.ALLOWED_UPDATE_FIELDS → body !! f = Some v → new !! f = Some v)
  ∧ ((∀ f, f ∈ Server.ALLOWED_UPDATE_FIELDS → body !! f = None) →
       Server.check_update body = None ∧ new = old ∧ <[idx := new]> todos = todos).
Proof.
  intros Hidx Hold new.
  assert (Hid : old !! "id" = Some (JNum id)).
  { destruct (findIndex_Some _ _ _ Hidx) as (x & Hx & Hpx & _).
    rewrite Hold in Hx. injection Hx as <-. by apply has_id_lookup. }
  assert (Hframe : ∀ f, f ∉ Server.ALLOWED_UPDATE_FIELDS → new !! f = old !! f).
  { intros f Hf. unfold new. rewrite updated_lookup by done. by rewrite decide_False. }
  assert (Hkeep : ∀ f, body !! f = None → new !! f = old !! f).
  { intros f Hf. unfold new. rewrite updated_lookup by done.
    rewrite Hf. by case_decide. }
  split; [by apply put_todo_found|].
  split; [apply Hframe, id_not_allowed|].
  split; [done|]. split; [done|]. split.
  - intros f v Hf Hv. unfold new. rewrite updated_lookup by done.
    by rewrite decide_True, Hv.
  - intros Hnone. split; [by apply check_update_no_allowed_field|].
    assert (Hnew : new = old).
    { apply map_eq. intros f. destruct (decide (f ∈ Server.ALLOWED_UPDATE_FIELDS)).
      - by apply Hkeep, Hnone.
      - by apply Hframe. }
    split; [done|]. rewrite Hnew. by apply list_insert_id.
Qed.

Lemma put_changes_allowed_fields_only_witness :
  Server.put_todo (Returns sample_list) true (Some 2) unknown_body
    = {| Server.reply := Server.SendJson 200 (JObj (sample_todo 2 "b"));
         Server.written := Some sample_list |}
  ∧ Server.merge_update (sample_todo 2 "b") (Server.build_update unknown_body) 2 !! "id"
    = Some (JNum 2).
Proof.
  destruct (put_changes_allowed_fields_only sample_list 2 unknown_body 1
              (sample_todo 2 "b") eq_refl eq_refl)
    as (Hput & Hid & _ & _ & _ & Hnone).
  destruct Hnone as (Hcheck & Hnew & Hlist).
  { intros f. unfold Server.ALLOWED_UPDATE_FIELDS.
    rewrite !elem_of_cons, elem_of_nil.
    by intros [->|[->|[->|[->|[->|[]]]]]]. }
  split.
  - rewrite Hput, Hcheck, Hlist. by rewrite Hnew.
  - by rewrite Hid.
Defined.

(** C8.  The field checks of the update handler look at [text],
    [priority] and [dueDate] only.  Whatever JSON values [v] and [w] a
    body carries under [completed] and [completedAt], if the rest of the
    body passes the checks then the handler answers 200 on an existing
    record and the stored record holds [v] and [w] as they came. *)
Theorem put_stores_completion_verbatim
    (todos : list JsObject) (id : Z) (body : JsObject) (idx : nat)
    (old : JsObject) (v w : Json) :
  findIndex (Server.has_id id) todos = Some idx →
  todos !! idx = Some old →
  Server.check_update body = None →
  let body' := <["completed" := v]> (<["completedAt" := w]> body) in
  let new := Server.merge_update old (Server.build_update body') id in
  Server.put_todo (Returns todos) true (Some id) body'
    = {| Server.reply := Server.SendJson 200 (JObj new);
         Server.written := Some (<[idx := new]> todos) |}
  ∧ new !! "completed" = Some v
  ∧ new !! "completedAt" = Some w
  ∧ <[idx := new]> todos !! idx = Some new.
Proof.
  intros Hidx Hold Hcheck body' new.
  assert (Hid : old !! "id" = Some (JNum id)).
  { destruct (findIndex_Some _ _ _ Hidx) as (x & Hx & Hpx & _).
    rewrite Hold in Hx. injection Hx as <-. by apply has_id_lookup. }
  split; [|split; [|split]].
  - rewrite (put_todo_found todos id body' idx old Hidx Hold).
    unfold body'. by rewrite check_update_completion, Hcheck.
  - unfold new. rewrite updated_lookup by done.
    rewrite decide_True.
    + unfold body'. by rewrite lookup_insert_eq.
    + unfold Server.ALLOWED_UPDATE_FIELDS. rewrite !elem_of_cons. tauto.
  - unfold new. rewrite updated_lookup by done.
    rewrite decide_True.
    + unfold body'. rewrite lookup_insert_ne by done. by rewrite lookup_insert_eq.
    + unfold Server.ALLOWED_UPDATE_FIELDS. rewrite !elem_of_cons. tauto.
  - apply list_lookup_insert_eq. by eapply lookup_lt_Some.
Qed.

Lemma put_stores_completion_verbatim_witness :
  let new := <["completed" := JStr "yes"]>
               (<["completedAt" := JBool true]> (sample_todo 2 "b")) in
  Server.put_todo (Returns sample_list) true (Some 2)
      {[ "completed" := JStr "yes"; "completedAt" := JBool true ]}
    = {| Server.reply := Server.SendJson 200 (JObj new);
         Server.written := Some [sample_todo 1 "a"; new] |}.
Proof.
  destruct (put_stores_completion_verbatim sample_list 2 (∅ : JsObject) 1
              (sample_todo 2 "b") (JStr "yes") (JBool true))
    as (Hput & _); [reflexivity..|].
  cbv zeta. etrans; [exact Hput|]. vm_compute; reflexivity.
Defined.

(** ** The archived set *)

Section Archive.

Import Client.

Lemma ARCHIVE_THRESHOLD_MS_days : ARCHIVE_THRESHOLD_MS = 432000000.
Proof. reflexivity. Qed.

Lemma is_archived_spec now t :
  is_archived now t = true
  ↔ completed t = true
    ∧ ∃ c, completedAt t = Some c ∧ c ≠ 0 ∧ ARCHIVE_THRESHOLD_MS < now - c.
Proof.
  unfold is_archived, truthy_number.
  destruct (completed t), (completedAt t) as [c|]; simpl;
    try (split; [done|by intros (? & ? & ? & ?)]).
  rewrite andb_true_iff, negb_true_iff, bool_decide_eq_false, bool_decide_eq_true.
  split.
  - intros [Hc Hlt]. split; [done|]. by exists c.
  - intros (_ & c' & [= <-] & Hc & Hlt). done.
Qed.

Lemma archivedIds_elem now todos i :
  i ∈ archivedIds now todos ↔ ∃ t, t ∈ todos ∧ id t = i ∧ is_archived now t = true.
Proof.
  unfold archivedIds. rewrite elem_of_list_to_set, list_elem_of_fmap.
  split.
  - intros (t & -> & Ht). apply list_elem_of_filter in Ht as [Ht Hin].
    exists t. split; [done|]. split; [done|]. by apply Is_true_true.
  - intros (t & Hin & <- & Ht). exists t. split; [done|].
    apply list_elem_of_filter. split; [|done]. by apply Is_true_true.
Qed.

End Archive.

(** The archived set as the code computes it: the ids of the completed
    todos whose [completedAt] passes the test [!!t.completedAt] and lies
    more than five days (432000000 ms) before [now]. *)
Lemma archived_exactly (now : Z) (todos : list Client.Todo) :
  (∀ i, i ∈ Client.archivedIds now todos
        ↔ ∃ t, t ∈ todos ∧ Client.id t = i ∧ Client.completed t = true
               ∧ ∃ c, Client.completedAt t = Some c ∧ c ≠ 0 ∧ 432000000 < now - c)
  ∧ (∀ t, Client.completed t = true →
          Client.completedAt t = Some (now - 432000000 - 1) →
          now - 432000000 - 1 ≠ 0 →
          Client.is_archived now t = true ∧ (t ∈ todos → Client.id t ∈ Client.archivedIds now todos))
  ∧ (∀ t, Client.completedAt t = Some (now - 432000000 + 1) →
          Client.is_archived now t = false).
Proof.
  split; [|split].
  - intros i. rewrite archivedIds_elem. split.
    + intros (t & Hin & Hid & Ht). apply is_archived_spec in Ht as [Hc Hat].
      exists t. by rewrite <- ARCHIVE_THRESHOLD_MS_days.
    + intros (t & Hin & Hid & Hc & Hat). exists t.
      split; [done|]. split; [done|]. apply is_archived_spec.
      by rewrite ARCHIVE_THRESHOLD_MS_days.
  - intros t Hc Hat Hnz.
    assert (Ht : Client.is_archived now t = true).
    { apply is_archived_spec. split; [done|]. eexists. split; [done|].
      rewrite ARCHIVE_THRESHOLD_MS_days. lia. }
    split; [done|]. intros Hin. apply archivedIds_elem. by exists t.
  - intros t Hat. apply not_true_is_false. intros Ht.
    apply is_archived_spec in Ht as (_ & c & Hc & _ & Hlt).
    rewrite Hat in Hc. injection Hc as <-.
    rewrite ARCHIVE_THRESHOLD_MS_days in Hlt. lia.
Qed.

(** C6 at a failing input.  A completed todo whose [completedAt] is 0
    (the server stores whatever [completedAt] a [PUT] carries) has a
    non-null [completedAt] that lies more than five days before [now],
    and the claim has it archived.  The guard [!!t.completedAt], written
    to set null aside, is false for 0 as well: the todo is not in the
    archived set, nor among the archived todos.  The same happens at the
    stated boundary when [now - 5 days - 1 ms] is 0.  One millisecond
    later the guard passes and the todo is archived. *)
Theorem archived_misses_epoch :
  let t := sample_done 7 (Some 0) in
  Client.completed t = true
  ∧ Client.completedAt t = Some 0
  ∧ Client.ARCHIVE_THRESHOLD_MS < 1700000000000 - 0
  ∧ (Client.id t ∉ Client.archivedIds 1700000000000 [t])
  ∧ Client.archivedTodos 1700000000000 [t] = []
  ∧ Client.completedAt t = Some (432000001 - Client.ARCHIVE_THRESHOLD_MS - 1)
  ∧ (Client.id t ∉ Client.archivedIds 432000001 [t])
  ∧ Client.archivedTodos 1700000000000 [sample_done 7 (Some 1)]
    = [sample_done 7 (Some 1)].
Proof.
  cbv zeta. split; [done|]. split; [done|]. split; [done|].
  split; [|split; [reflexivity|split; [done|split; [|reflexivity]]]].
  - intros H. apply archivedIds_elem in H as (t & Hin & _ & Ht).
    apply list_elem_of_singleton in Hin as ->. done.
  - intros H. apply archivedIds_elem in H as (t & Hin & _ & Ht).
    apply list_elem_of_singleton in Hin as ->. done.
Qed.

(** ** The filtered view *)

Section Filtered.

Import Client.

(** Whatever the comparator, the sort rearranges the list. *)
Lemma sort_insert_perm {A} (cmp : A → A → Z) x l : sort_insert cmp x l ≡ₚ x :: l.
Proof.
  induction l as [|y l IH]; [done|]. cbn. case_bool_decide; [|done].
  rewrite IH. apply Permutation_swap.
Qed.

Lemma sort_by_perm {A} (cmp : A → A → Z) l : sort_by cmp l ≡ₚ l.
Proof.
  induction l as [|x l IH]; [done|].
  unfold sort_by in *. cbn [foldr]. by rewrite sort_insert_perm, IH.
Qed.

(** An incomplete todo goes in front of whatever is already sorted. *)
Lemma sort_insert_incomplete x l :
  completed x = false → sort_insert by_completion x l = x :: l.
Proof.
  intros Hx. destruct l as [|y l]; [done|]. cbn.
  rewrite bool_decide_eq_false_2; [done|].
  unfold by_completion. rewrite Hx. case_bool_decide; lia.
Qed.

(** A completed todo passes the incomplete ones and stops in front of
    the first completed one. *)
Lemma sort_insert_completed x front back :
  completed x = true →
  Forall (λ t, completed t = false) front →
  Forall (λ t, completed t = true) back →
  sort_insert by_completion x (front ++ back) = front ++ x :: back.
Proof.
  intros Hx Hfront Hback. induction Hfront as [|y front Hy _ IH]; cbn.
  - destruct Hback as [|z back Hz _]; [done|]. cbn.
    rewrite bool_decide_eq_false_2; [done|].
    unfold by_completion. rewrite Hx, Hz. case_bool_decide; [done|lia].
  - rewrite bool_decide_eq_true_2; [by rewrite IH|].
    unfold by_completion. rewrite Hx, Hy. case_bool_decide; [lia|done].
Qed.

(** Sorting by completion is the stable partition: the incomplete todos
    in their order, then the completed ones in theirs. *)
Lemma sort_by_completion l :
  sort_by by_completion l
  = filter (λ t, completed t = false) l ++ filter (λ t, completed t = true) l.
Proof.
  induction l as [|x l IH]; [done|].
  unfold sort_by in *. cbn [foldr]. rewrite IH.
  rewrite !filter_cons. destruct (completed x) eqn:Hx.
  - rewrite decide_False by done. rewrite decide_True by done.
    apply sort_insert_completed; [done| |].
    + apply Forall_forall. by intros t [Ht _]%list_elem_of_filter.
    + apply Forall_forall. by intros t [Ht _]%list_elem_of_filter.
  - rewrite decide_True by done. rewrite decide_False by done.
    by apply sort_insert_incomplete.
Qed.

Lemma visible_spec archived st t :
  visible archived st t = true
  ↔ (id t ∉ archived)
    ∧ (completed t = true → showCompleted st = true)
    ∧ statusOk (filter_ st) t = true
    ∧ priorityOk (priorityFilter st) t = true.
Proof.
  unfold visible. case_bool_decide as Harch.
  { split; [done|]. by intros [? _]. }
  destruct (showCompleted st), (completed t); simpl;
    rewrite ?andb_true_iff; intuition congruence.
Qed.

End Filtered.

(** The visible list as the code computes it: it holds exactly the
    stored todos whose id is not in the archived set, that are incomplete
    unless "show completed" is on, and that pass the status filter and
    the priority filter; it lists the incomplete ones first and the
    completed ones after them, each group in stored order. *)
Lemma filteredTodos_view
    (now : Z) (st : Client.Settings) (todos : list Client.Todo) :
  let shown := filter (λ t, Client.visible (Client.archivedIds now todos) st t) todos in
  (∀ t, t ∈ Client.filteredTodos now st todos
        ↔ t ∈ todos
          ∧ (Client.id t ∉ Client.archivedIds now todos)
          ∧ (Client.completed t = true → Client.showCompleted st = true)
          ∧ match Client.filter_ st with
            | Client.all => True
            | Client.active => Client.completed t = false
            | Client.completed_only => Client.completed t = true
            end
          ∧ match Client.priorityFilter st with
            | Client.any_priority => True
            | Client.only p => Client.priority t = p
            end)
  ∧ Client.filteredTodos now st todos
    = filter (λ t, Client.completed t = false) shown
      ++ filter (λ t, Client.completed t = true) shown
  ∧ shown `sublist_of` todos.
Proof.
  intros shown. unfold Client.filteredTodos. fold shown.
  rewrite sort_by_completion.
  split; [|split; [done|apply sublist_filter]].
  intros t. rewrite elem_of_app, !list_elem_of_filter.
  assert (Hshown : t ∈ shown ↔
            t ∈ todos ∧ Client.visible (Client.archivedIds now todos) st t = true).
  { unfold shown. rewrite list_elem_of_filter, Is_true_true. tauto. }
  rewrite Hshown, visible_spec.
  assert (Hstatus : Client.statusOk (Client.filter_ st) t = true ↔
            match Client.filter_ st with
            | Client.all => True
            | Client.active => Client.completed t = false
            | Client.completed_only => Client.completed t = true
            end).
  { unfold Client.statusOk. destruct (Client.filter_ st); [done| |done].
    by rewrite negb_true_iff. }
  assert (Hprio : Client.priorityOk (Client.priorityFilter st) t = true ↔
            match Client.priorityFilter st with
            | Client.any_priority => True
            | Client.only p => Client.priority t = p
            end).
  { unfold Client.priorityOk. destruct (Client.priorityFilter st); [done|].
    by rewrite bool_decide_eq_true. }
  rewrite Hstatus, Hprio. destruct (Client.completed t); tauto.
Qed.

(** C7 at a failing input.  A todo completed at instant 0 is completed,
    has a non-null [completedAt] and was completed more than five days
    before [now], so it is archived in the sense of the specification
    and the visible list should leave it out.  The guard
    [!!t.completedAt] of [archivedIds] keeps its id out of the archived
    set, and with "show completed" on the visible list shows it.  A todo
    completed one millisecond later is left out. *)
Theorem filteredTodos_shows_epoch_completed :
  let t := sample_done 7 (Some 0) in
  Client.completed t = true
  ∧ Client.completedAt t = Some 0
  ∧ Client.ARCHIVE_THRESHOLD_MS < 1700000000000 - 0
  ∧ Client.filteredTodos 1700000000000 show_everything [t] = [t]
  ∧ Client.filteredTodos 1700000000000 show_everything [sample_done 7 (Some 1)] = []
  ∧ Client.filteredTodos 1700000000000 show_everything
      [sample_open 1 None; t; sample_done 8 (Some 1); sample_open 2 None]
    = [sample_open 1 None; sample_open 2 None; t].
Proof. cbv zeta. repeat split. Qed.

(** ** Toggling *)

Section Toggle.

Import Client.

Lemma find_id_Some i todos todo :
  List.find (λ t, bool_decide (id t = i)) todos = Some todo →
  todo ∈ todos ∧ id todo = i.
Proof.
  intros H. apply List.find_some in H as [Hin Hid].
  split; [by apply list_elem_of_In|by apply bool_decide_eq_true in Hid].
Qed.

Lemma find_map_id i r todos :
  (∀ t, id (r t) = id t) →
  List.find (λ t, bool_decide (id t = i)) (map_id i r todos)
  = r <$> List.find (λ t, bool_decide (id t = i)) todos.
Proof.
  intros Hr. unfold map_id. induction todos as [|t todos IH]; [done|].
  rewrite fmap_cons. cbn [List.find]. destruct (decide (id t = i)) as [Ht|Ht].
  - rewrite !(bool_decide_eq_true_2 (id t = i)) by done.
    rewrite (bool_decide_eq_true_2 (id (r t) = i)); [done|]. by rewrite Hr.
  - rewrite !(bool_decide_eq_false_2 (id t = i)) by done. apply IH.
Qed.

Lemma map_id_elem i r todos t' :
  t' ∈ map_id i r todos →
  ∃ t, t ∈ todos ∧ t' = if bool_decide (id t = i) then r t else t.
Proof.
  unfold map_id. intros (t & -> & Hin)%list_elem_of_fmap. by exists t.
Qed.

Lemma toggled_eq now i todos todo :
  List.find (λ t, bool_decide (id t = i)) todos = Some todo →
  toggled now i todos = map_id i (apply_payload (toggle_payload now todo)) todos.
Proof. intros H. unfold toggled, toggleTodo. by rewrite H. Qed.

Lemma toggle_body_lookup p f :
  Wire.toggle_body p !! f
  = if decide (f = "completed") then Some (JBool (p_completed p))
    else if decide (f = "completedAt") then Some (from_option JNum JNull (p_completedAt p))
    else None.
Proof.
  unfold Wire.toggle_body. repeat case_decide; subst; by simplify_map_eq.
Qed.

Lemma allowed_fields f :
  f ∈ Server.ALLOWED_UPDATE_FIELDS
  ↔ f = "text" ∨ f = "completed" ∨ f = "completedAt" ∨ f = "priority" ∨ f = "dueDate".
Proof.
  unfold Server.ALLOWED_UPDATE_FIELDS. rewrite !elem_of_cons, elem_of_nil. tauto.
Qed.

(** The properties of a record after the update a toggle asks for. *)
Lemma toggled_fields old i p :
  old !! "id" = Some (JNum i) →
  let new := Server.merge_update old (Server.build_update (Wire.toggle_body p)) i in
  new !! "id" = old !! "id"
  ∧ new !! "text" = old !! "text"
  ∧ new !! "completed" = Some (JBool (p_completed p))
  ∧ new !! "priority" = old !! "priority"
  ∧ new !! "dueDate" = old !! "dueDate"
  ∧ new !! "completedAt" = Some (from_option JNum JNull (p_completedAt p)).
Proof.
  intros Hid new. unfold new.
  rewrite !updated_lookup, !toggle_body_lookup by done.
  repeat split; repeat case_decide; try done;
    match goal with
    | H : _ ∈ Server.ALLOWED_UPDATE_FIELDS |- _ => apply allowed_fields in H; naive_solver
    | H : _ ∉ Server.ALLOWED_UPDATE_FIELDS |- _ => destruct H; apply allowed_fields; tauto
    end.
Qed.

(** Under the client's interface, the record the update handler answers a
    toggle with is the record of the optimistic update. *)
Lemma view_toggled old t i p :
  old !! "id" = Some (JNum i) →
  Wire.view old = Some t →
  Wire.view (Server.merge_update old (Server.build_update (Wire.toggle_body p)) i)
  = Some (apply_payload p t).
Proof.
  intros Hid.
  destruct (toggled_fields old i p Hid) as (H1 & H2 & H3 & H4 & H5 & H6).
  unfold Wire.view. rewrite H1, H2, H3, H4, H5, H6.
  destruct (old !! "id") as [[| |n| | |]|]; try done.
  destruct (old !! "text") as [[| | |s| |]|]; try done.
  destruct (old !! "completed") as [[|c| | | |]|]; try done.
  destruct (old !! "priority") as [[| | |q| |]|]; try done.
  destruct (Wire.priority_named q) as [pr|]; [|done]. cbn.
  destruct (Wire.opt_string (old !! "dueDate")) as [d|]; [|done]. cbn.
  destruct (Wire.opt_number (old !! "completedAt")) as [a|]; [|done]. cbn.
  intros [= <-]. unfold apply_payload. cbn.
  by destruct (p_completedAt p).
Qed.
(** The body of the toggle request passes the field checks of the
    update handler, which stores both of its properties. *)
Lemma put_toggle_body stored i idx old p :
  findIndex (Server.has_id i) stored = Some idx →
  stored !! idx = Some old →
  let new := Server.merge_update old (Server.build_update (Wire.toggle_body p)) i in
  Server.put_todo (Returns stored) true (Some i) (Wire.toggle_body p)
    = {| Server.reply := Server.SendJson 200 (JObj new);
         Server.written := Some (<[idx := new]> stored) |}
  ∧ new !! "completed" = Some (JBool (p_completed p))
  ∧ new !! "completedAt" = Some (from_option JNum JNull (p_completedAt p))
  ∧ ∀ t, Wire.view old = Some t → Wire.view new = Some (apply_payload p t).
Proof.
  intros Hidx Hold new.
  assert (Hid : old !! "id" = Some (JNum i)).
  { destruct (findIndex_Some _ _ _ Hidx) as (x & Hx & Hpx & _).
    rewrite Hold in Hx. injection Hx as <-. by apply has_id_lookup. }
  destruct (toggled_fields old i p Hid) as (_ & _ & Hdone & _ & _ & Hat).
  split; [|split; [done|split; [done|]]].
  - by rewrite (put_todo_found stored i _ idx old Hidx Hold).
  - intros t Hview. by apply view_toggled.
Qed.

End Toggle.

(** C4.  Toggling the todo [todo] found under an id sends, and applies to
    every todo of that id in the list, the pair [completed = true,
    completedAt = now] when [todo] is incomplete and the pair
    [completed = false, completedAt = null] when it is completed; no other
    property and no other todo changes.  The update handler stores both
    properties of the pair in one write, and the record it answers with
    is, under the client's interface, the record of the optimistic update.
    When [todo] starts incomplete
    with a null [completedAt], a second toggle brings it, and every todo of
    its id, back to incomplete with a null [completedAt]; when the id is
    its alone, the list is back to what it was. *)
Theorem toggle_pair_round_trip
    (now1 now2 i : Z) (todos : list Client.Todo) (todo : Client.Todo) :
  List.find (λ t, bool_decide (Client.id t = i)) todos = Some todo →
  let p := Client.toggle_payload now1 todo in
  let once := Client.toggled now1 i todos in
  let twice := Client.toggled now2 i once in
  Client.toggleTodo now1 i todos = Some (p, once)
  ∧ p = (if Client.completed todo
         then {| Client.p_completed := false; Client.p_completedAt := None |}
         else {| Client.p_completed := true; Client.p_completedAt := Some now1 |})
  ∧ length once = length todos
  ∧ (∀ k t, todos !! k = Some t →
       once !! k = Some (if bool_decide (Client.id t = i)
                         then {| Client.id := Client.id t; Client.text := Client.text t;
                                 Client.completed := Client.p_completed p;
                                 Client.priority := Client.priority t;
                                 Client.dueDate := Client.dueDate t;
                                 Client.completedAt := Client.p_completedAt p |}
                         else t))
  ∧ (∀ stored idx old,
       findIndex (Server.has_id i) stored = Some idx → stored !! idx = Some old →
       ∃ new,
         Server.put_todo (Returns stored) true (Some i) (Wire.toggle_body p)
           = {| Server.reply := Server.SendJson 200 (JObj new);
                Server.written := Some (<[idx := new]> stored) |}
         ∧ new !! "completed" = Some (JBool (Client.p_completed p))
         ∧ new !! "completedAt" = Some (from_option JNum JNull (Client.p_completedAt p))
         ∧ ∀ t, Wire.view old = Some t → Wire.view new = Some (Client.apply_payload p t))
  ∧ (Client.completed todo = false → Client.completedAt todo = None →
       List.find (λ t, bool_decide (Client.id t = i)) twice = Some todo
       ∧ (∀ t, t ∈ twice → Client.id t = i →
            Client.completed t = false ∧ Client.completedAt t = None)
       ∧ ((∀ t, t ∈ todos → Client.id t = i → t = todo) → twice = todos)).
Proof.
  intros Hfind p once twice.
  assert (Honce : once = Client.map_id i (Client.apply_payload p) todos).
  { by apply toggled_eq. }
  split; [|split; [|split; [|split; [|split]]]].
  - unfold Client.toggleTodo. rewrite Hfind. by rewrite Honce.
  - unfold p, Client.toggle_payload. by destruct (Client.completed todo).
  - rewrite Honce. unfold Client.map_id. apply length_fmap.
  - intros k t Hk. rewrite Honce. unfold Client.map_id.
    rewrite list_lookup_fmap, Hk. done.
  - intros stored idx old Hidx Hold. eexists. by apply put_toggle_body.
  - intros Hc Hat.
    assert (Hp : p = {| Client.p_completed := true; Client.p_completedAt := Some now1 |}).
    { unfold p, Client.toggle_payload. by rewrite Hc. }
    assert (Hfind1 : List.find (λ t, bool_decide (Client.id t = i)) once
                     = Some (Client.apply_payload p todo)).
    { rewrite Honce, find_map_id by done. by rewrite Hfind. }
    assert (Htwice : twice = Client.map_id i
              (Client.apply_payload
                 {| Client.p_completed := false; Client.p_completedAt := None |}) once).
    { unfold twice. rewrite (toggled_eq _ _ _ _ Hfind1).
      unfold Client.toggle_payload. by rewrite Hp. }
    assert (Hback : Client.apply_payload
              {| Client.p_completed := false; Client.p_completedAt := None |}
              (Client.apply_payload p todo) = todo).
    { destruct todo. simpl in *. by subst. }
    split; [|split].
    + rewrite Htwice, find_map_id by done. rewrite Hfind1.
      unfold fmap, option_fmap, option_map. by rewrite Hback.
    + intros t Ht Hid. rewrite Htwice in Ht.
      apply map_id_elem in Ht as (t0 & _ & ->).
      case_bool_decide as Hid0; [done|]. by rewrite Hid in Hid0.
    + intros Hunique. rewrite Htwice, Honce. unfold Client.map_id.
      rewrite <- list_fmap_compose. rewrite <- (list_fmap_id todos) at 2.
      apply list_fmap_ext. intros k t Hk. cbn [compose].
      destruct (decide (Client.id t = i)) as [Hid|Hid].
      * rewrite (bool_decide_eq_true_2 (Client.id t = i)) by done.
        rewrite bool_decide_eq_true_2 by done.
        assert (t = todo) as ->; [|done].
        apply Hunique; [|done]. by eapply list_elem_of_lookup_2.
      * rewrite (bool_decide_eq_false_2 (Client.id t = i)) by done.
        by rewrite (bool_decide_eq_false_2 (Client.id t = i)).
Qed.

Lemma toggle_pair_round_trip_witness :
  Client.toggled 1700000000000 2 [sample_open 1 None; sample_open 2 None]
    = [sample_open 1 None;
       {| Client.id := 2; Client.text := "open"; Client.completed := true;
          Client.priority := Client.medium; Client.dueDate := None;
          Client.completedAt := Some 1700000000000 |}]
  ∧ Client.toggled 1700000005000 2
      (Client.toggled 1700000000000 2 [sample_open 1 None; sample_open 2 None])
    = [sample_open 1 None; sample_open 2 None].
Proof.
  destruct (toggle_pair_round_trip 1700000000000 1700000005000 2
              [sample_open 1 None; sample_open 2 None] (sample_open 2 None) eq_refl)
    as (_ & _ & _ & _ & _ & Htwice).
  destruct Htwice as (_ & _ & Hsame); [done..|].
  split; [reflexivity|]. apply Hsame.
  intros t Ht Hid. rewrite !elem_of_cons, elem_of_nil in Ht.
  destruct Ht as [->|[->|[]]]; [done|done].
Defined.

(** ** Adding: the client's cache against the stored list *)

Section Adding.

Import Server Client.

Lemma valid_priority_named v :
  valid_priority v = true → ∃ s p, v = JStr s ∧ Wire.priority_named s = Some p.
Proof.
  destruct v as [| | |s| |]; try done. simpl.
  intros Hs%bool_decide_eq_true. exists s.
  unfold VALID_PRIORITIES in Hs. rewrite !elem_of_cons, elem_of_nil in Hs.
  destruct Hs as [->|[->|[->|[]]]]; by eexists.
Qed.

Lemma good_dueDate_opt_string v :
  bad_dueDate v = false → ∃ d, Wire.opt_string (Some v) = Some d.
Proof. destruct v; try done; by eexists. Qed.

(** The properties of a record the create handler builds. *)
Lemma new_todo_fields now text priority dueDate :
  let j := new_todo now text priority dueDate in
  j !! "id" = Some (JNum now)
  ∧ j !! "text" = Some (JStr (trim text))
  ∧ j !! "completed" = Some (JBool false)
  ∧ j !! "priority" = Some priority
  ∧ j !! "dueDate" = Some dueDate
  ∧ j !! "completedAt" = Some JNull.
Proof. unfold new_todo. repeat split; by simplify_map_eq. Qed.

(** A record the create handler builds has a view under the client's
    interface, with the clock reading as its id. *)
Lemma view_new_todo now text priority dueDate :
  valid_priority priority = true → bad_dueDate dueDate = false →
  ∃ t, Wire.view (new_todo now text priority dueDate) = Some t ∧ id t = now.
Proof.
  intros (s & p & -> & Hp)%valid_priority_named (d & Hd)%good_dueDate_opt_string.
  destruct (new_todo_fields now text (JStr s) dueDate)
    as (Hid & Htext & Hdone & Hprio & Hdue & Hat).
  unfold Wire.view. rewrite Hid, Htext, Hdone, Hprio, Hdue, Hat, Hp, Hd.
  simpl. by eexists.
Qed.

Lemma post_todos_created_view rd wr now body :
  status_of (reply (post_todos rd wr now body)) = 201 →
  ∃ todos j t,
    rd = Returns todos
    ∧ post_todos rd wr now body
      = {| reply := SendJson 201 (JObj j); written := Some (todos ++ [j]) |}
    ∧ Wire.view j = Some t ∧ id t = now.
Proof.
  unfold post_todos.
  destruct (body !! "text") as [[| | |text| |]|]; try (simpl; lia).
  case_bool_decide; [simpl; lia|].
  destruct (_ <? _)%nat; [simpl; lia|].
  destruct (valid_priority _) eqn:Hprio; [|simpl; lia].
  destruct (bad_dueDate _) eqn:Hdue; [simpl; lia|]. cbn [negb].
  destruct rd as [todos|]; [|simpl; lia].
  destruct wr; [|simpl; lia]. intros _.
  destruct (view_new_todo now text _ _ Hprio Hdue) as (t & Ht & Hid).
  eexists todos, _, t. by split_and!.
Qed.

Lemma view_id j t : Wire.view j = Some t → j !! "id" = Some (JNum (id t)).
Proof.
  unfold Wire.view.
  destruct (j !! "id") as [[| |n| | |]|]; try done.
  destruct (j !! "text") as [[| | |s| |]|]; try done.
  destruct (j !! "completed") as [[|c| | | |]|]; try done.
  destruct (j !! "priority") as [[| | |q| |]|]; try done.
  destruct (Wire.priority_named q) as [pr|]; [|done]. cbn.
  destruct (Wire.opt_string (j !! "dueDate")) as [d|]; [|done]. cbn.
  destruct (Wire.opt_number (j !! "completedAt")) as [a|]; [|done]. cbn.
  by intros [= <-].
Qed.

Lemma in_sync_head j stored t cache :
  Wire.in_sync (j :: stored) (t :: cache) → Wire.view j = Some t.
Proof. intros H. by apply Forall2_cons_1 in H as [? _]. Qed.

End Adding.

(** C9, as the code has it.  On a successful create the handler writes
    the stored list with the new record at its end, and the client puts
    the record it received at the front of its cache.  A re-fetch of a
    list the cache was showing would show the record last.  Whatever the
    cache held, whenever the first stored record is not the new record
    (as when its id is not the new id), the cache does not show the
    stored list after the create. *)
Theorem addTodo_front_server_end
    (stored : list JsObject) (cache : list Client.Todo) (now : Z) (body : JsObject) :
  Server.status_of (Server.reply (Server.post_todos (Returns stored) true now body)) = 201 →
  ∃ j t,
    Server.post_todos (Returns stored) true now body
      = {| Server.reply := Server.SendJson 201 (JObj j);
           Server.written := Some (stored ++ [j]) |}
    ∧ Wire.view j = Some t
    ∧ Client.id t = now
    ∧ Client.addTodo_next t cache = t :: cache
    ∧ (Wire.in_sync stored cache → Wire.in_sync (stored ++ [j]) (cache ++ [t]))
    ∧ (∀ j0 rest, stored = j0 :: rest → Wire.view j0 ≠ Some t →
         ¬ Wire.in_sync (stored ++ [j]) (Client.addTodo_next t cache))
    ∧ (∀ j0 rest, stored = j0 :: rest → j0 !! "id" ≠ Some (JNum now) →
         ¬ Wire.in_sync (stored ++ [j]) (Client.addTodo_next t cache)).
Proof.
  intros Hok.
  destruct (post_todos_created_view _ _ _ _ Hok)
    as (todos & j & t & [= <-] & Hpost & Hview & Hid).
  exists j, t. split; [done|]. split; [done|]. split; [done|]. split; [done|].
  split; [|split].
  - intros Hsync. apply Forall2_app; [done|]. by apply Forall2_cons.
  - intros j0 rest -> Hne Hsync'. by apply in_sync_head in Hsync'.
  - intros j0 rest -> Hne Hsync'. apply in_sync_head in Hsync'.
    apply view_id in Hsync'. congruence.
Qed.

Lemma addTodo_front_server_end_witness :
  ∃ j t,
    Server.written
      (Server.post_todos (Returns [sample_todo 5 "a"; sample_todo 7 "c"]) true 9
         (text_body "b"))
      = Some [sample_todo 5 "a"; sample_todo 7 "c"; j]
    ∧ Wire.view j = Some t
    ∧ Client.id t = 9
    ∧ ¬ Wire.in_sync [sample_todo 5 "a"; sample_todo 7 "c"; j]
          (Client.addTodo_next t [sample_view 7 "c"; sample_view 5 "a"]).
Proof.
  destruct (addTodo_front_server_end [sample_todo 5 "a"; sample_todo 7 "c"]
              [sample_view 7 "c"; sample_view 5 "a"] 9 (text_body "b"))
    as (j & t & Hpost & Hview & Hid & _ & _ & _ & Hdiff).
  - reflexivity.
  - exists j, t. split; [by rewrite Hpost|]. split; [done|]. split; [done|].
    by apply (Hdiff (sample_todo 5 "a") [sample_todo 7 "c"]).
Defined.

(** C9, as stated, fails when the new record is the first stored record
    over again.  Ids are readings of the server's clock, and nothing
    keeps a reading from coming back: the clock is set back, or the
    request is served by another instance whose clock is behind.  The
    list holds one todo created at reading 5 and the same text is added
    at reading 5: the handler builds an equal record, the stored list and
    the cache both consist of that record twice, and the cache still
    shows the stored list. *)
Lemma addTodo_same_record_same_order :
  let stored := [sample_todo 5 "a"] in
  let cache := [sample_view 5 "a"] in
  let body : JsObject :=
    {[ "text" := JStr "a"; "completed" := JBool false;
       "priority" := JStr "medium"; "dueDate" := JNull ]} in
  Wire.in_sync stored cache
  ∧ cache ≠ []
  ∧ Wire.addTodo_body "a" Client.medium "" = Some body
  ∧ Server.post_todos (Returns stored) true 5 body
    = {| Server.reply := Server.SendJson 201 (JObj (sample_todo 5 "a"));
         Server.written := Some (stored ++ [sample_todo 5 "a"]) |}
  ∧ Wire.view (sample_todo 5 "a") = Some (sample_view 5 "a")
  ∧ Wire.in_sync (stored ++ [sample_todo 5 "a"])
      (Client.addTodo_next (sample_view 5 "a") cache).
Proof.
  cbv zeta.
  assert (Hview : Wire.view (sample_todo 5 "a") = Some (sample_view 5 "a")).
  { vm_compute; reflexivity. }
  split; [by repeat constructor|]. split; [done|].
  split; [vm_compute; reflexivity|]. split; [vm_compute; reflexivity|]. split; [done|].
  by repeat constructor.
Qed.

(** ** Overdue todos *)

Section Dates.

Import JsDate Calendar.

Lemma DayFromYear_succ y :
  DayFromYear (y + 1) = DayFromYear y + DaysInYear y.
Proof.
  unfold DayFromYear, DaysInYear, InLeapYear.
  repeat case_bool_decide; div_lia.
Qed.

Lemma DaysInYear_bounds y : 365 ≤ DaysInYear y ≤ 366.
Proof. unfold DaysInYear. destruct (InLeapYear y); lia. Qed.

Lemma DayFromYear_mono y1 y2 : y1 ≤ y2 → DayFromYear y1 ≤ DayFromYear y2.
Proof.
  intros H. replace y2 with (y1 + (y2 - y1)) by lia.
  assert (0 ≤ y2 - y1) as Hk by lia. revert Hk. generalize (y2 - y1). clear.
  intros k Hk. pattern k. apply natlike_ind; [| |done].
  - by rewrite Z.add_0_r.
  - intros x Hx IH. replace (y1 + Z.succ x) with ((y1 + x) + 1) by lia.
    rewrite DayFromYear_succ. pose proof (DaysInYear_bounds (y1 + x)). lia.
Qed.

(** On a real date the month is not carried into the year. *)
Lemma day_number_real y m d :
  1 ≤ m ≤ 12 →
  day_number y m d = DayFromYear y + DaysBeforeMonth (InLeapYear y) (m - 1) + d - 1.
Proof.
  intros Hm. unfold day_number, MakeDay.
  replace ((m - 1) `div` 12) with 0 by div_lia.
  replace ((m - 1) `mod` 12) with (m - 1) by div_lia.
  by rewrite Z.add_0_r.
Qed.

(** The days before a month and the days of the month make the days
    before the next one. *)
Lemma DaysBeforeMonth_next leap m :
  1 ≤ m ≤ 11 →
  DaysBeforeMonth leap m = DaysBeforeMonth leap (m - 1) + DaysInMonth leap m.
Proof.
  intros Hm.
  assert (m = 1 ∨ m = 2 ∨ m = 3 ∨ m = 4 ∨ m = 5 ∨ m = 6 ∨ m = 7 ∨ m = 8
          ∨ m = 9 ∨ m = 10 ∨ m = 11) as Hcases by lia.
  destruct leap; repeat (destruct Hcases as [->|Hcases]; [reflexivity|]); by subst.
Qed.

Lemma DaysBeforeMonth_mono leap m1 m2 :
  0 ≤ m1 → m1 ≤ m2 → m2 ≤ 11 → DaysBeforeMonth leap m1 ≤ DaysBeforeMonth leap m2.
Proof.
  intros H0 H12 H11. replace m2 with (m1 + (m2 - m1)) by lia.
  assert (0 ≤ m2 - m1 ≤ 11 - m1) as Hk by lia. revert Hk. generalize (m2 - m1).
  clear H12 H11 m2. intros k [Hk Hk']. revert Hk'. pattern k.
  apply natlike_ind; [| |done].
  - intros _. by rewrite Z.add_0_r.
  - intros x Hx IH Hx'. replace (m1 + Z.succ x) with ((m1 + x) + 1) by lia.
    rewrite (DaysBeforeMonth_next leap (m1 + x + 1)) by lia.
    replace (m1 + x + 1 - 1) with (m1 + x) by lia.
    assert (0 ≤ DaysInMonth leap (m1 + x + 1)).
    { unfold DaysInMonth. repeat case_match; lia. }
    lia.
Qed.

Lemma DaysInMonth_bounds leap m : 28 ≤ DaysInMonth leap m ≤ 31.
Proof. unfold DaysInMonth. repeat case_match; lia. Qed.

(** A real date lies within its year. *)
Lemma day_in_year y m d :
  real_date y m d →
  0 ≤ DaysBeforeMonth (InLeapYear y) (m - 1) + d - 1 < DaysInYear y.
Proof.
  intros [Hm Hd]. unfold DaysInYear.
  assert (m = 12 ∨ 1 ≤ m ≤ 11) as [->|Hm'] by lia.
  - revert Hd. destruct (InLeapYear y); simpl; lia.
  - pose proof (DaysBeforeMonth_next (InLeapYear y) m Hm') as Hnext.
    pose proof (DaysBeforeMonth_mono (InLeapYear y) m 11) as Hmono.
    pose proof (DaysBeforeMonth_mono (InLeapYear y) 0 (m - 1)) as Hmono0.
    simpl in Hmono0.
    assert (DaysBeforeMonth (InLeapYear y) 11 < if InLeapYear y then 366 else 365).
    { destruct (InLeapYear y); simpl; lia. }
    destruct (InLeapYear y); lia.
Qed.

(** Day numbers follow the order of the calendar. *)
Lemma day_number_before y1 m1 d1 y2 m2 d2 :
  real_date y1 m1 d1 → real_date y2 m2 d2 →
  before (y1, m1, d1) (y2, m2, d2) → day_number y1 m1 d1 < day_number y2 m2 d2.
Proof.
  intros Hr1 Hr2 Hlt.
  pose proof (day_in_year _ _ _ Hr1) as Hin1.
  pose proof (day_in_year _ _ _ Hr2) as Hin2.
  destruct Hr1 as [Hm1 Hd1], Hr2 as [Hm2 Hd2].
  rewrite !day_number_real by done.
  destruct Hlt as [Hy|[-> [Hm|[-> Hd]]]].
  - pose proof (DayFromYear_succ y1) as Hs.
    pose proof (DayFromYear_mono (y1 + 1) y2). lia.
  - pose proof (DaysBeforeMonth_next (InLeapYear y2) m1) as Hnext.
    pose proof (DaysBeforeMonth_mono (InLeapYear y2) m1 (m2 - 1)). lia.
  - lia.
Qed.

Lemma day_number_order y1 m1 d1 y2 m2 d2 :
  real_date y1 m1 d1 → real_date y2 m2 d2 →
  day_number y1 m1 d1 < day_number y2 m2 d2 ↔ before (y1, m1, d1) (y2, m2, d2).
Proof.
  intros Hr1 Hr2. split; [|by apply day_number_before].
  intros Hlt.
  destruct (decide (before (y1, m1, d1) (y2, m2, d2))) as [|Hnot]; [done|].
  assert (before (y2, m2, d2) (y1, m1, d1) ∨ (y1, m1, d1) = (y2, m2, d2)) as [Hgt|Heq].
  { unfold before in *.
    destruct (decide (y1 = y2)), (decide (m1 = m2)), (decide (d1 = d2)); subst;
      first [by right | left; lia]. }
  - apply day_number_before in Hgt; [lia|done..].
  - injection Heq as -> -> ->. lia.
Qed.


(** Every day belongs to a year. *)
Lemma year_of_day (n : Z) : ∃ y, DayFromYear y ≤ n < DayFromYear (y + 1).
Proof.
  set (a := 1970 + (400 * n) `div` 146097 - 2).
  assert (Ha : DayFromYear a ≤ n).
  { unfold DayFromYear, a. div_lia. }
  assert (Hb : n < DayFromYear (a + 5)).
  { unfold DayFromYear, a. div_lia. }
  destruct (decide (n < DayFromYear (a + 1))); [by exists a|].
  destruct (decide (n < DayFromYear (a + 1 + 1))); [exists (a + 1); lia|].
  destruct (decide (n < DayFromYear (a + 2 + 1))).
  { exists (a + 2). replace (a + 2) with (a + 1 + 1) at 1 by lia. lia. }
  destruct (decide (n < DayFromYear (a + 3 + 1))).
  { exists (a + 3). replace (a + 3) with (a + 2 + 1) at 1 by lia. lia. }
  exists (a + 4). replace (a + 4) with (a + 3 + 1) at 1 by lia.
  replace (a + 4 + 1) with (a + 5) by lia. lia.
Qed.

(** Every day of a year is a day of one of its months. *)
Lemma month_of_day (leap : bool) (k : Z) :
  0 ≤ k < (if leap then 366 else 365) →
  ∃ m d, 1 ≤ m ≤ 12 ∧ 1 ≤ d ≤ DaysInMonth leap m
         ∧ DaysBeforeMonth leap (m - 1) + d - 1 = k.
Proof.
  intros Hk.
  assert (Hfind : ∃ m, 1 ≤ m ≤ 12 ∧ DaysBeforeMonth leap (m - 1) ≤ k
                       ∧ k < DaysBeforeMonth leap (m - 1) + DaysInMonth leap m).
  { destruct leap; simpl in Hk.
    - destruct (decide (k < 31)); [exists 1; simpl; lia|].
      destruct (decide (k < 60)); [exists 2; simpl; lia|].
      destruct (decide (k < 91)); [exists 3; simpl; lia|].
      destruct (decide (k < 121)); [exists 4; simpl; lia|].
      destruct (decide (k < 152)); [exists 5; simpl; lia|].
      destruct (decide (k < 182)); [exists 6; simpl; lia|].
      destruct (decide (k < 213)); [exists 7; simpl; lia|].
      destruct (decide (k < 244)); [exists 8; simpl; lia|].
      destruct (decide (k < 274)); [exists 9; simpl; lia|].
      destruct (decide (k < 305)); [exists 10; simpl; lia|].
      destruct (decide (k < 335)); [exists 11; simpl; lia|].
      exists 12; simpl; lia.
    - destruct (decide (k < 31)); [exists 1; simpl; lia|].
      destruct (decide (k < 59)); [exists 2; simpl; lia|].
      destruct (decide (k < 90)); [exists 3; simpl; lia|].
      destruct (decide (k < 120)); [exists 4; simpl; lia|].
      destruct (decide (k < 151)); [exists 5; simpl; lia|].
      destruct (decide (k < 181)); [exists 6; simpl; lia|].
      destruct (decide (k < 212)); [exists 7; simpl; lia|].
      destruct (decide (k < 243)); [exists 8; simpl; lia|].
      destruct (decide (k < 273)); [exists 9; simpl; lia|].
      destruct (decide (k < 304)); [exists 10; simpl; lia|].
      destruct (decide (k < 334)); [exists 11; simpl; lia|].
      exists 12; simpl; lia. }
  destruct Hfind as (m & Hm & Hlo & Hhi).
  exists m, (k - DaysBeforeMonth leap (m - 1) + 1). lia.
Qed.

(** Every day is the day of exactly one calendar date. *)
Lemma calendar_date_of_day (n : Z) :
  ∃ y m d, real_date y m d ∧ day_number y m d = n
           ∧ ∀ y' m' d', real_date y' m' d' → day_number y' m' d' = n →
                         (y', m', d') = (y, m, d).
Proof.
  destruct (year_of_day n) as (y & Hlo & Hhi).
  rewrite DayFromYear_succ in Hhi. unfold DaysInYear in Hhi.
  destruct (month_of_day (InLeapYear y) (n - DayFromYear y)) as (m & d & Hm & Hd & Hk).
  { destruct (InLeapYear y); lia. }
  assert (Hreal : real_date y m d) by done.
  assert (Hday : day_number y m d = n).
  { rewrite day_number_real by done. lia. }
  exists y, m, d. split; [done|]. split; [done|].
  intros y' m' d' Hreal' Hday'.
  destruct (decide ((y', m', d') = (y, m, d))) as [|Hne]; [done|].
  assert (before (y', m', d') (y, m, d) ∨ before (y, m, d) (y', m', d')) as [Hlt|Hlt].
  { assert (y' ≠ y ∨ m' ≠ m ∨ d' ≠ d) as Hdiff.
    { destruct (decide (y' = y)) as [->|]; [|by left].
      destruct (decide (m' = m)) as [->|]; [|by right; left].
      destruct (decide (d' = d)) as [->|]; [by destruct Hne|by right; right]. }
    unfold before. lia. }
  - apply day_number_before in Hlt; [lia|done..].
  - apply day_number_before in Hlt; [lia|done..].
Qed.


(** Every clock reading has its local calendar date. *)
Lemma today_has_date tza now : ∃ y m d, today_is tza now y m d.
Proof.
  destruct (calendar_date_of_day (today_day tza now)) as (y & m & d & Hreal & Hday & _).
  by exists y, m, d.
Qed.

(** *** Reading a stored due date *)

Lemma digit_not_dash c : is_digit c = true → is_dash c = false.
Proof.
  unfold is_digit, is_dash. cbv zeta.
  rewrite andb_true_iff, Nat.leb_le, Nat.leb_le, Nat.eqb_neq. lia.
Qed.

Lemma digit_value_bounds c : is_digit c = true → 0 ≤ digit_value c ≤ 9.
Proof.
  unfold is_digit, digit_value. cbv zeta.
  rewrite andb_true_iff, Nat.leb_le, Nat.leb_le. lia.
Qed.

Lemma Number_of_digits_list l :
  forallb is_digit l = true →
  Number_of_digits (String.string_of_list_ascii l)
  = Some (foldl (λ acc c, 10 * acc + digit_value c) 0 l).
Proof.
  intros Hl. unfold Number_of_digits.
  by rewrite String.list_ascii_of_string_of_list_ascii, Hl.
Qed.

Lemma split_dash_go_digit cur c l :
  is_digit c = true → split_dash_go cur (c :: l) = split_dash_go (c :: cur) l.
Proof. intros Hc. cbn. by rewrite digit_not_dash. Qed.

Lemma split_dash_go_dash cur c l :
  is_dash c = true →
  split_dash_go cur (c :: l) = String.string_of_list_ascii (rev cur) :: split_dash_go [] l.
Proof. intros Hc. cbn. by rewrite Hc. Qed.

(** A string in the stored format splits into a year of four digits, a
    month of two and a day of two. *)
Lemma date_parts_stored s :
  Server.DATE_REGEX_test s = true →
  ∃ y m d, Client.date_parts s = (Some y, Some m, Some d)
           ∧ 0 ≤ y ≤ 9999 ∧ 0 ≤ m ≤ 99 ∧ 0 ≤ d ≤ 99.
Proof.
  unfold Server.DATE_REGEX_test, Client.date_parts, split_dash.
  destruct (String.list_ascii_of_string s)
    as [|y1 [|y2 [|y3 [|y4 [|s1 [|m1 [|m2 [|s2 [|d1 [|d2 [|]]]]]]]]]]]; try done.
  rewrite !andb_true_iff.
  intros [[[[[[[[[Hy1 Hy2] Hy3] Hy4] Hs1] Hm1] Hm2] Hs2] Hd1] Hd2].
  repeat first [rewrite split_dash_go_digit by done
               |rewrite split_dash_go_dash by done].
  cbn -[Number_of_digits String.string_of_list_ascii].
  rewrite !Number_of_digits_list by (cbn; by rewrite ?Hy1, ?Hy2, ?Hy3, ?Hy4, ?Hm1, ?Hm2, ?Hd1, ?Hd2).
  cbn [foldl].
  pose proof (digit_value_bounds _ Hy1). pose proof (digit_value_bounds _ Hy2).
  pose proof (digit_value_bounds _ Hy3). pose proof (digit_value_bounds _ Hy4).
  pose proof (digit_value_bounds _ Hm1). pose proof (digit_value_bounds _ Hm2).
  pose proof (digit_value_bounds _ Hd1). pose proof (digit_value_bounds _ Hd2).
  eexists _, _, _. split; [reflexivity|]. lia.
Qed.


(** *** Comparing the two [Date] objects *)

Lemma DaysBeforeMonth_bounds leap m :
  0 ≤ m ≤ 11 → 0 ≤ DaysBeforeMonth leap m ≤ 335.
Proof.
  intros Hm.
  pose proof (DaysBeforeMonth_mono leap 0 m) as Hlo.
  pose proof (DaysBeforeMonth_mono leap m 11) as Hhi.
  destruct leap; simpl in *; lia.
Qed.

Lemma MakeFullYear_bounds y : 0 ≤ y ≤ 9999 → 100 ≤ MakeFullYear y ≤ 9999.
Proof. intros Hy. unfold MakeFullYear. case_bool_decide; lia. Qed.

(** The day a stored due date falls on is far inside the range of time
    values. *)
Lemma MakeDay_stored_bounds y m d :
  0 ≤ y ≤ 9999 → 0 ≤ m ≤ 99 → 0 ≤ d ≤ 99 →
  -700000 ≤ MakeDay (MakeFullYear y) (m - 1) d ≤ 3000000.
Proof.
  intros Hy%MakeFullYear_bounds Hm Hd. unfold MakeDay.
  set (ym := MakeFullYear y + (m - 1) `div` 12).
  assert (Hym : 99 ≤ ym ≤ 10007) by (unfold ym; div_lia).
  pose proof (DayFromYear_mono 99 ym) as Hlo.
  pose proof (DayFromYear_mono ym 10007) as Hhi.
  assert (DayFromYear 99 = -683368) as Hc1 by reflexivity.
  assert (DayFromYear 10007 = 2935454) as Hc2 by reflexivity.
  pose proof (DaysBeforeMonth_bounds (InLeapYear ym) ((m - 1) `mod` 12)) as Hdbm.
  assert (0 ≤ (m - 1) `mod` 12 ≤ 11) by div_lia.
  lia.
Qed.

Lemma TimeClip_in_range t :
  - 8640000000000000 ≤ t ≤ 8640000000000000 → TimeClip t = Some t.
Proof. intros Ht. unfold TimeClip. rewrite bool_decide_eq_false_2; [done|lia]. Qed.

(** The time value of local midnight. *)
Lemma today_midnight tza now :
  clock_reading now →
  Client.today tza now = Some (today_day tza now * msPerDay - tza).
Proof.
  unfold clock_reading, Client.today, current, setHours0, today_day, MakeDate,
    MakeTime, UTC, LocalTime, Day, msPerDay.
  intros Hnow. rewrite TimeClip_in_range; [f_equal; lia|]. div_lia.
Qed.

Lemma due_midnight tza s :
  zone_offset tza → Server.DATE_REGEX_test s = true →
  ∃ dd, due_day s = Some dd ∧ Client.due_date tza s = Some (dd * msPerDay - tza).
Proof.
  intros Hz (y & m & d & Hparts & Hy & Hm & Hd)%date_parts_stored.
  unfold due_day, Client.due_date. rewrite Hparts. eexists. split; [done|].
  unfold construct, day_number. cbn [fmap option_fmap option_map].
  pose proof (MakeDay_stored_bounds y m d Hy Hm Hd) as Hdd.
  unfold zone_offset, msPerDay in Hz.
  unfold MakeDate, MakeTime, UTC, msPerDay.
  rewrite TimeClip_in_range; [f_equal; lia|lia].
Qed.

(** The comparison of the two objects is the comparison of their days. *)
Lemma overdue_compare tza now s :
  zone_offset tza → clock_reading now → Server.DATE_REGEX_test s = true →
  JsDate.lt (Client.due_date tza s) (Client.today tza now) = true
  ↔ ∃ dd, due_day s = Some dd ∧ dd < today_day tza now.
Proof.
  intros Hz Hnow Hs.
  destruct (due_midnight tza s Hz Hs) as (dd & Hdd & Hdue).
  rewrite Hdue, (today_midnight tza now Hnow), Hdd. unfold JsDate.lt.
  rewrite bool_decide_eq_true. unfold msPerDay. split.
  - intros Hlt. exists dd. split; [done|lia].
  - intros (dd' & [= <-] & Hlt). lia.
Qed.


(** *** The overdue predicate *)

Lemma stored_date_truthy s :
  Server.DATE_REGEX_test s = true → Client.truthy_string (Some s) = true.
Proof.
  intros Hs. unfold Client.truthy_string.
  rewrite bool_decide_eq_false_2; [done|]. by intros ->.
Qed.

Lemma overdue_spec tza now t :
  zone_offset tza → clock_reading now →
  (∀ s, Client.dueDate t = Some s → Server.DATE_REGEX_test s = true) →
  Client.overdue tza now t = true
  ↔ Client.completed t = false
    ∧ ∃ s dd, Client.dueDate t = Some s ∧ due_day s = Some dd
              ∧ dd < today_day tza now.
Proof.
  intros Hz Hnow Hstored. unfold Client.overdue, Client.has_due_date, Client.past_due.
  destruct (Client.dueDate t) as [s|] eqn:Hdue.
  - rewrite stored_date_truthy by by apply Hstored.
    rewrite andb_true_r, andb_true_iff, negb_true_iff.
    rewrite overdue_compare by (done || by apply Hstored).
    split.
    + intros [Hc (dd & Hdd & Hlt)]. split; [done|]. by exists s, dd.
    + intros [Hc (s' & dd & [= <-] & Hdd & Hlt)]. split; [done|]. by exists dd.
  - rewrite andb_false_r. split; [done|]. by intros [_ (s & dd & ? & _)].
Qed.

(** The overdue predicate looks at the clock through the local day only. *)
Lemma overdue_same_day tza now now' t :
  clock_reading now → clock_reading now' →
  today_day tza now' = today_day tza now →
  Client.overdue tza now' t = Client.overdue tza now t.
Proof.
  intros Hnow Hnow' Hday. unfold Client.overdue, Client.past_due.
  by rewrite !today_midnight, Hday by done.
Qed.

Lemma overdueIds_elem tza now todos i :
  i ∈ Client.overdueIds tza now todos
  ↔ ∃ t, t ∈ todos ∧ Client.id t = i ∧ Client.overdue tza now t = true.
Proof.
  unfold Client.overdueIds, Client.overdue.
  rewrite elem_of_list_to_set, list_elem_of_fmap.
  setoid_rewrite list_elem_of_filter. setoid_rewrite list_elem_of_filter.
  setoid_rewrite andb_true_iff. setoid_rewrite Is_true_true.
  split.
  - intros (t & -> & Hpast & Hdue & Hin). by exists t.
  - intros (t & Hin & <- & Hdue & Hpast). by exists t.
Qed.

(** *** Dates as they are written *)

Lemma digit_char_digit n :
  0 ≤ n ≤ 9 → is_digit (digit_char n) = true ∧ digit_value (digit_char n) = n.
Proof.
  intros Hn.
  assert (n = 0 ∨ n = 1 ∨ n = 2 ∨ n = 3 ∨ n = 4 ∨ n = 5 ∨ n = 6 ∨ n = 7 ∨ n = 8 ∨ n = 9)
    as Hcases by lia.
  destruct Hcases as [->|[->|[->|[->|[->|[->|[->|[->|[->| ->]]]]]]]]]; by split.
Qed.

(** The stored format is read back by the client's parser as the date
    that was written, and passes the handlers' check of the format. *)
Lemma date_string_parts y m d :
  0 ≤ y ≤ 9999 → 0 ≤ m ≤ 99 → 0 ≤ d ≤ 99 →
  Server.DATE_REGEX_test (date_string y m d) = true
  ∧ Client.date_parts (date_string y m d) = (Some y, Some m, Some d).
Proof.
  intros Hy Hm Hd.
  destruct (digit_char_digit (y `div` 1000)) as [Hy1 Vy1]; [div_lia|].
  destruct (digit_char_digit ((y `div` 100) `mod` 10)) as [Hy2 Vy2]; [div_lia|].
  destruct (digit_char_digit ((y `div` 10) `mod` 10)) as [Hy3 Vy3]; [div_lia|].
  destruct (digit_char_digit (y `mod` 10)) as [Hy4 Vy4]; [div_lia|].
  destruct (digit_char_digit (m `div` 10)) as [Hm1 Vm1]; [div_lia|].
  destruct (digit_char_digit (m `mod` 10)) as [Hm2 Vm2]; [div_lia|].
  destruct (digit_char_digit (d `div` 10)) as [Hd1 Vd1]; [div_lia|].
  destruct (digit_char_digit (d `mod` 10)) as [Hd2 Vd2]; [div_lia|].
  unfold date_string. split.
  - unfold Server.DATE_REGEX_test.
    rewrite String.list_ascii_of_string_of_list_ascii.
    by rewrite Hy1, Hy2, Hy3, Hy4, Hm1, Hm2, Hd1, Hd2.
  - unfold Client.date_parts, split_dash.
    rewrite String.list_ascii_of_string_of_list_ascii.
    repeat first [rewrite split_dash_go_digit by done
                 |rewrite split_dash_go_dash by done].
    cbn -[Number_of_digits String.string_of_list_ascii digit_char].
    rewrite !Number_of_digits_list
      by (cbn -[digit_char]; by rewrite ?Hy1, ?Hy2, ?Hy3, ?Hy4, ?Hm1, ?Hm2, ?Hd1, ?Hd2).
    cbn [foldl]. rewrite Vy1, Vy2, Vy3, Vy4, Vm1, Vm2, Vd1, Vd2.
    repeat f_equal; div_lia.
Qed.

Lemma real_date_bounds y m d : real_date y m d → 0 ≤ m ≤ 99 ∧ 0 ≤ d ≤ 99.
Proof.
  intros [Hm Hd]. pose proof (DaysInMonth_bounds (InLeapYear y) m). lia.
Qed.

(** The day the client places a written calendar date on. *)
Lemma due_day_written y m d :
  calendar_date y m d →
  Server.DATE_REGEX_test (date_string y m d) = true
  ∧ due_day (date_string y m d) = Some (day_number y m d).
Proof.
  intros [Hy Hreal]. destruct (real_date_bounds y m d Hreal) as [Hm Hd].
  destruct (date_string_parts y m d) as [Hre Hparts]; [lia..|].
  split; [done|]. unfold due_day. rewrite Hparts.
  unfold MakeFullYear. by rewrite bool_decide_eq_false_2 by lia.
Qed.

Lemma due_dates_written_stored todos t s :
  due_dates_written todos → t ∈ todos → Client.dueDate t = Some s →
  Server.DATE_REGEX_test s = true.
Proof.
  intros Hw Hin Hs. destruct (Hw t s Hin Hs) as (y & m & d & -> & Hdate).
  by apply due_day_written.
Qed.

(** A todo of a list of written dates is overdue exactly when it is
    incomplete and its date is before today's. *)
Lemma overdue_written tza now todos t Y M D :
  zone_offset tza → clock_reading now → due_dates_written todos →
  today_is tza now Y M D → t ∈ todos →
  Client.overdue tza now t = true
  ↔ Client.completed t = false
    ∧ ∃ y m d, Client.dueDate t = Some (date_string y m d) ∧ calendar_date y m d
               ∧ before (y, m, d) (Y, M, D).
Proof.
  intros Hz Hnow Hw [HReal Htoday] Hin.
  rewrite overdue_spec; [|done..|intros s; by apply (due_dates_written_stored todos t)].
  split.
  - intros (Hc & s & dd & Hs & Hdd & Hlt). split; [done|].
    destruct (Hw t s Hin Hs) as (y & m & d & -> & Hdate).
    exists y, m, d. split; [done|]. split; [done|].
    destruct (due_day_written y m d Hdate) as [_ Hday].
    rewrite Hday in Hdd. injection Hdd as <-.
    apply day_number_order; [by destruct Hdate|done|]. by rewrite Htoday.
  - intros (Hc & y & m & d & Hs & Hdate & Hbefore). split; [done|].
    destruct (due_day_written y m d Hdate) as [_ Hday].
    exists (date_string y m d), (day_number y m d). split; [done|]. split; [done|].
    rewrite <- Htoday. apply day_number_order; [by destruct Hdate|done..].
Qed.

Lemma distinct_ids_elem (l : list Client.Todo) t u :
  Wire.distinct_ids l → t ∈ l → u ∈ l → Client.id t = Client.id u → t = u.
Proof.
  intros Hnd [k Hk]%list_elem_of_lookup_1 [j Hj]%list_elem_of_lookup_1 Hid.
  assert (k = j) as ->; [|congruence].
  apply (NoDup_lookup _ k j (Client.id t) Hnd); rewrite list_lookup_fmap.
  - by rewrite Hk.
  - rewrite Hj. cbn. by rewrite Hid.
Qed.

Lemma isOverdue_distinct tza now todos t :
  Wire.distinct_ids todos → t ∈ todos →
  Client.isOverdue tza now todos t = Client.overdue tza now t.
Proof.
  intros Hnd Hin. unfold Client.isOverdue.
  destruct (Client.overdue tza now t) eqn:Ht.
  - apply bool_decide_eq_true_2, overdueIds_elem. by exists t.
  - apply bool_decide_eq_false_2. intros (u & Hu & Hid & Hover)%overdueIds_elem.
    assert (u = t) as -> by by eapply distinct_ids_elem. congruence.
Qed.

End Dates.

(** C5, as the code has it.  With a zone offset of less than a day, a
    clock reading whose local midnight is a time value, and a list whose
    due dates, when not null, are dates of the calendar written
    [YYYY-MM-DD] with a year from 100 on: the overdue set holds exactly
    the ids of the incomplete todos whose due date is strictly before
    today's local date, in the order of the calendar.  When the ids of
    the list are distinct, a todo of the list is shown as overdue exactly
    when it is itself such a todo.  A todo due today is not overdue, and
    two clock readings of the same local day give the same overdue set:
    the time of day plays no part. *)
Theorem overdue_by_calendar_date
    (tza now : Z) (todos : list Client.Todo) (Y M D : Z) :
  Calendar.zone_offset tza →
  Calendar.clock_reading now →
  Calendar.due_dates_written todos →
  Calendar.today_is tza now Y M D →
  (∀ i, i ∈ Client.overdueIds tza now todos
        ↔ ∃ t y m d, t ∈ todos ∧ Client.id t = i ∧ Client.completed t = false
                     ∧ Client.dueDate t = Some (Calendar.date_string y m d)
                     ∧ Calendar.calendar_date y m d
                     ∧ Calendar.before (y, m, d) (Y, M, D))
  ∧ (Wire.distinct_ids todos →
     ∀ t, t ∈ todos →
       (Client.isOverdue tza now todos t = true
        ↔ Client.completed t = false
          ∧ ∃ y m d, Client.dueDate t = Some (Calendar.date_string y m d)
                     ∧ Calendar.calendar_date y m d
                     ∧ Calendar.before (y, m, d) (Y, M, D)))
  ∧ (∀ t, t ∈ todos → 100 ≤ Y ≤ 9999 →
          Client.dueDate t = Some (Calendar.date_string Y M D) →
          Client.overdue tza now t = false
          ∧ (Wire.distinct_ids todos → Client.isOverdue tza now todos t = false))
  ∧ (∀ now',
       Calendar.clock_reading now' →
       Calendar.today_day tza now' = Calendar.today_day tza now →
       Client.overdueIds tza now' todos = Client.overdueIds tza now todos).
Proof.
  intros Hz Hnow Hw Htoday.
  split; [|split; [|split]].
  - intros i. rewrite overdueIds_elem. split.
    + intros (t & Hin & Hid & Ht).
      apply (overdue_written tza now todos t Y M D) in Ht
        as (Hc & y & m & d & ?); [|done..].
      by exists t, y, m, d.
    + intros (t & y & m & d & Hin & Hid & Hc & ?). exists t.
      split; [done|]. split; [done|].
      apply (overdue_written tza now todos t Y M D); [done..|].
      split; [done|]. by exists y, m, d.
  - intros Hnd t Hin. rewrite isOverdue_distinct by done.
    by apply (overdue_written tza now todos t Y M D).
  - intros t Hin HY Hs.
    assert (Hnot : Client.overdue tza now t = false).
    { apply not_true_is_false. intros Ht.
      apply (overdue_written tza now todos t Y M D) in Ht
        as (_ & y & m & d & Hs' & Hdate & Hbefore); [|done..].
      assert (Heq : Calendar.date_string Y M D = Calendar.date_string y m d)
        by congruence.
      destruct Htoday as [HReal _].
      destruct (real_date_bounds Y M D HReal) as [HM HD].
      destruct Hdate as [Hy Hreal].
      destruct (real_date_bounds y m d Hreal) as [Hm Hd].
      destruct (date_string_parts Y M D) as [_ HP]; [lia..|].
      destruct (date_string_parts y m d) as [_ Hp]; [lia..|].
      rewrite Heq, Hp in HP. injection HP as <- <- <-.
      unfold Calendar.before in Hbefore. lia. }
    split; [done|]. intros Hnd. by rewrite isOverdue_distinct.
  - intros now' Hnow' Hday. apply set_eq. intros i.
    rewrite !overdueIds_elem.
    by setoid_rewrite (overdue_same_day tza now now' _ Hnow Hnow' Hday).
Qed.

Lemma overdue_by_calendar_date_witness :
  Client.isOverdue 7200000 1700000000000
    [sample_open 1 (Some "2023-11-14"); sample_open 2 (Some "2023-11-15")]
    (sample_open 1 (Some "2023-11-14")) = true
  ∧ Client.isOverdue 7200000 1700000000000
      [sample_open 1 (Some "2023-11-14"); sample_open 2 (Some "2023-11-15")]
      (sample_open 2 (Some "2023-11-15")) = false
  ∧ Client.overdueIds 7200000 1700000000000
      [sample_open 1 (Some "2023-11-14"); sample_open 2 (Some "2023-11-15")]
    = Client.overdueIds 7200000 1700074799999
      [sample_open 1 (Some "2023-11-14"); sample_open 2 (Some "2023-11-15")].
Proof.
  destruct (overdue_by_calendar_date 7200000 1700000000000
              [sample_open 1 (Some "2023-11-14"); sample_open 2 (Some "2023-11-15")]
              2023 11 15)
    as (_ & Hshown & Htoday & Hday).
  - unfold Calendar.zone_offset, JsDate.msPerDay. lia.
  - unfold Calendar.clock_reading, JsDate.msPerDay. lia.
  - intros t s Hin Hs. rewrite !elem_of_cons, elem_of_nil in Hin.
    destruct Hin as [->|[->|[]]]; injection Hs as <-.
    + exists 2023, 11, 14. split; [reflexivity|]. split; [lia|split; simpl; lia].
    + exists 2023, 11, 15. split; [reflexivity|]. split; [lia|split; simpl; lia].
  - split; [split; simpl; lia|reflexivity].
  - assert (Hnd : Wire.distinct_ids
                    [sample_open 1 (Some "2023-11-14"); sample_open 2 (Some "2023-11-15")]).
    { unfold Wire.distinct_ids. cbn. apply NoDup_cons. split.
      - rewrite list_elem_of_singleton. lia.
      - apply NoDup_singleton. }
    split; [|split].
    + apply (Hshown Hnd); [by left|]. split; [done|].
      exists 2023, 11, 14. split; [reflexivity|]. split; [split; [lia|split; simpl; lia]|].
      right. split; [done|]. right. split; [done|]. lia.
    + apply (Htoday (sample_open 2 (Some "2023-11-15"))); [by right; left|lia|reflexivity|done].
    + symmetry. apply Hday; [|reflexivity].
      unfold Calendar.clock_reading, JsDate.msPerDay. lia.
Defined.

(** C5 as stated fails in three ways.  The server stores every string of
    the format, and [new Date(y, m - 1, d)] carries a day past the end of
    its month into the next one: 30 February 2027 precedes 1 March 2027 in
    the order of year, month and day, and on 1 March the todo is not
    overdue.  The set holds ids: of two todos with one id, the one due
    tomorrow is shown as overdue because the other was due yesterday.  And
    the constructor reads a year below 100 as a year of the twentieth
    century: the year 50 is before 1940, and in 1940 the todo is not
    overdue. *)
Lemma overdue_not_by_calendar_order :
  (Server.DATE_REGEX_test "2027-02-30" = true
   ∧ Client.completed (sample_open 1 (Some "2027-02-30")) = false
   ∧ Client.date_parts "2027-02-30" = (Some 2027, Some 2, Some 30)
   ∧ Calendar.today_is 0 1803859200000 2027 3 1
   ∧ Calendar.before (2027, 2, 30) (2027, 3, 1)
   ∧ Client.overdue 0 1803859200000 (sample_open 1 (Some "2027-02-30")) = false
   ∧ Client.overdueIds 0 1803859200000 [sample_open 1 (Some "2027-02-30")] = ∅)
  ∧ (Calendar.today_is 7200000 1700000000000 2023 11 15
     ∧ Wire.view (Server.new_todo 5 "open" (JStr "medium") (JStr "2023-11-16"))
       = Some (sample_open 5 (Some "2023-11-16"))
     ∧ Client.date_parts "2023-11-16" = (Some 2023, Some 11, Some 16)
     ∧ ¬ Calendar.before (2023, 11, 16) (2023, 11, 15)
     ∧ Client.overdue 7200000 1700000000000 (sample_open 5 (Some "2023-11-16")) = false
     ∧ Client.isOverdue 7200000 1700000000000
         [sample_open 5 (Some "2023-11-14"); sample_open 5 (Some "2023-11-16")]
         (sample_open 5 (Some "2023-11-16")) = true)
  ∧ (Server.DATE_REGEX_test "0050-01-01" = true
     ∧ Client.date_parts "0050-01-01" = (Some 50, Some 1, Some 1)
     ∧ Calendar.real_date 50 1 1
     ∧ Calendar.today_is 0 (-946771200000) 1940 1 1
     ∧ Calendar.before (50, 1, 1) (1940, 1, 1)
     ∧ Client.completed (sample_open 1 (Some "0050-01-01")) = false
     ∧ Client.overdue 0 (-946771200000) (sample_open 1 (Some "0050-01-01")) = false
     ∧ Client.overdueIds 0 (-946771200000) [sample_open 1 (Some "0050-01-01")] = ∅).
Proof.
  split; [|split].
  - split; [reflexivity|]. split; [reflexivity|]. split; [reflexivity|].
    split; [split; [split; simpl; lia|reflexivity]|].
    split; [right; split; [done|]; left; lia|].
    split; reflexivity.
  - split; [split; [split; simpl; lia|reflexivity]|].
    split; [vm_compute; reflexivity|].
    split; [reflexivity|]. split; [unfold Calendar.before; lia|].
    split; reflexivity.
  - split; [reflexivity|]. split; [reflexivity|].
    split; [split; simpl; lia|].
    split; [split; [split; simpl; lia|reflexivity]|].
    split; [left; lia|]. split; [reflexivity|]. split; reflexivity.
Qed.

(** ** What the handlers write *)

Section HandlerWrites.
Import Server.

Lemma check_update_400 body r : check_update body = Some r → status_of r = 400.
Proof.
  unfold check_update, check_text, check_priority, check_dueDate.
  repeat case_match; intros; by simplify_eq.
Qed.

Lemma post_todos_discipline rd now body :
  write_discipline (λ wr, post_todos rd wr now body) 201.
Proof.
  intros wr. unfold passed_to_write, post_todos, write_then.
  destruct (body !! "text") as [[| | |text| |]|]; try no_write.
  repeat (case_match; try no_write).
  at_write wr.
Qed.

Lemma patch_reorder_discipline rd body :
  write_discipline (λ wr, patch_reorder rd wr body) 200.
Proof.
  intros wr. unfold passed_to_write, patch_reorder, write_then.
  repeat (case_match; try no_write).
  at_write wr.
Qed.

Lemma put_todo_discipline rd id body :
  write_discipline (λ wr, put_todo rd wr id body) 200.
Proof.
  intros wr. unfold passed_to_write, put_todo, write_then.
  destruct id as [id|]; [|no_write].
  destruct (check_update body) as [r|] eqn:Hr.
  { pose proof (check_update_400 body r Hr) as Hcheck. no_write. }
  repeat (case_match; try no_write).
  at_write wr.
Qed.

Lemma delete_todo_discipline rd id :
  write_discipline (λ wr, delete_todo rd wr id) 204.
Proof.
  intros wr. unfold passed_to_write, delete_todo, write_then.
  repeat (case_match; try no_write).
  at_write wr.
Qed.

End HandlerWrites.

(** X1.  Each handler that changes the stored list answers with its
    success status (create 201, reorder and update 200, delete 204)
    exactly when it gets to the call of [writeTodos] and the call
    returns; when the call throws it answers 500; and when it does not
    get to the call, its reply is the same whatever the store would have
    done with a write.  A read that throws keeps every one of them from
    the call, and listing never makes it. *)
Theorem handlers_write_iff_success
    (rd : Fallible (list JsObject)) (now : Z) (id : option Z) (body : JsObject) :
  Server.write_discipline (λ wr, Server.post_todos rd wr now body) 201
  ∧ Server.write_discipline (λ wr, Server.patch_reorder rd wr body) 200
  ∧ Server.write_discipline (λ wr, Server.put_todo rd wr id body) 200
  ∧ Server.write_discipline (λ wr, Server.delete_todo rd wr id) 204
  ∧ (rd = Throws →
     Server.passed_to_write (λ wr, Server.post_todos rd wr now body) = None
     ∧ Server.passed_to_write (λ wr, Server.patch_reorder rd wr body) = None
     ∧ Server.passed_to_write (λ wr, Server.put_todo rd wr id body) = None
     ∧ Server.passed_to_write (λ wr, Server.delete_todo rd wr id) = None)
  ∧ Server.written (Server.get_todos rd) = None.
Proof.
  split_and!.
  - apply post_todos_discipline.
  - apply patch_reorder_discipline.
  - apply put_todo_discipline.
  - apply delete_todo_discipline.
  - intros ->. unfold Server.passed_to_write, Server.post_todos, Server.patch_reorder,
      Server.put_todo, Server.delete_todo.
    split_and!; by repeat case_match.
  - unfold Server.get_todos. by destruct rd.
Qed.

Lemma handlers_write_iff_success_witness :
  Server.status_of
    (Server.reply (Server.post_todos (Returns sample_list) false 9 (text_body "c"))) = 500
  ∧ Server.status_of
      (Server.reply (Server.delete_todo (Returns sample_list) true (Some 1))) = 204
  ∧ Server.delete_todo (Returns sample_list) false (Some 7)
    = Server.delete_todo (Returns sample_list) true (Some 7).
Proof.
  destruct (handlers_write_iff_success (Returns sample_list) 9 (Some 1) (text_body "c"))
    as (Hpost & _ & _ & Hdelete & _).
  destruct (handlers_write_iff_success (Returns sample_list) 9 (Some 7) (text_body "c"))
    as (_ & _ & _ & Hmissing & _).
  split; [|split].
  - apply (Hpost false); [|done]. by eexists.
  - apply (Hdelete true). split; [done|]. by eexists.
  - by apply (Hmissing false).
Defined.

(** ** The stored list under the handlers *)

(** *** Trimming is idempotent *)

Lemma drop_white_head l :
  match drop_white l with [] => True | c :: _ => is_white c = false end.
Proof. induction l as [|c l IH]; [done|]. cbn. by destruct (is_white c) eqn:Hc. Qed.

Lemma drop_white_fixed l :
  match l with [] => True | c :: _ => is_white c = false end → drop_white l = l.
Proof. destruct l as [|c l]; [done|]. cbn. by intros ->. Qed.

Lemma drop_white_suffix l : drop_white l `suffix_of` l.
Proof.
  induction l as [|c l IH]; [done|]. cbn. destruct (is_white c); [|done].
  by apply suffix_cons_r.
Qed.

Lemma trim_list_fixed l :
  let r := rev (drop_white (rev (drop_white l))) in
  rev (drop_white (rev (drop_white r))) = r.
Proof.
  intros r.
  pose proof (drop_white_head l) as Ha.
  pose proof (drop_white_head (rev (drop_white l))) as Hb.
  pose proof (drop_white_suffix (rev (drop_white l))) as [k Hk].
  assert (Hr : drop_white r = r).
  { apply drop_white_fixed. unfold r.
    destruct (drop_white l) as [|c a] eqn:Hdl; [done|].
    apply (f_equal (@rev _)) in Hk. rewrite rev_app_distr, rev_involutive in Hk.
    destruct (rev (drop_white (rev (c :: a)))) as [|c' r'] eqn:Hrr; [done|].
    cbn in Hk. by injection Hk as -> _. }
  rewrite Hr. unfold r at 1. rewrite rev_involutive.
  by rewrite (drop_white_fixed _ Hb).
Qed.

Lemma trim_idempotent s : trim (trim s) = trim s.
Proof.
  unfold trim. rewrite String.list_ascii_of_string_of_list_ascii.
  f_equal. apply trim_list_fixed.
Qed.

Section MoreHandlers.
Import Server.

Lemma has_id_id_of i t : has_id i t = true ↔ id_of t = Some i.
Proof.
  unfold has_id, id_of. destruct (t !! "id") as [[]|]; try (split; done).
  rewrite bool_decide_eq_true. split; [by intros ->|by intros [= ->]].
Qed.

Lemma filter_length_Forall {A} (P : A → Prop) `{!∀ x, Decision (P x)} (l : list A) :
  length (filter P l) = length l ↔ Forall P l.
Proof.
  induction l as [|x l IH]; [by split|].
  rewrite filter_cons. destruct (decide (P x)) as [Hx|Hx].
  - cbn. rewrite Forall_cons. split.
    + intros [= Hlen]. split; [done|by apply IH].
    + intros [_ Hl]. f_equal. by apply IH.
  - split.
    + intros Hlen. pose proof (length_filter P l). cbn in Hlen. lia.
    + by intros [? _]%Forall_cons.
Qed.

Lemma delete_todo_found todos i :
  i ∈ omap id_of todos →
  delete_todo (Returns todos) true (Some i)
  = {| reply := SendEnd 204;
       written := Some (filter (λ t, negb (has_id i t)) todos) |}.
Proof.
  intros (t & Ht & Hid)%list_elem_of_omap. unfold delete_todo.
  rewrite bool_decide_eq_false_2; [done|].
  intros Hall%filter_length_Forall. rewrite Forall_forall in Hall.
  specialize (Hall t Ht). apply has_id_id_of in Hid. by rewrite Hid in Hall.
Qed.

Lemma delete_todo_missing todos i :
  i ∉ omap id_of todos →
  delete_todo (Returns todos) true (Some i) = respond (error 404 "Todo not found").
Proof.
  intros Hno. unfold delete_todo.
  rewrite bool_decide_eq_true_2; [done|].
  apply filter_length_Forall, Forall_forall. intros t Ht.
  destruct (has_id i t) eqn:Hid; [|done].
  destruct Hno. apply list_elem_of_omap. exists t. split; [done|by apply has_id_id_of].
Qed.

End MoreHandlers.

(** X2.  Deleting an id that is stored answers 204 and writes the list
    without every record of that id, the other records kept in their
    order; a second delete of the same id then finds nothing and answers
    404.  Deleting an id that is not stored answers 404 and writes
    nothing. *)
Theorem delete_removes_every_record_of_id (todos : list JsObject) (i : Z) :
  (i ∈ omap Server.id_of todos →
     ∃ rest,
       Server.delete_todo (Returns todos) true (Some i)
         = {| Server.reply := Server.SendEnd 204; Server.written := Some rest |}
       ∧ rest `sublist_of` todos
       ∧ (∀ t, t ∈ rest ↔ t ∈ todos ∧ Server.id_of t ≠ Some i)
       ∧ Server.delete_todo (Returns rest) true (Some i)
         = Server.respond (Server.error 404 "Todo not found"))
  ∧ (i ∉ omap Server.id_of todos →
       Server.delete_todo (Returns todos) true (Some i)
       = Server.respond (Server.error 404 "Todo not found")).
Proof.
  split; [|apply delete_todo_missing].
  intros Hin. eexists. split; [by apply delete_todo_found|].
  assert (Hrest : ∀ t, t ∈ filter (λ t, negb (Server.has_id i t)) todos
                       ↔ t ∈ todos ∧ Server.id_of t ≠ Some i).
  { intros t. rewrite list_elem_of_filter, <- has_id_id_of.
    destruct (Server.has_id i t); cbn; intuition congruence. }
  split; [apply sublist_filter|]. split; [done|].
  apply delete_todo_missing.
  intros (t & Ht & Hid)%list_elem_of_omap. apply Hrest in Ht. tauto.
Qed.

Section PutShape.
Import Server.

Lemma put_todo_written todos wr i body l :
  written (put_todo (Returns todos) wr (Some i) body) = Some l →
  ∃ idx old,
    findIndex (has_id i) todos = Some idx ∧ todos !! idx = Some old
    ∧ check_update body = None ∧ wr = true
    ∧ l = <[idx := merge_update old (build_update body) i]> todos.
Proof.
  unfold put_todo. destruct (check_update body); [done|].
  destruct (findIndex (has_id i) todos) as [idx|] eqn:Hidx; [|done].
  destruct wr; [|done]. cbn. intros [= <-].
  destruct (findIndex_Some _ _ _ Hidx) as (old & Hold & _).
  exists idx, old. by rewrite Hold.
Qed.

Lemma id_of_merge_update old update i : id_of (merge_update old update i) = Some i.
Proof. unfold id_of, merge_update. by rewrite lookup_insert_eq. Qed.

End PutShape.

(** X3.  An update that is written changes one record only: the first
    stored record of the id.  The list keeps its length, every position
    keeps its id, every other record (a later record of the same id
    included) is as it was, and the reply carries the record now stored
    at that position. *)
Theorem put_touches_first_match_only
    (todos : list JsObject) (wr : bool) (i : Z) (body : JsObject) (l : list JsObject) :
  Server.written (Server.put_todo (Returns todos) wr (Some i) body) = Some l →
  length l = length todos
  ∧ Server.id_of <$> l = Server.id_of <$> todos
  ∧ ∃ idx old new,
      todos !! idx = Some old ∧ Server.id_of old = Some i
      ∧ l !! idx = Some new
      ∧ Server.reply (Server.put_todo (Returns todos) wr (Some i) body)
        = Server.SendJson 200 (JObj new)
      ∧ (∀ k, k ≠ idx → l !! k = todos !! k)
      ∧ (∀ k t, (k < idx)%nat → todos !! k = Some t → Server.id_of t ≠ Some i).
Proof.
  intros Hl.
  destruct (put_todo_written _ _ _ _ _ Hl) as (idx & old & Hidx & Hold & Hcheck & -> & ->).
  destruct (findIndex_Some _ _ _ Hidx) as (x & Hx & Hpx & Hfirst).
  rewrite Hold in Hx. injection Hx as <-.
  apply has_id_id_of in Hpx.
  split; [apply length_insert|]. split.
  { rewrite list_fmap_insert, id_of_merge_update, <- Hpx.
    apply list_insert_id. by rewrite list_lookup_fmap, Hold. }
  exists idx, old, (Server.merge_update old (Server.build_update body) i).
  split; [done|]. split; [done|]. split.
  { apply list_lookup_insert_eq. by eapply lookup_lt_Some. }
  split.
  { rewrite (put_todo_found todos i body idx old Hidx Hold). by rewrite Hcheck. }
  split.
  - intros k Hk. by apply list_lookup_insert_ne.
  - intros k t Hk Ht Hid. apply has_id_id_of in Hid.
    by rewrite (Hfirst k t Ht Hk) in Hid.
Qed.

Lemma put_touches_first_match_only_witness :
  let todos := [sample_todo 1 "a"; sample_todo 2 "b"; sample_todo 2 "c"] in
  let l := [sample_todo 1 "a"; <["text" := JStr "d"]> (sample_todo 2 "b"); sample_todo 2 "c"] in
  Server.written (Server.put_todo (Returns todos) true (Some 2) (text_body "d")) = Some l
  ∧ length l = length todos
  ∧ Server.id_of <$> l = Server.id_of <$> todos.
Proof.
  intros todos l.
  assert (Hl : Server.written (Server.put_todo (Returns todos) true (Some 2) (text_body "d"))
               = Some l) by reflexivity.
  destruct (put_touches_first_match_only todos true 2 (text_body "d") l Hl)
    as (Hlen & Hids & _).
  split; [exact Hl|]. split; [exact Hlen|exact Hids].
Defined.

Section Invariants.
Import Server.

Lemma updated_fields old body i :
  old !! "id" = Some (JNum i) →
  let new := merge_update old (build_update body) i in
  new !! "id" = Some (JNum i)
  ∧ new !! "text" = from_option Some (old !! "text") (body !! "text")
  ∧ new !! "completed" = from_option Some (old !! "completed") (body !! "completed")
  ∧ new !! "completedAt" = from_option Some (old !! "completedAt") (body !! "completedAt")
  ∧ new !! "priority" = from_option Some (old !! "priority") (body !! "priority")
  ∧ new !! "dueDate" = from_option Some (old !! "dueDate") (body !! "dueDate").
Proof.
  intros Hid new. unfold new. rewrite !updated_lookup by done.
  rewrite decide_False by apply id_not_allowed.
  rewrite !decide_True by (apply allowed_fields; tauto). done.
Qed.

Lemma check_update_None body :
  check_update body = None
  ↔ check_text body = None ∧ check_priority body = None ∧ check_dueDate body = None.
Proof.
  unfold check_update.
  destruct (check_text body); [by split; [|intros [? _]]|].
  destruct (check_priority body); [by split; [|intros (_ & ? & _)]|].
  by split; [|intros (_ & _ & ?)].
Qed.

Lemma check_text_None body v :
  check_text body = None → body !! "text" = Some v →
  ∃ s, v = JStr s ∧ trim s ≠ "" ∧ (String.length (trim s) ≤ MAX_TEXT_LENGTH)%nat.
Proof.
  unfold check_text. intros Hcheck Hv. rewrite Hv in Hcheck.
  destruct v as [| | |s| |]; try done.
  case_bool_decide; [done|].
  destruct (_ <? _)%nat eqn:Hlen; [done|]. apply Nat.ltb_ge in Hlen.
  by exists s.
Qed.

Lemma check_priority_None body v :
  check_priority body = None → body !! "priority" = Some v → valid_priority v = true.
Proof.
  unfold check_priority. intros Hcheck Hv. rewrite Hv in Hcheck.
  by destruct (valid_priority v).
Qed.

Lemma check_dueDate_None body v :
  check_dueDate body = None → body !! "dueDate" = Some v → bad_dueDate v = false.
Proof.
  unfold check_dueDate. intros Hcheck Hv. rewrite Hv in Hcheck.
  by destruct (bad_dueDate v).
Qed.

Lemma checked_updated old body i :
  old !! "id" = Some (JNum i) → checked_record old → check_update body = None →
  checked_record (merge_update old (build_update body) i).
Proof.
  intros Hid (Htext & Hprio & Hdue) (Hct & Hcp & Hcd)%check_update_None.
  destruct (updated_fields old body i Hid) as (_ & Ht & _ & _ & Hp & Hd).
  unfold checked_record. rewrite Ht, Hp, Hd. split_and!.
  - destruct (body !! "text") as [v|] eqn:Hv; [|done].
    destruct (check_text_None body v Hct Hv) as (s & -> & ?). by exists s.
  - destruct (body !! "priority") as [v|] eqn:Hv; [|done].
    exists v. split; [done|]. by eapply check_priority_None.
  - destruct (body !! "dueDate") as [v|] eqn:Hv; [|done].
    exists v. split; [done|]. by eapply check_dueDate_None.
Qed.

Lemma post_todos_written todos wr now body l :
  written (post_todos (Returns todos) wr now body) = Some l →
  ∃ text,
    body !! "text" = Some (JStr text) ∧ trim text ≠ ""
    ∧ (String.length (trim text) ≤ MAX_TEXT_LENGTH)%nat
    ∧ valid_priority (default (JStr "medium") (body !! "priority")) = true
    ∧ bad_dueDate (default JNull (body !! "dueDate")) = false
    ∧ l = todos ++ [new_todo now text (default (JStr "medium") (body !! "priority"))
                      (default JNull (body !! "dueDate"))].
Proof.
  unfold post_todos.
  destruct (body !! "text") as [[| | |text| |]|]; try done.
  case_bool_decide; [done|].
  destruct (_ <? _)%nat eqn:Hlen; [done|]. apply Nat.ltb_ge in Hlen.
  destruct (valid_priority _) eqn:Hprio; [|done].
  destruct (bad_dueDate _) eqn:Hdue; [done|]. cbn [negb].
  destruct wr; [|done]. cbn. intros [= <-]. by exists text.
Qed.

Lemma checked_new_todo now text priority dueDate :
  trim text ≠ "" → (String.length (trim text) ≤ MAX_TEXT_LENGTH)%nat →
  valid_priority priority = true → bad_dueDate dueDate = false →
  checked_record (new_todo now text priority dueDate).
Proof.
  intros Htext Hlen Hprio Hdue.
  destruct (new_todo_fields now text priority dueDate) as (_ & Ht & _ & Hp & Hd & _).
  unfold checked_record. rewrite Ht, Hp, Hd. split_and!.
  - exists (trim text). by rewrite trim_idempotent.
  - by exists priority.
  - by exists dueDate.
Qed.

Lemma reordered_elem todos ids t : t ∈ reordered todos ids → t ∈ todos.
Proof.
  unfold reordered. intros (n & _ & Hn)%list_elem_of_omap.
  by apply todoMap_lookup_Some in Hn as [? _].
Qed.

Lemma patch_reorder_written todos wr body l :
  written (patch_reorder (Returns todos) wr body) = Some l →
  ∃ ids, number_array (body !! "ids") = Some ids ∧ l = reordered todos ids
         ∧ length l = length todos.
Proof.
  unfold patch_reorder. destruct (number_array _) as [ids|]; [|done].
  case_bool_decide as Hlen; [done|]. destruct wr; [|done]. cbn. intros [= <-].
  exists ids. split_and!; [done..|]. by destruct (decide (length (reordered todos ids) = length todos)).
Qed.

Lemma delete_todo_written todos wr id l :
  written (delete_todo (Returns todos) wr id) = Some l →
  ∃ i, id = Some i ∧ l = filter (λ t, negb (has_id i t)) todos.
Proof.
  unfold delete_todo. destruct id as [i|]; [|done].
  case_bool_decide; [done|]. destruct wr; [|done]. cbn. intros [= <-]. by exists i.
Qed.

(** What the handlers keep of a property every stored record has. *)
Lemma post_todos_keeps (P : JsObject → Prop) todos wr now body :
  (∀ text priority dueDate,
      trim text ≠ "" → (String.length (trim text) ≤ MAX_TEXT_LENGTH)%nat →
      valid_priority priority = true → bad_dueDate dueDate = false →
      P (new_todo now text priority dueDate)) →
  Forall P todos →
  Forall P (store_after todos (post_todos (Returns todos) wr now body)).
Proof.
  intros Hnew Hall. unfold store_after.
  destruct (written (post_todos _ _ _ _)) as [l|] eqn:Hl; [|done]. cbn.
  apply post_todos_written in Hl as (text & _ & ? & ? & ? & ? & ->).
  apply Forall_app. split; [done|]. apply Forall_singleton. by apply Hnew.
Qed.

Lemma put_todo_keeps (P : JsObject → Prop) todos wr id body :
  (∀ old i, old !! "id" = Some (JNum i) → P old → check_update body = None →
            P (merge_update old (build_update body) i)) →
  Forall P todos →
  Forall P (store_after todos (put_todo (Returns todos) wr id body)).
Proof.
  intros Hupd Hall. unfold store_after.
  destruct (written (put_todo _ _ _ _)) as [l|] eqn:Hl; [|done]. cbn.
  destruct id as [i|]; [|done].
  apply put_todo_written in Hl as (idx & old & Hidx & Hold & Hcheck & _ & ->).
  apply Forall_insert; [done|].
  destruct (findIndex_Some _ _ _ Hidx) as (x & Hx & Hpx & _).
  rewrite Hold in Hx. injection Hx as <-.
  apply Hupd; [by apply has_id_lookup| |done].
  rewrite Forall_forall in Hall. apply Hall. by eapply list_elem_of_lookup_2.
Qed.

Lemma delete_todo_keeps (P : JsObject → Prop) todos wr id :
  Forall P todos → Forall P (store_after todos (delete_todo (Returns todos) wr id)).
Proof.
  intros Hall. unfold store_after.
  destruct (written (delete_todo _ _ _)) as [l|] eqn:Hl; [|done]. cbn.
  apply delete_todo_written in Hl as (i & _ & ->).
  rewrite Forall_forall in Hall. apply Forall_forall.
  intros t [_ Ht]%list_elem_of_filter. by apply Hall.
Qed.

Lemma patch_reorder_keeps (P : JsObject → Prop) todos wr body :
  Forall P todos → Forall P (store_after todos (patch_reorder (Returns todos) wr body)).
Proof.
  intros Hall. unfold store_after.
  destruct (written (patch_reorder _ _ _)) as [l|] eqn:Hl; [|done]. cbn.
  apply patch_reorder_written in Hl as (ids & _ & -> & _).
  rewrite Forall_forall in Hall. apply Forall_forall.
  intros t Ht%reordered_elem. by apply Hall.
Qed.

(** A record has a view exactly when its properties have the types of
    the client's interface. *)
Lemma view_is_Some j :
  is_Some (Wire.view j)
  ↔ (∃ n, j !! "id" = Some (JNum n))
    ∧ (∃ s, j !! "text" = Some (JStr s))
    ∧ (∃ b, j !! "completed" = Some (JBool b))
    ∧ (∃ s, j !! "priority" = Some (JStr s) ∧ is_Some (Wire.priority_named s))
    ∧ is_Some (Wire.opt_string (j !! "dueDate"))
    ∧ is_Some (Wire.opt_number (j !! "completedAt")).
Proof.
  unfold Wire.view. split.
  - intros [t Ht].
    destruct (j !! "id") as [[| |n| | |]|]; try done.
    destruct (j !! "text") as [[| | |s| |]|]; try done.
    destruct (j !! "completed") as [[|c| | | |]|]; try done.
    destruct (j !! "priority") as [[| | |q| |]|]; try done.
    destruct (Wire.priority_named q) as [pr|] eqn:Hq; [|done]. cbn in Ht.
    destruct (Wire.opt_string (j !! "dueDate")) as [d|]; [|done]. cbn in Ht.
    destruct (Wire.opt_number (j !! "completedAt")) as [a|]; [|done].
    split_and!; eauto.
  - intros ([n ->] & [s ->] & [b ->] & (q & -> & [pr ->]) & [d ->] & [a ->]).
    by eexists.
Qed.

Lemma view_updated_is_Some old body i :
  old !! "id" = Some (JNum i) → is_Some (Wire.view old) → check_update body = None →
  Wire.typed_completion body →
  is_Some (Wire.view (merge_update old (build_update body) i)).
Proof.
  intros Hid (_ & Htext & Hdone & Hprio & Hdue & Hat)%view_is_Some
    (Hct & Hcp & Hcd)%check_update_None [Hc Ha].
  destruct (updated_fields old body i Hid) as (H1 & H2 & H3 & H4 & H5 & H6).
  apply view_is_Some. rewrite H1, H2, H3, H4, H5, H6. split_and!.
  - by exists i.
  - destruct (body !! "text") as [v|] eqn:Hv; [|done].
    destruct (check_text_None body v Hct Hv) as (s & -> & _). by exists s.
  - destruct (body !! "completed") as [v|] eqn:Hv; [|done].
    destruct (Hc v eq_refl) as [b ->]. by exists b.
  - destruct (body !! "priority") as [v|] eqn:Hv; [|done].
    apply (check_priority_None body v Hcp) in Hv.
    apply valid_priority_named in Hv as (s & p & -> & Hp). exists s. by rewrite Hp.
  - destruct (body !! "dueDate") as [v|] eqn:Hv; [|done].
    apply (check_dueDate_None body v Hcd) in Hv.
    apply good_dueDate_opt_string in Hv as [d Hd]. by exists d.
  - destruct (body !! "completedAt") as [v|] eqn:Hv; [|done].
    destruct (Ha v eq_refl) as [->|[n ->]]; by eexists.
Qed.

End Invariants.

(** X4.  The field checks hold of the store, not only of the requests:
    when every stored record has a [text] that is non-blank and at most
    500 characters long once trimmed, a [priority] among low, medium and
    high, and a [dueDate] that is null or in the format YYYY-MM-DD, the
    same is true after a create, an update, a delete or a reorder,
    whatever the body and whether or not the request is accepted. *)
Theorem handlers_keep_checked_fields
    (todos : list JsObject) (wr : bool) (now : Z) (id : option Z) (body : JsObject) :
  Server.checked_store todos →
  Server.checked_store (Server.store_after todos (Server.post_todos (Returns todos) wr now body))
  ∧ Server.checked_store (Server.store_after todos (Server.put_todo (Returns todos) wr id body))
  ∧ Server.checked_store (Server.store_after todos (Server.delete_todo (Returns todos) wr id))
  ∧ Server.checked_store (Server.store_after todos (Server.patch_reorder (Returns todos) wr body)).
Proof.
  intros Hall. split_and!.
  - apply post_todos_keeps; [|done]. intros. by apply checked_new_todo.
  - apply put_todo_keeps; [|done]. intros old i ? ? ?. by apply checked_updated.
  - by apply delete_todo_keeps.
  - by apply patch_reorder_keeps.
Qed.

Lemma handlers_keep_checked_fields_witness :
  Server.checked_store
    (Server.store_after sample_list
       (Server.put_todo (Returns sample_list) true (Some 2) (text_body "  c  "))).
Proof.
  apply (handlers_keep_checked_fields sample_list true 0 (Some 2) (text_body "  c  ")).
  apply Forall_cons; split; [|apply Forall_singleton].
  all: unfold sample_todo; apply checked_new_todo;
    [by vm_compute|by apply Nat.leb_le|reflexivity..].
Defined.

(** X5.  Under the client's interface a stored record is a todo when its
    properties have the declared types.  If every stored record is one,
    so is every record after a create, a delete or a reorder, whatever
    the body; and after an update whose [completed] and [completedAt],
    when the body has them, are a boolean and a number or null (the two
    properties the update handler does not check). *)
Theorem handlers_keep_typed_store
    (todos : list JsObject) (wr : bool) (now : Z) (id : option Z) (body : JsObject) :
  Wire.typed_store todos →
  Wire.typed_store (Server.store_after todos (Server.post_todos (Returns todos) wr now body))
  ∧ Wire.typed_store (Server.store_after todos (Server.delete_todo (Returns todos) wr id))
  ∧ Wire.typed_store (Server.store_after todos (Server.patch_reorder (Returns todos) wr body))
  ∧ (Wire.typed_completion body →
       Wire.typed_store (Server.store_after todos (Server.put_todo (Returns todos) wr id body))).
Proof.
  intros Hall. split_and!.
  - apply post_todos_keeps; [|done]. intros text priority dueDate _ _ Hp Hd.
    destruct (view_new_todo now text priority dueDate Hp Hd) as (t & Ht & _).
    by exists t.
  - by apply delete_todo_keeps.
  - by apply patch_reorder_keeps.
  - intros Htyped. apply put_todo_keeps; [|done].
    intros old i ? ? ?. by apply view_updated_is_Some.
Qed.

Lemma handlers_keep_typed_store_witness :
  Wire.typed_store
    (Server.store_after sample_list
       (Server.post_todos (Returns sample_list) true 9 (text_body "c"))).
Proof.
  apply (handlers_keep_typed_store sample_list true 9 None (text_body "c")).
  apply Forall_cons; split; [|apply Forall_singleton].
  all: by eexists.
Defined.

Section ReorderDistinct.
Import Server.

Lemma NoDup_omap_inv {A B} (f : A → option B) (l : list A) :
  Forall (λ x, is_Some (f x)) l → NoDup (omap f l) → NoDup l.
Proof.
  induction l as [|x l IH]; [constructor|].
  intros [[y Hy] Hl]%Forall_cons. cbn. rewrite Hy. cbn.
  intros [Hnin Hnd]%NoDup_cons. constructor; [|by apply IH].
  intros Hin. apply Hnin, list_elem_of_omap. by exists x.
Qed.

Lemma reordered_cons todos n ids :
  reordered todos (n :: ids)
  = match todoMap todos !! n with
    | Some t => t :: reordered todos ids
    | None => reordered todos ids
    end.
Proof. done. Qed.

Lemma reordered_NoDup todos ids : NoDup ids → NoDup (reordered todos ids).
Proof.
  induction ids as [|n ids IH]; [constructor|].
  intros [Hnin Hnd]%NoDup_cons. rewrite reordered_cons.
  destruct (todoMap todos !! n) as [t|] eqn:Hn; [|by apply IH].
  constructor; [|by apply IH].
  intros (m & Hm & Hmt)%list_elem_of_omap.
  apply todoMap_lookup_Some in Hn as [_ Hn]. apply todoMap_lookup_Some in Hmt as [_ Hmt].
  rewrite Hn in Hmt. by injection Hmt as ->.
Qed.

Lemma reordered_ids todos ids :
  NoDup (omap id_of todos) →
  omap id_of (reordered todos ids) = filter (λ n, n ∈ omap id_of todos) ids.
Proof.
  intros Hnd. induction ids as [|n ids IH]; [done|].
  rewrite reordered_cons, filter_cons.
  destruct (todoMap todos !! n) as [t|] eqn:Hn.
  - apply todoMap_lookup_Some in Hn as [Hin Hid].
    rewrite decide_True by (apply list_elem_of_omap; eauto).
    cbn. rewrite Hid. cbn. by rewrite IH.
  - rewrite decide_False; [done|].
    intros (t & Hin & Hid)%list_elem_of_omap.
    by rewrite (todoMap_lookup_elem todos n t Hnd Hin Hid) in Hn.
Qed.

Lemma reordered_length_distinct todos ids :
  Forall (λ t, is_Some (id_of t)) todos → NoDup (omap id_of todos) → NoDup ids →
  (length (reordered todos ids) = length todos ↔ omap id_of todos ⊆ ids)
  ∧ (length (reordered todos ids) = length todos → reordered todos ids ≡ₚ todos).
Proof.
  intros Hids Hnd Hdist.
  assert (Hsub : reordered todos ids ⊆+ todos).
  { apply NoDup_submseteq; [by apply reordered_NoDup|]. intros t. apply reordered_elem. }
  assert (Hperm : length (reordered todos ids) = length todos →
                  reordered todos ids ≡ₚ todos).
  { intros Hlen. apply submseteq_length_Permutation; [done|lia]. }
  split; [|done]. split.
  - intros Hlen n Hn. pose proof (Hperm Hlen) as Hp.
    rewrite <- Hp, reordered_ids in Hn by done.
    by apply list_elem_of_filter in Hn as [_ ?].
  - intros Hall. apply submseteq_length in Hsub.
    assert (Hsup : todos ⊆+ reordered todos ids).
    { apply NoDup_submseteq; [by eapply NoDup_omap_inv|].
      intros t Ht. rewrite Forall_forall in Hids. destruct (Hids t Ht) as [n Hn].
      apply list_elem_of_omap. exists n. split.
      - apply Hall, list_elem_of_omap. eauto.
      - by apply todoMap_lookup_elem. }
    apply submseteq_length in Hsup. lia.
Qed.

End ReorderDistinct.

(** X6.  When the stored ids are numbers without repetition and the
    request names no id twice, the reorder handler accepts the request
    exactly when every stored id is among the ids named; an id that is
    not stored is passed over.  What it then writes is a permutation of
    the stored list, in the order of the request: no record is lost and
    none is written twice. *)
Theorem reorder_distinct_ids_permutes
    (todos : list JsObject) (body : JsObject) (ids : list Z) :
  Server.number_array (body !! "ids") = Some ids →
  Forall (λ t, is_Some (Server.id_of t)) todos →
  NoDup (omap Server.id_of todos) →
  NoDup ids →
  (Server.status_of (Server.reply (Server.patch_reorder (Returns todos) true body)) = 200
   ↔ omap Server.id_of todos ⊆ ids)
  ∧ ∀ r, Server.written (Server.patch_reorder (Returns todos) true body) = Some r →
         r ≡ₚ todos
         ∧ omap Server.id_of r = filter (λ n, n ∈ omap Server.id_of todos) ids
         ∧ Server.reply (Server.patch_reorder (Returns todos) true body)
           = Server.SendJson 200 (JArr (JObj <$> r)).
Proof.
  intros Hbody Hids Hnd Hdist.
  destruct (reordered_length_distinct todos ids Hids Hnd Hdist) as [Hlen Hperm].
  unfold Server.patch_reorder. rewrite Hbody. split.
  - rewrite <- Hlen. case_bool_decide as Hne; cbn.
    + split; [done|]. intros Heq. by destruct Hne.
    + split; [|done]. intros _.
      by destruct (decide (length (Server.reordered todos ids) = length todos)).
  - intros r. case_bool_decide as Hne; [done|]. cbn. intros [= <-].
    split_and!; [|by apply reordered_ids|reflexivity].
    apply Hperm.
    by destruct (decide (length (Server.reordered todos ids) = length todos)).
Qed.

Lemma reorder_distinct_ids_permutes_witness :
  Server.status_of
    (Server.reply (Server.patch_reorder (Returns sample_list) true (ids_body [2; 7; 1]))) = 200.
Proof.
  apply (reorder_distinct_ids_permutes sample_list (ids_body [2; 7; 1]) [2; 7; 1]).
  - reflexivity.
  - apply Forall_cons; split; [|apply Forall_singleton]; by eexists.
  - change (NoDup [1; 2]). apply (bool_decide_unpack _). vm_compute. exact I.
  - apply (bool_decide_unpack _). vm_compute. exact I.
  - change (([1; 2] : list Z) ⊆ [2; 7; 1]). apply (bool_decide_unpack _). vm_compute. exact I.
Defined.

(** ** Accounts and sessions *)

Section Accounts.
Import Server.


Lemma find_user_None name users :
  find_user name users = None ↔ name ∉ (username <$> users).
Proof.
  unfold find_user. induction users as [|u users IH]; cbn.
  - split; [intros _; apply not_elem_of_nil|done].
  - rewrite not_elem_of_cons. case_bool_decide as Hu.
    + split; [done|]. by intros [? _].
    + rewrite IH. split; [by split|tauto].
Qed.

Lemma find_user_snoc name users u :
  find_user name users = None → username u = name →
  find_user name (users ++ [u]) = Some u.
Proof.
  unfold find_user. intros Hnone Hu.
  induction users as [|v users IH]; cbn in *.
  - by rewrite bool_decide_eq_true_2.
  - destruct (bool_decide (username v = name)); [done|]. by apply IH.
Qed.


Lemma register_written (bcrypt_hash createSession : string → string) rdu wru body l :
  written_users (register bcrypt_hash createSession rdu wru body) = Some l →
  ∃ name password users,
    body !! "username" = Some (JStr name) ∧ body !! "password" = Some (JStr password)
    ∧ USERNAME_REGEX_test (trim name) = true
    ∧ (6 ≤ String.length password)%nat
    ∧ rdu = Returns users ∧ wru = true
    ∧ find_user (trim name) users = None
    ∧ l = users ++ [{| username := trim name; passwordHash := bcrypt_hash password |}]
    ∧ user_reply (register bcrypt_hash createSession rdu wru body)
      = session_reply createSession 201 (trim name).
Proof.
  unfold register.
  destruct (body !! "username") as [[| | |name| |]|]; try done.
  destruct (USERNAME_REGEX_test (trim name)) eqn:Hname; [|done]. cbn [negb].
  destruct (body !! "password") as [[| | |password| |]|]; try done.
  destruct (_ <? _)%nat eqn:Hlen; [done|]. apply Nat.ltb_ge in Hlen.
  destruct rdu as [users|]; [|done].
  destruct (find_user (trim name) users) eqn:Hfind; [done|].
  destruct wru; [|done]. cbn. intros [= <-].
  exists name, password, users. by split_and!.
Qed.

Lemma USERNAME_REGEX_test_nonempty s : USERNAME_REGEX_test s = true → s ≠ "".
Proof. by intros H ->. Qed.

Lemma trim_empty : trim "" = "".
Proof. reflexivity. Qed.

End Accounts.

(** X7.  Registering keeps the accounts document well formed: when it
    names every user once, by a name of 3 to 32 letters, digits,
    underscores and dashes, so does the document a registration writes.
    The document grows at its end by one account, for the trimmed name,
    which was not in use; what is stored with it is the bcrypt hash of
    the password, not the password. *)
Theorem register_keeps_accounts_ok
    (bcrypt_hash createSession : string → string)
    (users : list Server.User) (wru : bool) (body : JsObject) (l : list Server.User) :
  Server.accounts_ok users →
  Server.written_users (Server.register bcrypt_hash createSession (Returns users) wru body)
    = Some l →
  Server.accounts_ok l
  ∧ ∃ name password,
      body !! "username" = Some (JStr name) ∧ body !! "password" = Some (JStr password)
      ∧ (trim name ∉ Server.username <$> users)
      ∧ l = users ++ [{| Server.username := trim name;
                         Server.passwordHash := bcrypt_hash password |}].
Proof.
  intros [Hnd Hnames] Hl.
  apply register_written in Hl
    as (name & password & ? & Hname & Hpw & Hre & _ & [= <-] & _ & Hfind & -> & _).
  apply find_user_None in Hfind. split.
  - split.
    + rewrite fmap_app. apply NoDup_app. split; [done|]. split.
      * intros n Hn ->%list_elem_of_singleton. done.
      * apply NoDup_singleton.
    + apply Forall_app. split; [done|]. by apply Forall_singleton.
  - by exists name, password.
Qed.

Lemma register_keeps_accounts_ok_witness :
  Server.accounts_ok
    (sample_users ++ [{| Server.username := "cy_1"; Server.passwordHash := "$2opensesame" |}]).
Proof.
  destruct (register_keeps_accounts_ok toy_hash toy_sign sample_users true
              (Login.credentials " cy_1 " "opensesame")
              (sample_users ++ [{| Server.username := "cy_1";
                                   Server.passwordHash := "$2opensesame" |}])) as [Hok _];
    [| reflexivity | exact Hok].
  split.
  - apply (bool_decide_unpack _). vm_compute. exact I.
  - repeat constructor.
Defined.

Section LoginHandler.
Import Server.

Lemma login_checked (cmp : string → string → bool) (sha sign : string → string)
    users body name password :
  body !! "username" = Some (JStr name) → body !! "password" = Some (JStr password) →
  name ≠ "" → password ≠ "" →
  login cmp sha sign (Returns users) body
  = match find_user (trim name) users with
    | Some user =>
        if verifyPassword cmp sha password (passwordHash user)
        then session_reply sign 200 (username user)
        else error 401 "Invalid credentials"
    | None => error 401 "Invalid credentials"
    end.
Proof.
  intros Hname Hpw Hn Hp. unfold login. rewrite Hname, Hpw.
  by rewrite !bool_decide_eq_false_2.
Qed.

Lemma verifyPassword_bcrypt (hash : string → string) (cmp : string → string → bool)
    (sha : string → string) password :
  String.prefix "$2" (hash password) = true → cmp password (hash password) = true →
  verifyPassword cmp sha password (hash password) = true.
Proof. intros Hpre Hcmp. unfold verifyPassword. by rewrite Hpre. Qed.

Lemma password_nonempty password : (6 ≤ String.length password)%nat → password ≠ "".
Proof. intros Hlen ->. cbn in Hlen. lia. Qed.

Lemma name_nonempty name : USERNAME_REGEX_test (trim name) = true → name ≠ "".
Proof. by intros Hre ->. Qed.

End LoginHandler.

(** X8.  An account that has just been registered can log in: with a
    bcrypt that verifies the hashes it makes, the login handler, run
    with the same body against the accounts document the registration
    wrote, answers 200 with a session for the trimmed name, the name the
    registration answered 201 with. *)
Theorem register_then_login
    (bcrypt_hash : string → string) (bcrypt_compare : string → string → bool)
    (sha256_hex createSession : string → string)
    (users : list Server.User) (body : JsObject) (l : list Server.User) :
  (∀ p, String.prefix "$2" (bcrypt_hash p) = true) →
  (∀ p, bcrypt_compare p (bcrypt_hash p) = true) →
  Server.written_users (Server.register bcrypt_hash createSession (Returns users) true body)
    = Some l →
  ∃ name,
    body !! "username" = Some (JStr name)
    ∧ Server.user_reply (Server.register bcrypt_hash createSession (Returns users) true body)
      = Server.session_reply createSession 201 (trim name)
    ∧ Server.login bcrypt_compare sha256_hex createSession (Returns l) body
      = Server.session_reply createSession 200 (trim name).
Proof.
  intros Hpre Hcmp Hl.
  apply register_written in Hl
    as (name & password & ? & Hname & Hpw & Hre & Hlen & [= <-] & _ & Hfind & -> & Hreply).
  exists name. split; [done|]. split; [done|].
  rewrite (login_checked _ _ _ _ body name password Hname Hpw
             (name_nonempty _ Hre) (password_nonempty _ Hlen)).
  rewrite (find_user_snoc (trim name) users
             {| Server.username := trim name;
                Server.passwordHash := bcrypt_hash password |} Hfind eq_refl). cbn.
  by rewrite verifyPassword_bcrypt.
Qed.

Lemma register_then_login_witness :
  Server.login toy_compare toy_digest toy_sign
    (Returns (sample_users ++ [{| Server.username := "cy_1";
                                  Server.passwordHash := "$2opensesame" |}]))
    (Login.credentials " cy_1 " "opensesame")
  = Server.session_reply toy_sign 200 "cy_1".
Proof.
  destruct (register_then_login toy_hash toy_compare toy_digest toy_sign sample_users
              (Login.credentials " cy_1 " "opensesame")
              (sample_users ++ [{| Server.username := "cy_1";
                                   Server.passwordHash := "$2opensesame" |}]))
    as (name & Hname & _ & Hlogin).
  - intros p. by destruct p.
  - intros p. unfold toy_compare, toy_hash. by apply bool_decide_eq_true_2.
  - reflexivity.
  - rewrite Hlogin. f_equal.
    assert (name = " cy_1 ") as ->; [|reflexivity].
    unfold Login.credentials in Hname. rewrite lookup_insert_eq in Hname. by injection Hname.
Defined.



(** X10.  The migration of a legacy hash, which [login] starts after a
    successful check, writes nothing for an account whose hash is a
    bcrypt hash already.  When it writes, the accounts document keeps
    its names in their order, every account of another name is as it
    was, and the account of that name now holds the bcrypt hash of the
    password, against which the same password verifies. *)
Theorem legacy_hash_upgrade
    (bcrypt_hash : string → string) (bcrypt_compare : string → string → bool)
    (sha256_hex : string → string)
    (users : list Server.User) (wru : bool) (user : Server.User) (password : string)
    (l : list Server.User) :
  (∀ p, String.prefix "$2" (bcrypt_hash p) = true) →
  (∀ p, bcrypt_compare p (bcrypt_hash p) = true) →
  NoDup (Server.username <$> users) →
  Server.upgradeHashIfLegacy bcrypt_hash (Returns users) wru user password = Some l →
  String.prefix "$2" (Server.passwordHash user) = false
  ∧ Server.username <$> l = Server.username <$> users
  ∧ (∀ k u, users !! k = Some u → Server.username u ≠ Server.username user →
            l !! k = Some u)
  ∧ (∀ u, u ∈ l → Server.username u = Server.username user →
          Server.passwordHash u = bcrypt_hash password
          ∧ Server.verifyPassword bcrypt_compare sha256_hex password
              (Server.passwordHash u) = true
          ∧ Server.upgradeHashIfLegacy bcrypt_hash (Returns l) wru u password = None).
Proof.
  intros Hpre Hcmp Hnd. unfold Server.upgradeHashIfLegacy at 1.
  destruct (String.prefix "$2" (Server.passwordHash user)) eqn:Hlegacy; [done|].
  destruct (findIndex _ users) as [idx|] eqn:Hidx; [|done].
  destruct wru; [|done]. intros [= <-].
  destruct (findIndex_Some _ _ _ Hidx) as (x & Hx & Hux%bool_decide_eq_true & _).
  set (f := λ u, {| Server.username := Server.username u;
                    Server.passwordHash := bcrypt_hash password |}).
  assert (Hnames : Server.username <$> alter f idx users = Server.username <$> users).
  { apply list_eq. intros k. rewrite !list_lookup_fmap, list_lookup_alter.
    case_decide as Hk; [|done]. subst k. by destruct (users !! idx). }
  split; [done|]. split; [done|]. split.
  - intros k u Hk Hne. rewrite list_lookup_alter_ne; [done|].
    intros <-. rewrite Hx in Hk. injection Hk as <-. done.
  - intros u [k Hk]%list_elem_of_lookup_1 Hu.
    assert (k = idx) as ->.
    { apply (NoDup_lookup _ k idx (Server.username user) Hnd).
      - rewrite <- Hnames, list_lookup_fmap, Hk. cbn. by rewrite Hu.
      - rewrite list_lookup_fmap, Hx. cbn. by rewrite Hux. }
    rewrite list_lookup_alter_eq, Hx in Hk. injection Hk as <-. cbn.
    split; [done|]. split; [by apply verifyPassword_bcrypt|].
    unfold Server.upgradeHashIfLegacy. cbn. by rewrite Hpre.
Qed.

Lemma legacy_hash_upgrade_witness :
  Server.username <$>
    [ {| Server.username := "ann"; Server.passwordHash := "$2secret" |};
      {| Server.username := "bob"; Server.passwordHash := "$2hunter22" |} ]
  = Server.username <$> sample_users.
Proof.
  destruct (legacy_hash_upgrade toy_hash toy_compare toy_digest sample_users true
              {| Server.username := "bob"; Server.passwordHash := "hunter22" |} "hunter22"
              [ {| Server.username := "ann"; Server.passwordHash := "$2secret" |};
                {| Server.username := "bob"; Server.passwordHash := "$2hunter22" |} ])
    as (_ & Hnames & _).
  - intros p. by destruct p.
  - intros p. unfold toy_compare, toy_hash. by apply bool_decide_eq_true_2.
  - apply (bool_decide_unpack _). vm_compute. exact I.
  - reflexivity.
  - exact Hnames.
Defined.

Section Header.
Import Server.

Lemma substring_all s : String.substring 0 (String.length s) s = s.
Proof. induction s as [|c s IH]; [done|]. cbn. by rewrite IH. Qed.

Lemma prefix_empty s : String.prefix "" s = true.
Proof. by destruct s. Qed.

Lemma bearer_prefix tok : String.prefix "Bearer " ("Bearer " +:+ tok) = true.
Proof. exact (prefix_empty tok). Qed.

Lemma substring_after_prefix p s :
  String.substring (String.length p) (String.length (p +:+ s) - String.length p) (p +:+ s) = s.
Proof.
  induction p as [|c p IH].
  - change ("" +:+ s) with s. cbn [String.length]. rewrite Nat.sub_0_r. apply substring_all.
  - exact IH.
Qed.

Lemma bearer_slice tok :
  String.substring 7 (String.length ("Bearer " +:+ tok) - 7) ("Bearer " +:+ tok) = tok.
Proof. exact (substring_after_prefix "Bearer " tok). Qed.

Lemma requireAuth_bearer (getSession : string → option string) tok :
  requireAuth getSession (Some ("Bearer " +:+ tok))
  = match getSession tok with
    | Some name => inr name
    | None => inl (error 401 "Unauthorized")
    end.
Proof. unfold requireAuth. by rewrite bearer_prefix, bearer_slice. Qed.

End Header.

(** X11.  The header the client's interceptor puts on a request is read
    back by [requireAuth] as the client's token: the request goes on as
    the user the token verifies for, and is answered 401 when the token
    does not verify or the client has no session.  So, with a [jwt] that
    verifies the tokens it signs, the token a login or a registration
    answers with, once the client has taken it, authenticates the next
    requests as that user, until the client logs out. *)
Theorem client_header_authenticates
    (JSON_stringify : AuthService.Session → string)
    (createSession : string → string) (getSession : string → option string)
    (name : string) (st : AuthService.State) (expired : bool) :
  getSession (createSession name) = Some name →
  Server.requireAuth getSession (AuthService.getAuthHeader st)
    = match AuthService.session st with
      | Some s => match getSession (AuthService.token s) with
                  | Some n => inr n
                  | None => inl (Server.error 401 "Unauthorized")
                  end
      | None => inl (Server.error 401 "Unauthorized")
      end
  ∧ Server.requireAuth getSession
      (AuthService.getAuthHeader
         (AuthService.loginWithToken JSON_stringify (createSession name) name st))
    = inr name
  ∧ Server.requireAuth getSession
      (AuthService.getAuthHeader (AuthService.logout expired st))
    = inl (Server.error 401 "Unauthorized").
Proof.
  intros Hjwt. split_and!.
  - unfold AuthService.getAuthHeader. destruct (AuthService.session st) as [s|]; [|done].
    apply requireAuth_bearer.
  - unfold AuthService.getAuthHeader, AuthService.loginWithToken.
    cbn [AuthService.session AuthService.token].
    by rewrite requireAuth_bearer, Hjwt.
  - done.
Qed.

Lemma client_header_authenticates_witness :
  Server.requireAuth toy_verify
    (AuthService.getAuthHeader
       (AuthService.loginWithToken (λ _, "{}") (toy_sign "ann") "ann"
          {| AuthService.session := None; AuthService.sessionExpired := false;
             AuthService.stored := None |}))
  = inr "ann".
Proof.
  destruct (client_header_authenticates (λ _, "{}") toy_sign toy_verify "ann"
              {| AuthService.session := None; AuthService.sessionExpired := false;
                 AuthService.stored := None |} false eq_refl) as (_ & Hin & _).
  exact Hin.
Defined.

Section SessionRuns.
Import AuthService.

Lemma step_expired_logged_out (JSON_stringify : Session → string) st e :
  (sessionExpired st = true → session st = None ∧ stored st = None) →
  sessionExpired (step JSON_stringify st e) = true →
  session (step JSON_stringify st e) = None ∧ stored (step JSON_stringify st e) = None.
Proof.
  intros Hst. destruct e as [tok name| |status]; cbn; [done..|].
  unfold on_error. by case_bool_decide.
Qed.

Lemma run_snoc (JSON_stringify : Session → string) st events e :
  run JSON_stringify st (events ++ [e])
  = step JSON_stringify (run JSON_stringify st events) e.
Proof. unfold run. by rewrite foldl_app. Qed.

Lemma run_expired_logged_out (JSON_stringify : Session → string) st events :
  sessionExpired st = false →
  sessionExpired (run JSON_stringify st events) = true →
  session (run JSON_stringify st events) = None
  ∧ stored (run JSON_stringify st events) = None.
Proof.
  intros Hst. induction events as [|e events IH] using rev_ind.
  - cbn. by rewrite Hst.
  - rewrite run_snoc. by apply step_expired_logged_out.
Qed.

End SessionRuns.

(** X12.  The client's session through any sequence of logins, logouts
    and failed requests, starting with the expired mark unset as the
    service is built: whenever the session is marked expired, the client
    is logged out and the item in the session storage is removed.  The
    mark is set by a request failing with 401 while logged in (which also
    ends the session), a request failing with another status changes
    nothing, and taking a token clears the mark. *)
Theorem session_expired_means_logged_out
    (JSON_stringify : AuthService.Session → string)
    (st : AuthService.State) (events : list AuthService.Event) :
  AuthService.sessionExpired st = false →
  (AuthService.sessionExpired (AuthService.run JSON_stringify st events) = true →
     AuthService.isLoggedIn (AuthService.run JSON_stringify st events) = false
     ∧ AuthService.stored (AuthService.run JSON_stringify st events) = None
     ∧ AuthService.getAuthHeader (AuthService.run JSON_stringify st events) = None)
  ∧ (AuthService.isLoggedIn (AuthService.run JSON_stringify st events) = true →
     AuthService.sessionExpired (AuthService.run JSON_stringify st (events ++ [AuthService.Failed 401])) = true
     ∧ AuthService.isLoggedIn (AuthService.run JSON_stringify st (events ++ [AuthService.Failed 401])) = false)
  ∧ (∀ status, status ≠ 401 →
       AuthService.run JSON_stringify st (events ++ [AuthService.Failed status]) = AuthService.run JSON_stringify st events)
  ∧ (∀ tok name,
       AuthService.sessionExpired (AuthService.run JSON_stringify st (events ++ [AuthService.LoggedIn tok name]))
         = false
       ∧ AuthService.isLoggedIn (AuthService.run JSON_stringify st (events ++ [AuthService.LoggedIn tok name]))
         = true).
Proof.
  intros Hst. split_and!.
  - intros Hexp. destruct (run_expired_logged_out _ _ _ Hst Hexp) as [Hs Hi].
    unfold AuthService.isLoggedIn, AuthService.getAuthHeader. by rewrite Hs.
  - intros Hin. rewrite run_snoc. cbn. unfold AuthService.on_error.
    rewrite bool_decide_eq_true_2 by done. cbn. by rewrite Hin.
  - intros status Hne. rewrite run_snoc. cbn. unfold AuthService.on_error.
    by rewrite bool_decide_eq_false_2.
  - intros tok name. by rewrite run_snoc.
Qed.

Lemma session_expired_means_logged_out_witness :
  let st := {| AuthService.session := None; AuthService.sessionExpired := false;
               AuthService.stored := None |} in
  let events := [AuthService.LoggedIn "t" "ann"; AuthService.Failed 500; AuthService.Failed 401] in
  AuthService.sessionExpired (AuthService.run (λ _, "{}") st events) = true
  ∧ AuthService.isLoggedIn (AuthService.run (λ _, "{}") st events) = false.
Proof.
  intros st events.
  destruct (session_expired_means_logged_out (λ _, "{}") st events eq_refl) as (Hexp & _).
  split; [reflexivity|]. by apply Hexp.
Defined.

(** ** Store writes *)

Section StoreWrites.
Import Storage.

Lemma safeName_valid s : Server.USERNAME_REGEX_test s = true → safeName s = s.
Proof.
  unfold Server.USERNAME_REGEX_test, safeName. cbv zeta.
  intros [[Hall _]%andb_prop _]%andb_prop.
  rewrite <- (String.string_of_list_ascii_of_string s) at 2. f_equal.
  induction (String.list_ascii_of_string s) as [|c l IH]; [done|].
  cbn in Hall. apply andb_prop in Hall as [Hc Hl].
  rewrite filter_cons, decide_True by by rewrite Hc. by rewrite IH.
Qed.

Lemma list_ascii_of_string_app s1 s2 :
  String.list_ascii_of_string (s1 +:+ s2)
  = String.list_ascii_of_string s1 ++ String.list_ascii_of_string s2.
Proof. induction s1 as [|c s1 IH]; [done|]. cbn. by rewrite <- IH. Qed.

Lemma append_inj_l s1 s2 x : s1 +:+ x = s2 +:+ x → s1 = s2.
Proof.
  intros H. apply (f_equal String.list_ascii_of_string) in H.
  rewrite !list_ascii_of_string_app in H. apply app_inv_tail in H.
  apply (f_equal String.string_of_list_ascii) in H.
  by rewrite !String.string_of_list_ascii_of_string in H.
Qed.

Lemma readLocal_text (JSON_parse : string → option Json) raw v :
  JSON_parse raw = Some v → readLocal JSON_parse (FileText raw) = Returns v.
Proof. intros H. cbn. by rewrite H. Qed.

Lemma readBlob_text (JSON_parse : string → option Json) raw v :
  raw ≠ "" → JSON_parse raw = Some v → readBlob JSON_parse (BlobText raw) = Returns v.
Proof. intros Hne H. cbn. case_bool_decide; [done|]. by rewrite H. Qed.

End StoreWrites.

(** X13.  What is written is what is read: after a write that returns,
    the read of the same document returns the value written, in both
    backends, for the todos of a user and for the accounts, provided the
    runtime's [JSON.parse] reads back what its [JSON.stringify] printed
    for that value (and, for a blob, that the text is not empty).  In the
    local backend the document of a user is the file of the user's
    [safeName]: every name with the same [safeName] reads the value
    written, and every name with another one reads what it read before.
    In the blob backend the key is the user name itself.  The write of a
    user's todos leaves the accounts as they were, and the write of the
    accounts leaves every user's todos. *)
Theorem written_documents_are_read_back
    (JSON_parse : string → option Json) (JSON_stringify JSON_stringify_pretty : Json → string)
    (fs : Storage.LocalFs) (st : Storage.BlobStores) (username : string) (v : Json) :
  JSON_parse (JSON_stringify_pretty v) = Some v →
  JSON_parse (JSON_stringify v) = Some v →
  JSON_stringify v ≠ "" →
  (∃ fs', Storage.writeTodosLocal JSON_stringify_pretty true fs username v = Returns fs'
          ∧ Storage.readTodosLocal JSON_parse fs' username = Returns v
          ∧ (∀ other, Storage.safeName other = Storage.safeName username →
                Storage.readTodosLocal JSON_parse fs' other = Returns v)
          ∧ (∀ other, Storage.safeName other ≠ Storage.safeName username →
                Storage.readTodosLocal JSON_parse fs' other
                = Storage.readTodosLocal JSON_parse fs other)
          ∧ Storage.readUsersLocal JSON_parse fs' = Storage.readUsersLocal JSON_parse fs)
  ∧ (∃ fs', Storage.writeUsersLocal JSON_stringify_pretty true fs v = Returns fs'
            ∧ Storage.readUsersLocal JSON_parse fs' = Returns v
            ∧ ∀ other, Storage.readTodosLocal JSON_parse fs' other
                       = Storage.readTodosLocal JSON_parse fs other)
  ∧ (∃ st', Storage.writeTodosNetlify JSON_stringify true st username v = Returns st'
            ∧ Storage.readTodosNetlify JSON_parse st' username = Returns v
            ∧ Storage.readUsersNetlify JSON_parse st' = Storage.readUsersNetlify JSON_parse st
            ∧ ∀ other, other ≠ username →
                Storage.readTodosNetlify JSON_parse st' other
                = Storage.readTodosNetlify JSON_parse st other)
  ∧ (∃ st', Storage.writeUsersNetlify JSON_stringify true st v = Returns st'
            ∧ Storage.readUsersNetlify JSON_parse st' = Returns v
            ∧ ∀ other, Storage.readTodosNetlify JSON_parse st' other
                       = Storage.readTodosNetlify JSON_parse st other).
Proof.
  intros Hpretty Hplain Hne. split_and!; eexists; (split; [reflexivity|]).
  - split_and!; [| | |done].
    + unfold Storage.readTodosLocal. cbn.
      case_bool_decide; [|done]. by apply readLocal_text.
    + intros other Hother. unfold Storage.readTodosLocal. cbn. rewrite Hother.
      case_bool_decide; [|done]. by apply readLocal_text.
    + intros other Hother. unfold Storage.readTodosLocal. cbn.
      case_bool_decide as Hfile; [|done]. by apply append_inj_l in Hfile.
  - split; [|done]. by apply readLocal_text.
  - split_and!; [|done|].
    + unfold Storage.readTodosNetlify. cbn.
      case_bool_decide; [|done]. by apply readBlob_text.
    + intros other Hother. unfold Storage.readTodosNetlify. cbn.
      by case_bool_decide.
  - split; [|done]. unfold Storage.readUsersNetlify. cbn.
    case_bool_decide; [|done]. by apply readBlob_text.
Qed.

Lemma written_documents_are_read_back_witness :
  Storage.readTodosLocal parse_one sample_fs "ann" = Returns (JArr [])
  ∧ ∃ fs', Storage.writeTodosLocal stringify_one true sample_fs "a.nn" (JArr [JNum 1])
             = Returns fs'
           ∧ Storage.readTodosLocal parse_one fs' "ann" = Returns (JArr [JNum 1])
           ∧ Storage.readTodosLocal parse_one fs' "bob" = Returns (JArr []).
Proof.
  split; [reflexivity|].
  destruct (written_documents_are_read_back parse_one stringify_one
              stringify_one sample_fs sample_blobs "a.nn" (JArr [JNum 1])
              eq_refl eq_refl ltac:(done)) as ((fs' & Hw & _ & Hsame & Hother & _) & _).
  exists fs'. split; [done|]. split.
  - by apply Hsame.
  - rewrite Hother; [reflexivity|]. by vm_compute.
Defined.

(** X14.  In the local backend a user's todos are kept in the file named
    after the user with every character outside letters, digits,
    underscore and dash removed.  A user name of the form registration
    requires has none of these, so two different registered names never
    share a file: a write of one user's todos leaves what is read for
    the other as it was. *)
Theorem registered_users_have_separate_files
    (JSON_parse : string → option Json) (JSON_stringify_pretty : Json → string)
    (fs fs' : Storage.LocalFs) (user other : string) (v : Json) :
  Server.USERNAME_REGEX_test user = true →
  Server.USERNAME_REGEX_test other = true →
  user ≠ other →
  Storage.writeTodosLocal JSON_stringify_pretty true fs user v = Returns fs' →
  Storage.safeName user = user
  ∧ Storage.safeName other = other
  ∧ Storage.readTodosLocal JSON_parse fs' other = Storage.readTodosLocal JSON_parse fs other.
Proof.
  intros Huser Hother Hne [= <-].
  pose proof (safeName_valid user Huser) as Hu.
  pose proof (safeName_valid other Hother) as Ho.
  split; [done|]. split; [done|].
  unfold Storage.readTodosLocal. cbn.
  case_bool_decide as Heq; [|done].
  rewrite Hu, Ho in Heq. by apply append_inj_l in Heq.
Qed.

Lemma registered_users_have_separate_files_witness :
  Storage.safeName "ann" = "ann" ∧ Storage.safeName "bob" = "bob".
Proof.
  destruct (registered_users_have_separate_files parse_empty_array stringify_empty_array
              sample_fs _ "ann" "bob" (JArr []) eq_refl eq_refl ltac:(done) eq_refl)
    as (Ha & Hb & _).
  by split.
Defined.

(** ** Counters and labels *)

Section Counts.
Import Client.

Lemma counts_split (A : gset Z) (l : list Todo) :
  (length (filter (λ t, negb (completed t) && negb (bool_decide (id t ∈ A))) l)
   + length (filter (λ t, completed t && negb (bool_decide (id t ∈ A))) l)
   + length (filter (λ t, id t ∈ A) l) = length l)%nat.
Proof.
  induction l as [|t l IH]; [done|].
  rewrite !filter_cons.
  destruct (completed t) eqn:Hc; destruct (decide (id t ∈ A)) as [HA|HA];
    rewrite ?(bool_decide_eq_true_2 _ HA), ?(bool_decide_eq_false_2 _ HA);
    cbn [negb andb]; repeat case_decide; try done; cbn [length]; lia.
Qed.

Lemma visible_everything (A : gset Z) (l : list Todo) :
  filter (λ t, visible A {| filter_ := all; priorityFilter := any_priority;
                            showCompleted := true |} t) l
  = filter (λ t, id t ∉ A) l.
Proof.
  apply list_filter_iff. intros t. unfold visible. cbn.
  case_bool_decide; cbn; [tauto|]. by destruct (completed t).
Qed.

Lemma visible_open (A : gset Z) (l : list Todo) :
  filter (λ t, visible A {| filter_ := all; priorityFilter := any_priority;
                            showCompleted := false |} t) l
  = filter (λ t, negb (completed t) && negb (bool_decide (id t ∈ A))) l.
Proof.
  apply list_filter_iff. intros t. unfold visible. cbn.
  case_bool_decide; destruct (completed t); cbn; tauto.
Qed.

Lemma not_archived_split (A : gset Z) (l : list Todo) :
  (length (filter (λ t, id t ∉ A) l)
   = length (filter (λ t, negb (completed t) && negb (bool_decide (id t ∈ A))) l)
     + length (filter (λ t, completed t && negb (bool_decide (id t ∈ A))) l))%nat.
Proof.
  induction l as [|t l IH]; [done|].
  rewrite !filter_cons.
  destruct (completed t) eqn:Hc; destruct (decide (id t ∈ A)) as [HA|HA];
    rewrite ?(bool_decide_eq_true_2 _ HA), ?(bool_decide_eq_false_2 _ HA);
    cbn [negb andb]; repeat case_decide; try done; cbn [length]; lia.
Qed.

End Counts.

(** X15.  The two counters and the archive account for every todo once:
    the number of active todos, the number of completed todos and the
    number of archived todos add up to the length of the list.  With
    every filter open and completed todos shown, the visible list has as
    many todos as the two counters say; with completed todos hidden, as
    many as the active counter says. *)
Theorem counters_partition_the_list (now : Z) (todos : list Client.Todo) :
  (Client.activeCount now todos + Client.completedCount now todos
   + length (Client.archivedTodos now todos) = length todos)%nat
  ∧ length (Client.filteredTodos now
              {| Client.filter_ := Client.all; Client.priorityFilter := Client.any_priority;
                 Client.showCompleted := true |} todos)
    = (Client.activeCount now todos + Client.completedCount now todos)%nat
  ∧ length (Client.filteredTodos now
              {| Client.filter_ := Client.all; Client.priorityFilter := Client.any_priority;
                 Client.showCompleted := false |} todos)
    = Client.activeCount now todos.
Proof.
  unfold Client.activeCount, Client.completedCount, Client.archivedTodos,
    Client.filteredTodos.
  split; [apply counts_split|]. split.
  - rewrite sort_by_perm, visible_everything. apply not_archived_split.
  - by rewrite sort_by_perm, visible_open.
Qed.

Section Labels.
Import Client JsDate Calendar.



End Labels.

(** X16.  In a list of distinct ids, a todo of the archive is never
    labelled as completed today, yesterday or two to four days ago.  It
    has a completion time; the label is made at a clock reading [later]
    that is not before the reading [now] at which the archive was
    computed; at least five whole days have then passed since the
    completion, so the label is "5d ago", "6d ago" or, from the seventh
    day on, the date. *)
Theorem archived_completed_label
    (now later : Z) (todos : list Client.Todo) (t : Client.Todo) :
  Wire.distinct_ids todos →
  t ∈ Client.archivedTodos now todos →
  now ≤ later →
  ∃ ts,
    Client.completedAt t = Some ts
    ∧ Client.completed t = true
    ∧ 5 ≤ (later - ts) `div` 86400000
    ∧ Client.formatCompletedDate later ts
      = (if bool_decide ((later - ts) `div` 86400000 < 7)
         then Client.CompletedAgo ((later - ts) `div` 86400000)
         else Client.CompletedOn ts).
Proof.
  intros Hnd Hin Hlater. unfold Client.archivedTodos in Hin.
  apply list_elem_of_filter in Hin as [Hid Hin].
  apply archivedIds_elem in Hid as (u & Hu & Hsame & Harch).
  assert (u = t) as -> by by eapply distinct_ids_elem.
  apply is_archived_spec in Harch as (Hc & ts & Hat & _ & Hold).
  rewrite ARCHIVE_THRESHOLD_MS_days in Hold.
  assert (Hdays : 5 ≤ (later - ts) `div` 86400000) by div_lia.
  exists ts. split; [done|]. split; [done|]. split; [done|].
  unfold Client.formatCompletedDate. cbv zeta.
  rewrite (bool_decide_eq_false_2 (_ < 1)) by lia.
  by rewrite (bool_decide_eq_false_2 (_ = 1)) by lia.
Qed.

Lemma archived_completed_label_witness :
  Client.archivedTodos 1700000000000
    [sample_open 1 None; sample_done 7 (Some 1699567999999); sample_done 8 (Some 1699568000001)]
  = [sample_done 7 (Some 1699567999999)]
  ∧ Client.formatCompletedDate 1700000060000 1699567999999 = Client.CompletedAgo 5.
Proof.
  assert (Harchive :
    Client.archivedTodos 1700000000000
      [sample_open 1 None; sample_done 7 (Some 1699567999999);
       sample_done 8 (Some 1699568000001)]
    = [sample_done 7 (Some 1699567999999)]) by reflexivity.
  split; [exact Harchive|].
  destruct (archived_completed_label 1700000000000 1700000060000
              [sample_open 1 None; sample_done 7 (Some 1699567999999);
               sample_done 8 (Some 1699568000001)]
              (sample_done 7 (Some 1699567999999)))
    as (ts & Hat & _ & _ & Hlabel).
  - apply (bool_decide_unpack _). vm_compute. exact I.
  - rewrite Harchive. by left.
  - lia.
  - injection Hat as <-. exact Hlabel.
Defined.



(** ** The cache against the store *)

Section Cache.
Import Client.

Lemma findIndex_None {A} (p : A → bool) (l : list A) :
  findIndex p l = None ↔ Forall (λ x, p x = false) l.
Proof.
  induction l as [|x l IH]; cbn; [by split|].
  rewrite Forall_cons. destruct (p x).
  - split; [done|]. by intros [? _].
  - destruct (findIndex p l); cbn.
    + split; [done|]. intros [_ Hl]. by apply IH in Hl.
    + split; [|done]. intros _. split; [done|]. by apply IH.
Qed.

Lemma findIndex_Forall2 {A B} (R : A → B → Prop) (p : A → bool) (q : B → bool) l k :
  (∀ x y, R x y → p x = q y) → Forall2 R l k → findIndex p l = findIndex q k.
Proof.
  intros Hpq. induction 1 as [|x y l k Hxy _ IH]; [done|].
  cbn. by rewrite (Hpq x y Hxy), IH.
Qed.

Lemma filter_Forall_id {A} (P : A → Prop) `{!∀ x, Decision (P x)} (l : list A) :
  Forall P l → filter P l = l.
Proof.
  induction 1 as [|x l Hx _ IH]; [done|]. by rewrite filter_cons_True, IH.
Qed.

(** With distinct ids, the todo found under an id is the only one. *)
Lemma distinct_ids_lookup l k1 k2 t1 t2 :
  Wire.distinct_ids l → l !! k1 = Some t1 → l !! k2 = Some t2 → id t1 = id t2 → k1 = k2.
Proof.
  intros Hnd H1 H2 Hid.
  apply (NoDup_lookup _ k1 k2 (id t1) Hnd); rewrite list_lookup_fmap.
  - by rewrite H1.
  - rewrite H2. cbn. by rewrite Hid.
Qed.

Lemma findIndex_id_Some i l idx :
  findIndex (λ t, bool_decide (id t = i)) l = Some idx →
  ∃ t, l !! idx = Some t ∧ id t = i.
Proof.
  intros (t & Ht & Hid%bool_decide_eq_true & _)%findIndex_Some. by exists t.
Qed.

Lemma find_findIndex i l :
  List.find (λ t, bool_decide (id t = i)) l
  = findIndex (λ t, bool_decide (id t = i)) l ≫= (l !!.).
Proof.
  induction l as [|t l IH]; [done|]. cbn.
  destruct (bool_decide (id t = i)); [done|]. rewrite IH.
  by destruct (findIndex _ l).
Qed.

Lemma filter_other_ids i l idx t :
  Wire.distinct_ids l → l !! idx = Some t → id t = i →
  filter (λ t, id t ≠ i) l = take idx l ++ drop (S idx) l.
Proof.
  intros Hnd Ht Hid.
  rewrite <- (take_drop_middle l idx t Ht) at 1.
  rewrite filter_app, filter_cons_False by (intros Hne; by apply Hne).
  f_equal; apply filter_Forall_id, Forall_forall; intros u Hu Hui.
  - apply list_elem_of_lookup_1 in Hu as [k Hk].
    pose proof (lookup_lt_Some _ _ _ Hk) as Hlt. rewrite length_take in Hlt.
    rewrite lookup_take_lt in Hk by lia.
    assert (k = idx) by (eapply distinct_ids_lookup; [done..|congruence]). lia.
  - apply list_elem_of_lookup_1 in Hu as [k Hk]. rewrite lookup_drop in Hk.
    assert (S idx + k = idx)%nat by (eapply distinct_ids_lookup; [done..|congruence]). lia.
Qed.

Lemma splice_in_delete {A} (l : list A) idx x :
  l !! idx = Some x → splice_in idx x (take idx l ++ drop (S idx) l) = l.
Proof.
  intros Hx. unfold splice_in.
  pose proof (lookup_lt_Some _ _ _ Hx) as Hlt.
  rewrite take_app_le, drop_app_ge by (rewrite length_take; lia).
  rewrite take_take, Nat.min_id, length_take, Nat.min_l by lia.
  rewrite Nat.sub_diag, drop_0. by apply take_drop_middle.
Qed.

End Cache.

Section Sync.
Import Client.

Lemma view_has_id i j t : Wire.view j = Some t → Server.has_id i j = bool_decide (id t = i).
Proof. intros Hid%view_id. unfold Server.has_id. by rewrite Hid. Qed.

Lemma view_id_of j t : Wire.view j = Some t → Server.id_of j = Some (id t).
Proof. intros Hid%view_id. unfold Server.id_of. by rewrite Hid. Qed.

Lemma in_sync_ids stored cache :
  Wire.in_sync stored cache → omap Server.id_of stored = id <$> cache.
Proof.
  induction 1 as [|j t stored cache Hjt _ IH]; [done|].
  cbn. rewrite (view_id_of j t Hjt). cbn. by rewrite IH.
Qed.

Lemma in_sync_findIndex i stored cache :
  Wire.in_sync stored cache →
  findIndex (Server.has_id i) stored = findIndex (λ t, bool_decide (id t = i)) cache.
Proof. apply findIndex_Forall2. intros j t. apply view_has_id. Qed.

Lemma in_sync_filter i stored cache :
  Wire.in_sync stored cache →
  Wire.in_sync (filter (λ j, negb (Server.has_id i j)) stored)
               (filter (λ t, id t ≠ i) cache).
Proof.
  apply Forall2_filter. intros j t Hjt. rewrite (view_has_id i j t Hjt).
  case_bool_decide; cbn; tauto.
Qed.

End Sync.

(** X18.  Deleting on the client removes every todo of the id from the
    cache and keeps the first of them, with its position, for the
    rollback.  When the ids of the cache are distinct, the rollback
    after a failed request puts the todo back where it was: the cache is
    again the list it was before the delete. *)
Theorem deleteTodo_rollback_restores
    (i : Z) (todos : list Client.Todo) (idx : nat) (todo : Client.Todo)
    (rest : list Client.Todo) :
  Wire.distinct_ids todos →
  Client.deleteTodo i todos = Some (idx, todo, rest) →
  todos !! idx = Some todo
  ∧ Client.id todo = i
  ∧ (∀ t, t ∈ rest ↔ t ∈ todos ∧ Client.id t ≠ i)
  ∧ rest = delete idx todos
  ∧ Client.delete_error idx todo rest = todos.
Proof.
  intros Hnd. unfold Client.deleteTodo.
  destruct (findIndex _ todos) as [k|] eqn:Hk; [|done].
  destruct (findIndex_id_Some _ _ _ Hk) as (t & Ht & Hid).
  rewrite Ht. intros [= <- <- <-].
  split; [done|]. split; [done|]. split.
  { intros u. rewrite list_elem_of_filter. tauto. }
  rewrite (filter_other_ids i todos k t Hnd Ht Hid). split.
  - by rewrite delete_take_drop.
  - by apply splice_in_delete.
Qed.

Lemma deleteTodo_rollback_restores_witness :
  Client.delete_error 1 (sample_open 2 None) [sample_open 1 None; sample_open 3 None]
  = [sample_open 1 None; sample_open 2 None; sample_open 3 None].
Proof.
  destruct (deleteTodo_rollback_restores 2
              [sample_open 1 None; sample_open 2 None; sample_open 3 None] 1
              (sample_open 2 None) [sample_open 1 None; sample_open 3 None])
    as (_ & _ & _ & _ & Hback); [|reflexivity|exact Hback].
  apply (bool_decide_unpack _). vm_compute. exact I.
Defined.

(** X19.  A delete keeps the cache and the store together: when the
    cache shows the stored list and the client finds the id, the delete
    handler finds it too, answers 204 and writes a list which the cache,
    after its own removal, shows again.  When the client does not find
    the id it sends nothing, and the handler would have answered 404. *)
Theorem delete_keeps_cache_in_sync
    (stored : list JsObject) (cache : list Client.Todo) (i : Z) :
  Wire.in_sync stored cache →
  (∀ idx todo rest,
      Client.deleteTodo i cache = Some (idx, todo, rest) →
      ∃ stored',
        Server.delete_todo (Returns stored) true (Some i)
          = {| Server.reply := Server.SendEnd 204; Server.written := Some stored' |}
        ∧ Wire.in_sync stored' rest)
  ∧ (Client.deleteTodo i cache = None →
       Server.delete_todo (Returns stored) true (Some i)
       = Server.respond (Server.error 404 "Todo not found")).
Proof.
  intros Hsync. pose proof (in_sync_ids _ _ Hsync) as Hids. split.
  - intros idx todo rest. unfold Client.deleteTodo.
    destruct (findIndex _ cache) as [k|] eqn:Hk; [|done].
    destruct (findIndex_id_Some _ _ _ Hk) as (t & Ht & Hid).
    rewrite Ht. intros [= <- <- <-].
    eexists. split; [|by apply in_sync_filter].
    apply delete_todo_found. rewrite Hids. apply list_elem_of_fmap.
    exists t. split; [done|]. by eapply list_elem_of_lookup_2.
  - unfold Client.deleteTodo.
    destruct (findIndex _ cache) as [k|] eqn:Hk.
    { destruct (findIndex_id_Some _ _ _ Hk) as (t & Ht & Hid). by rewrite Ht. }
    intros _. apply delete_todo_missing. rewrite Hids.
    intros (t & Hid & Ht)%list_elem_of_fmap.
    apply findIndex_None in Hk. rewrite Forall_forall in Hk.
    specialize (Hk t Ht). cbn in Hk. by apply bool_decide_eq_false in Hk.
Qed.

Lemma delete_keeps_cache_in_sync_witness :
  ∃ stored',
    Server.delete_todo (Returns sample_list) true (Some 1)
      = {| Server.reply := Server.SendEnd 204; Server.written := Some stored' |}
    ∧ Wire.in_sync stored' [sample_view 2 "b"].
Proof.
  destruct (delete_keeps_cache_in_sync sample_list [sample_view 1 "a"; sample_view 2 "b"] 1)
    as [Hfound _].
  - constructor; [reflexivity|]. constructor; [reflexivity|]. constructor.
  - apply (Hfound 0%nat (sample_view 1 "a") [sample_view 2 "b"]). reflexivity.
Defined.

Section Updates.
Import Client.

Lemma map_id_unique i r l idx t0 :
  Wire.distinct_ids l → l !! idx = Some t0 → id t0 = i →
  map_id i r l = <[idx := r t0]> l.
Proof.
  intros Hnd Ht Hid. apply list_eq. intros k. unfold map_id.
  rewrite list_lookup_fmap. destruct (decide (k = idx)) as [->|Hk].
  - rewrite list_lookup_insert_eq by by eapply lookup_lt_Some.
    rewrite Ht. cbn. by rewrite bool_decide_eq_true_2.
  - rewrite list_lookup_insert_ne by done.
    destruct (l !! k) as [t|] eqn:Hlk; [|done]. cbn.
    rewrite bool_decide_eq_false_2; [done|].
    intros Hti. apply Hk. eapply distinct_ids_lookup; [done..|congruence].
Qed.

Lemma map_id_ids i r l : (∀ t, id (r t) = id t) → id <$> map_id i r l = id <$> l.
Proof.
  intros Hr. unfold map_id. rewrite <- list_fmap_compose.
  apply list_fmap_ext. intros k t _. cbn. by case_bool_decide.
Qed.

Lemma findIndex_distinct i l idx t0 :
  Wire.distinct_ids l → l !! idx = Some t0 → id t0 = i →
  findIndex (λ t, bool_decide (id t = i)) l = Some idx.
Proof.
  intros Hnd Ht Hid.
  destruct (findIndex _ l) as [k|] eqn:Hk.
  - destruct (findIndex_id_Some _ _ _ Hk) as (t & Hlk & Hti).
    f_equal. eapply distinct_ids_lookup; [done..|congruence].
  - apply findIndex_None in Hk. rewrite Forall_forall in Hk.
    specialize (Hk t0 (list_elem_of_lookup_2 _ _ _ Ht)). cbn in Hk.
    by apply bool_decide_eq_false in Hk.
Qed.

Lemma find_id_lookup i l t0 :
  List.find (λ t, bool_decide (id t = i)) l = Some t0 →
  ∃ idx, l !! idx = Some t0 ∧ id t0 = i
         ∧ findIndex (λ t, bool_decide (id t = i)) l = Some idx.
Proof.
  rewrite find_findIndex. destruct (findIndex _ l) as [idx|] eqn:Hidx; [|done].
  cbn. intros Ht. destruct (findIndex_id_Some _ _ _ Hidx) as (t & Hlk & Hid).
  exists idx. rewrite Hlk in Ht. injection Ht as ->. done.
Qed.

(** The two callbacks of an update on the list the optimistic change
    left: the record the server answered with changes nothing, and the
    todo kept for the rollback brings the list back. *)
Lemma map_id_callbacks i r l t0 :
  Wire.distinct_ids l → (∀ t, id (r t) = id t) →
  List.find (λ t, bool_decide (id t = i)) l = Some t0 →
  map_id i (λ _, r t0) (map_id i r l) = map_id i r l
  ∧ map_id i (λ _, t0) (map_id i r l) = l.
Proof.
  intros Hnd Hr (idx & Ht & Hid & _)%find_id_lookup.
  pose proof (lookup_lt_Some _ _ _ Ht) as Hlt.
  rewrite (map_id_unique i r l idx t0 Hnd Ht Hid).
  assert (Hnd' : Wire.distinct_ids (<[idx := r t0]> l)).
  { unfold Wire.distinct_ids. rewrite list_fmap_insert, Hr.
    rewrite list_insert_id; [done|]. by rewrite list_lookup_fmap, Ht. }
  assert (Hlk : <[idx := r t0]> l !! idx = Some (r t0)) by by apply list_lookup_insert_eq.
  rewrite !(map_id_unique i _ _ idx (r t0) Hnd' Hlk) by by rewrite Hr.
  rewrite !list_insert_insert_eq. split; [done|]. by apply list_insert_id.
Qed.

(** An update request against a store the cache shows. *)
Lemma put_sync stored cache i body r t0 :
  Wire.in_sync stored cache → Wire.distinct_ids cache →
  Server.check_update body = None →
  (∀ old t, old !! "id" = Some (JNum i) → Wire.view old = Some t →
            Wire.view (Server.merge_update old (Server.build_update body) i) = Some (r t)) →
  List.find (λ t, bool_decide (id t = i)) cache = Some t0 →
  ∃ new stored',
    Server.put_todo (Returns stored) true (Some i) body
      = {| Server.reply := Server.SendJson 200 (JObj new);
           Server.written := Some stored' |}
    ∧ Wire.view new = Some (r t0)
    ∧ Wire.in_sync stored' (map_id i r cache).
Proof.
  intros Hsync Hnd Hcheck Hview (idx & Ht & Hid & Hidx)%find_id_lookup.
  rewrite <- (in_sync_findIndex i stored cache Hsync) in Hidx.
  destruct (Forall2_lookup_r _ _ _ _ _ Hsync Ht) as (old & Hold & Hvold).
  rewrite (put_todo_found stored i body idx old Hidx Hold), Hcheck.
  eexists _, _. split; [done|].
  assert (Hnew : Wire.view (Server.merge_update old (Server.build_update body) i)
                 = Some (r t0)).
  { apply Hview; [|done]. rewrite (view_id old t0 Hvold). by rewrite Hid. }
  split; [done|].
  rewrite (map_id_unique i r cache idx t0 Hnd Ht Hid).
  by apply Forall2_insert.
Qed.

Lemma priority_named_name p : Wire.priority_named (Wire.priority_name p) = Some p.
Proof. by destruct p. Qed.

Lemma valid_priority_name p : Server.valid_priority (JStr (Wire.priority_name p)) = true.
Proof. by destruct p. Qed.

Lemma check_priority_body p : Server.check_update (Wire.priority_body p) = None.
Proof.
  unfold Server.check_update, Server.check_text, Server.check_priority,
    Server.check_dueDate, Wire.priority_body.
  rewrite lookup_singleton_eq, !lookup_singleton_ne by done.
  by rewrite valid_priority_name.
Qed.

Lemma view_priority_body old t i p :
  old !! "id" = Some (JNum i) → Wire.view old = Some t →
  Wire.view (Server.merge_update old (Server.build_update (Wire.priority_body p)) i)
  = Some (set_priority p t).
Proof.
  intros Hid.
  destruct (updated_fields old (Wire.priority_body p) i Hid) as (H1 & H2 & H3 & H4 & H5 & H6).
  unfold Wire.priority_body in *.
  rewrite lookup_singleton_eq in H5. rewrite lookup_singleton_ne in H2, H3, H4, H6 by done.
  cbn [from_option] in H2, H3, H4, H5, H6.
  unfold Wire.view. rewrite H1, H2, H3, H4, H5, H6, Hid, priority_named_name.
  destruct (old !! "text") as [[| | |s| |]|]; try done.
  destruct (old !! "completed") as [[|c| | | |]|]; try done.
  destruct (old !! "priority") as [[| | |q| |]|]; try done.
  destruct (Wire.priority_named q) as [pr|]; [|done]. cbn.
  destruct (Wire.opt_string (old !! "dueDate")) as [d|]; [|done]. cbn.
  destruct (Wire.opt_number (old !! "completedAt")) as [a|]; [|done]. cbn.
  by intros [= <-].
Qed.

Lemma view_edit_body old t i s :
  old !! "id" = Some (JNum i) → Wire.view old = Some t →
  Wire.view (Server.merge_update old (Server.build_update (Wire.edit_body s)) i)
  = Some (set_text s t).
Proof.
  intros Hid.
  destruct (updated_fields old (Wire.edit_body s) i Hid) as (H1 & H2 & H3 & H4 & H5 & H6).
  unfold Wire.edit_body in *.
  rewrite lookup_singleton_eq in H2. rewrite lookup_singleton_ne in H3, H4, H5, H6 by done.
  cbn [from_option] in H2, H3, H4, H5, H6.
  unfold Wire.view. rewrite H1, H2, H3, H4, H5, H6, Hid.
  destruct (old !! "text") as [[| | |s0| |]|]; try done.
  destruct (old !! "completed") as [[|c| | | |]|]; try done.
  destruct (old !! "priority") as [[| | |q| |]|]; try done.
  destruct (Wire.priority_named q) as [pr|]; [|done]. cbn.
  destruct (Wire.opt_string (old !! "dueDate")) as [d|]; [|done]. cbn.
  destruct (Wire.opt_number (old !! "completedAt")) as [a|]; [|done]. cbn.
  by intros [= <-].
Qed.

Lemma check_edit_body s :
  Server.check_update (Wire.edit_body s)
  = if bool_decide (trim s = "") then Some (Server.error 400 "text must be a non-empty string")
    else if (Server.MAX_TEXT_LENGTH <? String.length (trim s))%nat
         then Some (Server.error 400 "text must be 500 characters or less")
         else None.
Proof.
  unfold Server.check_update, Server.check_text, Server.check_priority,
    Server.check_dueDate, Wire.edit_body.
  rewrite lookup_singleton_eq, !lookup_singleton_ne by done.
  case_bool_decide; [done|]. by destruct (_ <? _)%nat.
Qed.

Lemma next_priority_cycle p :
  next_priority p = Some (match p with low => medium | medium => high | high => low end).
Proof. by destruct p. Qed.

End Updates.

(** X20.  Cycling the priority of a todo sends the priority that follows
    its own in the cycle low, medium, high, low.  Against a store the
    cache shows, with distinct ids, the update handler accepts the body
    and stores the priority, the cache after the optimistic change
    shows the list the handler wrote, the record the handler answers
    with changes nothing more in the cache, and the rollback of a failed
    request restores the cache.  Three cycles in a row bring the cache
    back to where it started. *)
Theorem cyclePriority_keeps_cache_in_sync
    (stored : list JsObject) (cache : list Client.Todo) (i : Z)
    (next : Client.Priority) (cache' : list Client.Todo) :
  Wire.in_sync stored cache →
  Wire.distinct_ids cache →
  Client.cyclePriority i cache = Some (next, cache') →
  ∃ todo new stored',
    List.find (λ t, bool_decide (Client.id t = i)) cache = Some todo
    ∧ next = match Client.priority todo with
             | Client.low => Client.medium
             | Client.medium => Client.high
             | Client.high => Client.low
             end
    ∧ Server.put_todo (Returns stored) true (Some i) (Wire.priority_body next)
      = {| Server.reply := Server.SendJson 200 (JObj new);
           Server.written := Some stored' |}
    ∧ Wire.view new = Some (Client.set_priority next todo)
    ∧ Wire.in_sync stored' cache'
    ∧ Client.cyclePriority_next i (Client.set_priority next todo) cache' = cache'
    ∧ Client.cyclePriority_error i todo cache' = cache
    ∧ ∀ n2 c2 n3 c3,
        Client.cyclePriority i cache' = Some (n2, c2) →
        Client.cyclePriority i c2 = Some (n3, c3) →
        c3 = cache.
Proof.
  intros Hsync Hnd. unfold Client.cyclePriority at 1.
  destruct (List.find _ cache) as [todo|] eqn:Hfind; [|done].
  rewrite next_priority_cycle. intros [= <- <-].
  set (next := match Client.priority todo with
               | Client.low => Client.medium
               | Client.medium => Client.high
               | Client.high => Client.low
               end).
  destruct (put_sync stored cache i (Wire.priority_body next) (Client.set_priority next) todo
              Hsync Hnd (check_priority_body next)) as (new & stored' & Hput & Hview & Hsync');
    [by intros; apply view_priority_body|done|].
  destruct (map_id_callbacks i (Client.set_priority next) cache todo Hnd) as [Hnext Hback];
    [done..|].
  exists todo, new, stored'. split_and!; try done.
  intros n2 c2 n3 c3.
  destruct (find_id_lookup _ _ _ Hfind) as (idx & Ht & Hid & _).
  pose proof (lookup_lt_Some _ _ _ Ht) as Hlt.
  assert (Hstep : ∀ t, Client.id t = i →
            Wire.distinct_ids (<[idx := t]> cache)
            ∧ <[idx := t]> cache !! idx = Some t
            ∧ List.find (λ t, bool_decide (Client.id t = i)) (<[idx := t]> cache) = Some t).
  { intros t Hti.
    assert (Hnd' : Wire.distinct_ids (<[idx := t]> cache)).
    { unfold Wire.distinct_ids. rewrite list_fmap_insert, Hti, <- Hid.
      rewrite list_insert_id; [done|]. by rewrite list_lookup_fmap, Ht. }
    assert (Hlk : <[idx := t]> cache !! idx = Some t) by by apply list_lookup_insert_eq.
    split; [done|]. split; [done|].
    rewrite find_findIndex, (findIndex_distinct i _ idx t Hnd' Hlk Hti). done. }
  rewrite (map_id_unique i _ cache idx todo Hnd Ht Hid).
  destruct (Hstep (Client.set_priority next todo) Hid) as (Hnd1 & Hlk1 & Hfind1).
  unfold Client.cyclePriority at 1. rewrite Hfind1, next_priority_cycle.
  intros [= <- <-].
  rewrite (map_id_unique i _ _ idx _ Hnd1 Hlk1 Hid), list_insert_insert_eq.
  match goal with |- context [<[idx := ?t]> cache] => destruct (Hstep t Hid) as (Hnd2 & Hlk2 & Hfind2) end.
  unfold Client.cyclePriority at 1. rewrite Hfind2, next_priority_cycle.
  intros [= <- <-].
  rewrite (map_id_unique i _ _ idx _ Hnd2 Hlk2 Hid), list_insert_insert_eq.
  apply list_insert_id. rewrite Ht. f_equal.
  destruct todo as [? ? ? []]; reflexivity.
Qed.

Lemma cyclePriority_keeps_cache_in_sync_witness :
  ∃ new stored',
    Server.put_todo (Returns sample_list) true (Some 2) (Wire.priority_body Client.high)
      = {| Server.reply := Server.SendJson 200 (JObj new);
           Server.written := Some stored' |}
    ∧ Wire.in_sync stored'
        [sample_view 1 "a"; Client.set_priority Client.high (sample_view 2 "b")].
Proof.
  destruct (cyclePriority_keeps_cache_in_sync sample_list
              [sample_view 1 "a"; sample_view 2 "b"] 2 Client.high
              [sample_view 1 "a"; Client.set_priority Client.high (sample_view 2 "b")])
    as (todo & new & stored' & _ & _ & Hput & _ & Hsync & _).
  - constructor; [reflexivity|]. constructor; [reflexivity|]. constructor.
  - apply (bool_decide_unpack _). vm_compute. exact I.
  - reflexivity.
  - by exists new, stored'.
Defined.

(** X21.  Committing an edit sends a request only when a todo is being
    edited, is still in the list, and the trimmed text is neither empty
    nor the todo's text; the text sent is the trimmed one and the
    editing signals are cleared.  The client does not bound the length:
    a text of more than 500 characters is rejected by the update handler
    with 400 and nothing is written.  Otherwise, against a store the
    cache shows, with distinct ids, the handler stores the text, the
    cache after the optimistic change shows the list written, the record
    answered changes nothing more, and the rollback restores the cache. *)
Theorem commitEdit_keeps_cache_in_sync
    (stored : list JsObject) (cache : list Client.Todo) (e e' : Client.Editing)
    (i : Z) (s : string) (cache' : list Client.Todo) :
  Wire.in_sync stored cache →
  Wire.distinct_ids cache →
  Client.commitEdit e cache = (e', Some (i, s), cache') →
  e' = Client.cancelEdit
  ∧ Client.editingId e = Some i
  ∧ s = trim (Client.editingText e)
  ∧ s ≠ ""
  ∧ ∃ original,
      List.find (λ t, bool_decide (Client.id t = i)) cache = Some original
      ∧ Client.text original ≠ s
      ∧ ((Server.MAX_TEXT_LENGTH < String.length s)%nat →
           Server.put_todo (Returns stored) true (Some i) (Wire.edit_body s)
           = Server.respond (Server.error 400 "text must be 500 characters or less"))
      ∧ ((String.length s ≤ Server.MAX_TEXT_LENGTH)%nat →
           ∃ new stored',
             Server.put_todo (Returns stored) true (Some i) (Wire.edit_body s)
               = {| Server.reply := Server.SendJson 200 (JObj new);
                    Server.written := Some stored' |}
             ∧ Wire.view new = Some (Client.set_text s original)
             ∧ Wire.in_sync stored' cache'
             ∧ Client.commitEdit_next i (Client.set_text s original) cache' = cache')
      ∧ Client.commitEdit_error i original cache' = cache.
Proof.
  intros Hsync Hnd. unfold Client.commitEdit.
  destruct (Client.editingId e) as [i0|] eqn:Hediting; [|done].
  destruct (List.find _ cache) as [original|] eqn:Hfind; [|done].
  case_bool_decide as Hempty; [done|]. case_bool_decide as Hsame; [done|].
  intros [= <- <- <- <-].
  set (s := trim (Client.editingText e)) in *.
  assert (Htrim : trim s = s) by apply trim_idempotent.
  assert (Hcheck : Server.check_update (Wire.edit_body s)
                   = if (Server.MAX_TEXT_LENGTH <? String.length s)%nat
                     then Some (Server.error 400 "text must be 500 characters or less")
                     else None).
  { rewrite check_edit_body, Htrim. by rewrite bool_decide_eq_false_2. }
  destruct (map_id_callbacks i0 (Client.set_text s) cache original Hnd) as [Hnext Hback];
    [done..|].
  split; [done|]. split; [done|]. split; [done|]. split; [done|].
  exists original. split; [done|]. split; [by intros Heq; apply Hsame|].
  split; [|split; [|done]].
  - intros Hlong%Nat.ltb_lt. unfold Server.put_todo. by rewrite Hcheck, Hlong.
  - intros Hshort%Nat.ltb_ge. rewrite Hshort in Hcheck.
    destruct (put_sync stored cache i0 (Wire.edit_body s) (Client.set_text s) original
                Hsync Hnd Hcheck) as (new & stored' & Hput & Hview & Hsync');
      [by intros; apply view_edit_body|done|].
    by exists new, stored'.
Qed.

Lemma commitEdit_keeps_cache_in_sync_witness :
  ∃ new stored',
    Server.put_todo (Returns sample_list) true (Some 2) (Wire.edit_body "c")
      = {| Server.reply := Server.SendJson 200 (JObj new);
           Server.written := Some stored' |}
    ∧ Wire.in_sync stored' [sample_view 1 "a"; sample_view 2 "c"].
Proof.
  destruct (commitEdit_keeps_cache_in_sync sample_list
              [sample_view 1 "a"; sample_view 2 "b"] (Client.startEdit 2 " c ")
              Client.cancelEdit 2 "c" [sample_view 1 "a"; sample_view 2 "c"])
    as (_ & _ & _ & _ & original & _ & _ & _ & Hshort & _).
  - constructor; [reflexivity|]. constructor; [reflexivity|]. constructor.
  - apply (bool_decide_unpack _). vm_compute. exact I.
  - reflexivity.
  - destruct Hshort as (new & stored' & Hput & _ & Hsync & _).
    + by apply Nat.leb_le.
    + by exists new, stored'.
Defined.

(** X22.  A toggle keeps the cache and the store together: against a
    store the cache shows, with distinct ids, the update handler accepts
    the pair the toggle sends, the cache after the optimistic change
    shows the list the handler wrote, the record answered changes
    nothing more in the cache, and the rollback of a failed request
    restores the cache. *)
Theorem toggleTodo_keeps_cache_in_sync
    (stored : list JsObject) (cache : list Client.Todo) (now i : Z)
    (payload : Client.TogglePayload) (cache' : list Client.Todo) :
  Wire.in_sync stored cache →
  Wire.distinct_ids cache →
  Client.toggleTodo now i cache = Some (payload, cache') →
  ∃ todo new stored',
    List.find (λ t, bool_decide (Client.id t = i)) cache = Some todo
    ∧ Server.put_todo (Returns stored) true (Some i) (Wire.toggle_body payload)
      = {| Server.reply := Server.SendJson 200 (JObj new);
           Server.written := Some stored' |}
    ∧ Wire.view new = Some (Client.apply_payload payload todo)
    ∧ Wire.in_sync stored' cache'
    ∧ Client.toggle_next i (Client.apply_payload payload todo) cache' = cache'
    ∧ Client.toggle_error i todo cache' = cache.
Proof.
  intros Hsync Hnd. unfold Client.toggleTodo.
  destruct (List.find _ cache) as [todo|] eqn:Hfind; [|done].
  intros [= <- <-].
  set (payload := Client.toggle_payload now todo).
  assert (Hcheck : Server.check_update (Wire.toggle_body payload) = None).
  { unfold Server.check_update, Server.check_text, Server.check_priority,
      Server.check_dueDate. by rewrite !toggle_body_lookup. }
  destruct (put_sync stored cache i (Wire.toggle_body payload) (Client.apply_payload payload)
              todo Hsync Hnd Hcheck) as (new & stored' & Hput & Hview & Hsync');
    [by intros; apply view_toggled|done|].
  destruct (map_id_callbacks i (Client.apply_payload payload) cache todo Hnd)
    as [Hnext Hback]; [done..|].
  by exists todo, new, stored'.
Qed.

Lemma toggleTodo_keeps_cache_in_sync_witness :
  Client.toggle_error 2 (sample_view 2 "b")
    (Client.toggled 1700000000000 2 [sample_view 1 "a"; sample_view 2 "b"])
  = [sample_view 1 "a"; sample_view 2 "b"].
Proof.
  destruct (toggleTodo_keeps_cache_in_sync sample_list
              [sample_view 1 "a"; sample_view 2 "b"] 1700000000000 2
              (Client.toggle_payload 1700000000000 (sample_view 2 "b"))
              (Client.toggled 1700000000000 2 [sample_view 1 "a"; sample_view 2 "b"]))
    as (todo & _ & _ & Hfind & _ & _ & _ & _ & Hback).
  - constructor; [reflexivity|]. constructor; [reflexivity|]. constructor.
  - apply (bool_decide_unpack _). vm_compute. exact I.
  - reflexivity.
  - cbn in Hfind. injection Hfind as <-. exact Hback.
Defined.

Section Dragging.
Import Client.

Lemma splice_in_Permutation {A} idx (x : A) l : splice_in idx x l ≡ₚ x :: l.
Proof.
  unfold splice_in. rewrite <- Permutation_middle. by rewrite take_drop.
Qed.

Lemma splice_in_lookup {A} idx (x : A) l :
  (idx ≤ length l)%nat →
  splice_in idx x l !! idx = Some x
  ∧ splice_in idx x l !! S idx = l !! idx
  ∧ delete idx (splice_in idx x l) = l.
Proof.
  intros Hle. unfold splice_in.
  assert (Hlen : length (take idx l) = idx) by (rewrite length_take; lia).
  split_and!.
  - rewrite lookup_app_r by lia. by rewrite Hlen, Nat.sub_diag.
  - rewrite lookup_app_r by lia. rewrite Hlen.
    replace (S idx - idx)%nat with 1%nat by lia.
    change ((x :: drop idx l) !! 1%nat) with (drop idx l !! 0%nat).
    rewrite lookup_drop. f_equal. lia.
  - rewrite <- Hlen at 1. rewrite delete_middle. apply take_drop.
Qed.

Lemma reorderTodo_Some draggedId targetId todos l :
  reorderTodo draggedId targetId todos = Some l →
  ∃ fromIdx item toIdx target,
    todos !! fromIdx = Some item ∧ id item = draggedId
    ∧ delete fromIdx todos !! toIdx = Some target ∧ id target = targetId
    ∧ l = splice_in toIdx item (delete fromIdx todos).
Proof.
  unfold reorderTodo.
  destruct (findIndex _ todos) as [fromIdx|] eqn:Hfrom; [|done].
  destruct (findIndex_id_Some _ _ _ Hfrom) as (item & Hitem & Hid).
  rewrite Hitem.
  destruct (findIndex _ (delete fromIdx todos)) as [toIdx|] eqn:Hto; [|done].
  destruct (findIndex_id_Some _ _ _ Hto) as (target & Htarget & Htid).
  intros [= <-]. by exists fromIdx, item, toIdx, target.
Qed.

Lemma reorder_body_ids l : Wire.reorder_body l = ids_body (id <$> l).
Proof. unfold Wire.reorder_body, ids_body. by rewrite <- list_fmap_compose. Qed.

Lemma reordered_in_sync stored l :
  (∀ t, t ∈ l → ∃ j, Server.todoMap stored !! id t = Some j ∧ Wire.view j = Some t) →
  Wire.in_sync (Server.reordered stored (id <$> l)) l.
Proof.
  unfold Server.reordered. induction l as [|t l IH]; intros Hl; [constructor|].
  destruct (Hl t) as (j & Hj & Hview); [by left|].
  cbn. rewrite Hj. cbn. constructor; [done|].
  apply IH. intros u Hu. apply Hl. by right.
Qed.

End Dragging.

(** X23.  Dropping a dragged todo on another one moves it, and nothing
    else: the new list is a permutation of the old one in which the
    dragged todo stands immediately before the target, and without the
    dragged todo both lists are the same.  Dropping a todo on itself, or
    with nothing dragged, leaves the list as it is. *)
Theorem reorderTodo_moves_before_target
    (draggedId targetId : Z) (todos l : list Client.Todo) :
  Client.reorderTodo draggedId targetId todos = Some l →
  l ≡ₚ todos
  ∧ (∃ fromIdx toIdx item target,
       todos !! fromIdx = Some item ∧ Client.id item = draggedId
       ∧ l !! toIdx = Some item
       ∧ l !! S toIdx = Some target ∧ Client.id target = targetId
       ∧ delete toIdx l = delete fromIdx todos)
  ∧ Client.onDrop (Some draggedId) draggedId todos = todos
  ∧ Client.onDrop None targetId todos = todos
  ∧ (draggedId ≠ targetId → Client.onDrop (Some draggedId) targetId todos = l).
Proof.
  intros Hl.
  destruct (reorderTodo_Some _ _ _ _ Hl)
    as (fromIdx & item & toIdx & target & Hitem & Hid & Htarget & Htid & ->).
  pose proof (lookup_lt_Some _ _ _ Htarget) as Hlt.
  destruct (splice_in_lookup toIdx item (delete fromIdx todos)) as (H1 & H2 & H3); [lia|].
  split_and!.
  - rewrite splice_in_Permutation. symmetry. by apply delete_Permutation.
  - exists fromIdx, toIdx, item, target. split_and!; try done. by rewrite H2.
  - unfold Client.onDrop. by rewrite bool_decide_eq_false_2 by (intros Hne; by apply Hne).
  - done.
  - intros Hne. unfold Client.onDrop. rewrite bool_decide_eq_true_2 by done.
    by rewrite Hl.
Qed.

Lemma reorderTodo_moves_before_target_witness :
  Client.onDrop (Some 3) 1 [sample_open 1 None; sample_open 2 None; sample_open 3 None]
  = [sample_open 3 None; sample_open 1 None; sample_open 2 None].
Proof.
  destruct (reorderTodo_moves_before_target 3 1
              [sample_open 1 None; sample_open 2 None; sample_open 3 None]
              [sample_open 3 None; sample_open 1 None; sample_open 2 None] eq_refl)
    as (_ & _ & _ & _ & Hdrop).
  by apply Hdrop.
Defined.

(** X24.  A move keeps the cache and the store together: against a store
    the cache shows, with distinct ids, the reorder handler accepts the
    ids of the reordered cache, answers 200 and writes the stored
    records in that order, so that the cache shows the stored list
    again. *)
Theorem reorderTodo_keeps_cache_in_sync
    (stored : list JsObject) (cache : list Client.Todo) (draggedId targetId : Z)
    (cache' : list Client.Todo) :
  Wire.in_sync stored cache →
  Wire.distinct_ids cache →
  Client.reorderTodo draggedId targetId cache = Some cache' →
  ∃ stored',
    Server.patch_reorder (Returns stored) true (Wire.reorder_body cache')
      = {| Server.reply := Server.SendJson 200 (JArr (JObj <$> stored'));
           Server.written := Some stored' |}
    ∧ stored' ≡ₚ stored
    ∧ Wire.in_sync stored' cache'.
Proof.
  intros Hsync Hnd Hmove.
  assert (Hperm : cache' ≡ₚ cache).
  { destruct (reorderTodo_Some _ _ _ _ Hmove)
      as (fromIdx & item & toIdx & target & Hitem & _ & _ & _ & ->).
    rewrite splice_in_Permutation. symmetry. by apply delete_Permutation. }
  pose proof (in_sync_ids _ _ Hsync) as Hids.
  assert (Hsome : Forall (λ j, is_Some (Server.id_of j)) stored).
  { apply Forall_forall. intros j [k Hk]%list_elem_of_lookup_1.
    destruct (Forall2_lookup_l _ _ _ _ _ Hsync Hk) as (t & _ & Hview).
    rewrite (view_id_of j t Hview). by eexists. }
  assert (Hnd' : NoDup (omap Server.id_of stored)) by by rewrite Hids.
  destruct (reorder_permutation stored (Client.id <$> cache') Hsome Hnd')
    as (Hpatch & Hr & _).
  { by rewrite Hids, Hperm. }
  exists (Server.reordered stored (Client.id <$> cache')).
  rewrite reorder_body_ids. split; [done|]. split; [done|].
  apply reordered_in_sync. intros t Ht. rewrite Hperm in Ht.
  apply list_elem_of_lookup_1 in Ht as [k Hk].
  destruct (Forall2_lookup_r _ _ _ _ _ Hsync Hk) as (j & Hj & Hview).
  exists j. split; [|done].
  apply todoMap_lookup_elem; [done|by eapply list_elem_of_lookup_2|by apply view_id_of].
Qed.

Lemma reorderTodo_keeps_cache_in_sync_witness :
  ∃ stored',
    Server.patch_reorder (Returns sample_list) true
      (Wire.reorder_body [sample_view 2 "b"; sample_view 1 "a"])
      = {| Server.reply := Server.SendJson 200 (JArr (JObj <$> stored'));
           Server.written := Some stored' |}
    ∧ Wire.in_sync stored' [sample_view 2 "b"; sample_view 1 "a"].
Proof.
  destruct (reorderTodo_keeps_cache_in_sync sample_list
              [sample_view 1 "a"; sample_view 2 "b"] 2 1
              [sample_view 2 "b"; sample_view 1 "a"])
    as (stored' & Hpatch & _ & Hsync).
  - constructor; [reflexivity|]. constructor; [reflexivity|]. constructor.
  - apply (bool_decide_unpack _). vm_compute. exact I.
  - reflexivity.
  - by exists stored'.
Defined.

Section AddBody.
Import Client.

Lemma addTodo_body_Some newTodoText newTodoPriority newTodoDueDate body :
  Wire.addTodo_body newTodoText newTodoPriority newTodoDueDate = Some body →
  trim newTodoText ≠ ""
  ∧ body !! "text" = Some (JStr (trim newTodoText))
  ∧ body !! "priority" = Some (JStr (Wire.priority_name newTodoPriority))
  ∧ body !! "dueDate" = Some (if bool_decide (newTodoDueDate = "") then JNull
                              else JStr newTodoDueDate).
Proof.
  unfold Wire.addTodo_body. cbv zeta. case_bool_decide as Hempty; [done|].
  intros [= <-]. split; [done|]. by simplify_map_eq.
Qed.

End AddBody.

(** X25.  The body [addTodo] sends passes the create handler's checks
    exactly when the trimmed text has at most 500 characters and the due
    date input is empty or in the format YYYY-MM-DD; otherwise the
    handler answers 400 and writes nothing.  When it passes, the record
    created shows, under the client's interface, the trimmed text, the
    priority and the due date the user entered (none for an empty
    input), incomplete, under the clock reading as its id. *)
Theorem addTodo_body_is_created
    (newTodoText : string) (newTodoPriority : Client.Priority) (newTodoDueDate : string)
    (body : JsObject) (stored : list JsObject) (now : Z) :
  Wire.addTodo_body newTodoText newTodoPriority newTodoDueDate = Some body →
  (Server.status_of (Server.reply (Server.post_todos (Returns stored) true now body)) = 201
   ↔ (String.length (trim newTodoText) ≤ Server.MAX_TEXT_LENGTH)%nat
     ∧ (newTodoDueDate = "" ∨ Server.DATE_REGEX_test newTodoDueDate = true))
  ∧ (Server.status_of (Server.reply (Server.post_todos (Returns stored) true now body)) = 201
     ∨ Server.status_of (Server.reply (Server.post_todos (Returns stored) true now body)) = 400)
  ∧ ∀ l, Server.written (Server.post_todos (Returns stored) true now body) = Some l →
      ∃ j, l = stored ++ [j]
           ∧ Server.reply (Server.post_todos (Returns stored) true now body)
             = Server.SendJson 201 (JObj j)
           ∧ Wire.view j
             = Some {| Client.id := now; Client.text := trim newTodoText;
                       Client.completed := false; Client.priority := newTodoPriority;
                       Client.dueDate := if bool_decide (newTodoDueDate = "") then None
                                         else Some newTodoDueDate;
                       Client.completedAt := None |}.
Proof.
  intros (Htext & Hbt & Hbp & Hbd)%addTodo_body_Some.
  unfold Server.post_todos. rewrite Hbt, Hbp, Hbd. cbn [from_option id].
  rewrite trim_idempotent, bool_decide_eq_false_2 by done.
  rewrite valid_priority_name. cbn [negb].
  destruct (_ <? _)%nat eqn:Hlen.
  { apply Nat.ltb_lt in Hlen. cbn. split_and!; [|by right|done].
    split; [done|]. intros [? _]. lia. }
  apply Nat.ltb_ge in Hlen.
  assert (Hdue : Server.bad_dueDate
                   (if bool_decide (newTodoDueDate = "") then JNull else JStr newTodoDueDate)
                 = false
                 ↔ newTodoDueDate = "" ∨ Server.DATE_REGEX_test newTodoDueDate = true).
  { case_bool_decide as Hd; cbn.
    - split; [by left|done].
    - rewrite negb_false_iff. split; [by right|]. by intros [?|?]. }
  destruct (Server.bad_dueDate _) eqn:Hbad.
  { cbn. split_and!; [|by right|done]. split; [done|].
    intros [_ Hd]. apply Hdue in Hd. done. }
  cbn. split_and!; [|by left|].
  { split; [|done]. intros _. split; [done|]. by apply Hdue. }
  intros l [= <-]. eexists. split; [done|]. split; [done|].
  destruct (new_todo_fields now (trim newTodoText)
              (JStr (Wire.priority_name newTodoPriority))
              (if bool_decide (newTodoDueDate = "") then JNull else JStr newTodoDueDate))
    as (H1 & H2 & H3 & H4 & H5 & H6).
  unfold Wire.view. rewrite H1, H2, H3, H4, H5, H6, priority_named_name, trim_idempotent.
  cbn. by case_bool_decide.
Qed.

Lemma addTodo_body_is_created_witness :
  Server.status_of
    (Server.reply
       (Server.post_todos (Returns sample_list) true 9
          {[ "text" := JStr "buy milk"; "completed" := JBool false;
             "priority" := JStr "high"; "dueDate" := JStr "2024-02-29" ]})) = 201.
Proof.
  destruct (addTodo_body_is_created "  buy milk " Client.high "2024-02-29"
              {[ "text" := JStr "buy milk"; "completed" := JBool false;
                 "priority" := JStr "high"; "dueDate" := JStr "2024-02-29" ]}
              sample_list 9 eq_refl) as (Hiff & _).
  apply Hiff. split; [by apply Nat.leb_le|by right].
Defined.

(** ** The sign-in form against the account handlers *)

(** X26.  What the sign-in form sends passes the handlers' checks of
    presence: a login it sends is never answered 400, and a registration
    it sends is answered 400 only for the form of the user name, which
    the form does not check, never for the password, whose length it
    checks as the handler does.  The name sent is the trimmed one, which
    the handlers' own trimming leaves as it is.  Both routes stand behind
    the limiter: this holds for a request it lets through, and a request
    beyond the tenth of its window is answered 429 whatever the form
    sent. *)
Theorem sign_in_form_passes_presence_checks
    (bcrypt_hash : string → string) (bcrypt_compare : string → string → bool)
    (sha256_hex createSession : string → string)
    (rdu : Fallible (list Server.User)) (wru : bool) (hits : nat)
    (f : Login.Form) (body : JsObject) :
  (Login._login f = inr body →
     Server.status_of
       (Server.login_route bcrypt_compare sha256_hex createSession rdu hits body) ≠ 400
     ∧ (Server.status_of
          (Server.login_route bcrypt_compare sha256_hex createSession rdu hits body) = 429
        ↔ (10 < hits)%nat))
  ∧ (Login._register f = inr body →
       Login.password f = Login.confirmPassword f
       ∧ (Server.status_of
            (Server.user_reply
               (Server.register_route bcrypt_hash createSession rdu wru hits body)) = 400
          ↔ (hits ≤ 10)%nat ∧ Server.USERNAME_REGEX_test (trim (Login.username f)) = false)
       ∧ (Server.status_of
            (Server.user_reply
               (Server.register_route bcrypt_hash createSession rdu wru hits body)) = 429
          ↔ (10 < hits)%nat)
       ∧ Server.user_reply (Server.register_route bcrypt_hash createSession rdu wru hits body)
         ≠ Server.error 400 "Password must be at least 6 characters").
Proof.
  assert (Hbody : ∀ u p, Login.credentials u p !! "username" = Some (JStr u)
                         ∧ Login.credentials u p !! "password" = Some (JStr p)).
  { intros u p. unfold Login.credentials. split; by simplify_map_eq. }
  unfold Server.login_route, Server.register_route, Server.authLimiter.
  split.
  - unfold Login._login. cbv zeta.
    case_bool_decide as Hu; [done|]. case_bool_decide as Hp; [done|]. cbn [orb].
    intros [= <-].
    destruct (10 <? hits)%nat eqn:Hhits.
    { apply Nat.ltb_lt in Hhits. by split. }
    apply Nat.ltb_ge in Hhits. unfold Server.login.
    destruct (Hbody (trim (Login.username f)) (Login.password f)) as [-> ->].
    rewrite !bool_decide_eq_false_2 by done. cbn.
    destruct rdu as [users|]; [|split; [done|split; [done|lia]]].
    destruct (Server.find_user _ users) as [user|]; [|split; [done|split; [done|lia]]].
    destruct (Server.verifyPassword _ _ _ _); (split; [done|split; [done|lia]]).
  - unfold Login._register. cbv zeta.
    case_bool_decide as Hu; [done|]. case_bool_decide as Hp; [done|]. cbn [orb].
    case_bool_decide as Hcp; [done|].
    destruct (String.length (Login.password f) <? 6)%nat eqn:Hlen; [done|].
    intros [= <-].
    split; [by destruct (decide (Login.password f = Login.confirmPassword f))|].
    destruct (10 <? hits)%nat eqn:Hhits.
    { apply Nat.ltb_lt in Hhits. cbn. split_and!; [|done|done].
      split; [done|]. intros [? _]. lia. }
    apply Nat.ltb_ge in Hhits. unfold Server.register.
    destruct (Hbody (trim (Login.username f)) (Login.password f)) as [-> ->].
    rewrite trim_idempotent, Hlen.
    destruct (Server.USERNAME_REGEX_test (trim (Login.username f))); cbn;
      [|split_and!; [done|split; [done|lia]|done]].
    destruct rdu as [users|];
      [|split_and!; [split; [done|by intros [_ ?]]|split; [done|lia]|done]].
    destruct (Server.find_user _ users);
      [split_and!; [split; [done|by intros [_ ?]]|split; [done|lia]|done]|].
    destruct wru; (split_and!; [split; [done|by intros [_ ?]]|split; [done|lia]|done]).
Qed.

Lemma sign_in_form_passes_presence_checks_witness :
  Server.status_of
    (Server.login_route toy_compare toy_digest toy_sign (Returns sample_users) 3
       (Login.credentials "bob" "hunter22")) ≠ 400
  ∧ Server.status_of
      (Server.user_reply
         (Server.register_route toy_hash toy_sign (Returns sample_users) true 3
            (Login.credentials "al" "hunter22"))) = 400.
Proof.
  destruct (sign_in_form_passes_presence_checks toy_hash toy_compare toy_digest toy_sign
              (Returns sample_users) true 3
              {| Login.username := " bob "; Login.password := "hunter22";
                 Login.confirmPassword := "" |}
              (Login.credentials "bob" "hunter22")) as [Hlogin _].
  destruct (sign_in_form_passes_presence_checks toy_hash toy_compare toy_digest toy_sign
              (Returns sample_users) true 3
              {| Login.username := " al "; Login.password := "hunter22";
                 Login.confirmPassword := "hunter22" |}
              (Login.credentials "al" "hunter22")) as [_ Hregister].
  split.
  - by apply Hlogin.
  - destruct Hregister as (_ & H400 & _); [reflexivity|].
    apply H400. split; [lia|reflexivity].
Defined.
